(** * Crane runway beam design: the analysis core of CraneRunwayProV6.py

    A shallow embedding of the crane geometry model, the section property
    model, the moving-load envelope engine and the strength checks of
    [CraneRunwayProV6.py], together with the properties stated about them.

    Numbers.  The program computes with Python floats.  They are idealised
    here as exact rationals ([Q]): every decimal literal of the source is the
    rational it denotes, [+ - * /] are exact, and rounding is not modelled.
    Equality of computed numbers is therefore [==] ([Qeq]); Leibniz equality
    is used only where two values are produced by the same expression.

    Exceptions.  A Python exception is an explicit result [Raise e]:
    [ZeroDivisionError] for [x / 0], [ValueError] for [math.sqrt] of a
    negative number, [TypeError] for an ordering comparison that meets the
    complex number Python returns for a negative base raised to a fractional
    power.

    Library functions.  [math.sqrt] and the float power [x ** y] (fractional
    [y]) belong to Python, not to the program: the development is
    parametric in them ([sqrt], [fpow]); the closed examples instantiate them
    with the rational approximations [sqrt_approx] and [fpow_approx]. *)

From Stdlib Require Import QArith Qround Qabs Lqa Lia ZArith List String Bool.
Import ListNotations.
Open Scope Q_scope.

(* ================================================================== *)
(** * Exceptions and Python arithmetic *)
(* ================================================================== *)

Inductive exn : Type :=
| ZeroDivisionError
| ValueError
| TypeError.

Inductive exc (A : Type) : Type :=
| Ok (a : A)
| Raise (e : exn).

Arguments Ok {A} a.
Arguments Raise {A} e.

Definition bind {A B : Type} (m : exc A) (k : A -> exc B) : exc B :=
  match m with
  | Ok a => k a
  | Raise e => Raise e
  end.

Notation "'let*' x ':=' m 'in' k" := (bind m (fun x => k))
  (at level 10, x pattern, m at level 100, k at level 200).

Definition exc_map {A B : Type} (f : A -> B) (m : exc A) : exc B :=
  match m with
  | Ok a => Ok (f a)
  | Raise e => Raise e
  end.

(** [x < y], [x > y] on floats. *)
Definition Qltb (x y : Q) : bool := negb (Qle_bool y x).

(** [x / y] with a divisor that is not a nonzero literal.  Where the source
    tests the divisor first ([x / y if y > 0 else ...]) the quotient is
    sometimes written with [/] directly: under that test it cannot raise. *)
Definition py_div (x y : Q) : exc Q :=
  if Qeq_bool y 0 then Raise ZeroDivisionError else Ok (x / y).

(** [max(a, b)] and [min(a, b)]: the first argument wins ties. *)
Definition py_max (a b : Q) : Q := if Qltb a b then b else a.
Definition py_min (a b : Q) : Q := if Qltb b a then b else a.

(** [a or b] on floats: [a] when it is truthy (nonzero), else [b]. *)
Definition py_or (a b : Q) : Q := if Qeq_bool a 0 then b else a.

(** [sum(...)]: left fold starting from [0]. *)
Definition py_sum (l : list Q) : Q := fold_left Qplus l 0.

(** [zip(xs, ys)] is [List.combine xs ys]: it stops at the shorter list. *)

(* ================================================================== *)
(** * Constants *)
(* ================================================================== *)

Definition E_STEEL : Q := 200000.
Definition GRAVITY : Q := 9.81.
Definition RHO_STEEL : Q := 7850.

Definition OMEGA_FLEX : Q := 1.67.
Definition OMEGA_SHEAR : Q := 1.50.
Definition OMEGA_SHEAR_TFA : Q := 1.67.
Definition OMEGA_WLY : Q := 1.50.
Definition OMEGA_WCR : Q := 2.00.

(** [FATIGUE_CATEGORIES]: key, [Cf], [FTH] (the description strings play no
    part in any computation). *)
Record FatigueCat : Type := mkFatigueCat { Cf_of : Q; FTH_of : Q }.

Definition FATIGUE_CATEGORIES : list (string * FatigueCat) :=
  [ ("A"%string,  mkFatigueCat 250e8 165);
    ("B"%string,  mkFatigueCat 120e8 110);
    ("B'"%string, mkFatigueCat 61e8 83);
    ("C"%string,  mkFatigueCat 44e8 69);
    ("C'"%string, mkFatigueCat 44e8 83);
    ("D"%string,  mkFatigueCat 22e8 48);
    ("E"%string,  mkFatigueCat 11e8 31);
    ("E'"%string, mkFatigueCat 3.9e8 18);
    ("F"%string,  mkFatigueCat 150e8 55) ].

(** [d.get(k)] / [d[k]] on a dict given as its item list. *)
Fixpoint dict_lookup {V : Type} (k : string) (d : list (string * V)) : option V :=
  match d with
  | [] => None
  | (k', v) :: d' => if String.eqb k k' then Some v else dict_lookup k d'
  end.

(** [d.get(k, default)]. *)
Definition dict_get {V : Type} (d : list (string * V)) (k : string) (default : V) : V :=
  match dict_lookup k d with
  | Some v => v
  | None => default
  end.

(** [FATIGUE_CATEGORIES['E']]: the key is present, so the subscript cannot
    raise [KeyError]. *)
Definition FATIGUE_CATEGORIES_E : FatigueCat :=
  Eval cbv in
    match dict_lookup "E"%string FATIGUE_CATEGORIES with
    | Some v => v
    | None => mkFatigueCat 0 0
    end.

(* ================================================================== *)
(** * Crane geometry model: [CraneData] *)
(* ================================================================== *)

Record CraneData : Type := mkCraneData {
  crane_id : Z;
  capacity_tonnes : Q;
  bridge_weight : Q;
  trolley_weight : Q;
  bridge_span : Q;
  min_hook_approach : Q;
  wheel_base : Q;
  buffer_left : Q;
  buffer_right : Q;
  num_wheels : Z;
  impact_v : Q;
  impact_h : Q;
  impact_l : Q;
  wheel_spacing_12 : Q;
  wheel_spacing_23 : Q;
  wheel_spacing_34 : Q;
  use_direct_input : bool;
  direct_max_wheel_load : Q;
  direct_min_wheel_load : Q;
  direct_lateral_load : Q
}.

(** The dataclass defaults. *)
Definition default_crane : CraneData :=
  mkCraneData 1 10.0 5.0 0.72 15.0 1.0 2.2 0.29 0.29 2 0.25 0.20 0.10
              0.0 0.0 0.0 false 0.0 0.0 0.0.

Definition get_wheel_positions_relative (c : CraneData) : list Q :=
  if (num_wheels c =? 2)%Z then
    [0.0; wheel_base c]
  else if (num_wheels c =? 4)%Z then
    if Qltb 0 (wheel_spacing_12 c) && Qltb 0 (wheel_spacing_23 c)
       && Qltb 0 (wheel_spacing_34 c) then
      [ 0.0;
        wheel_spacing_12 c;
        wheel_spacing_12 c + wheel_spacing_23 c;
        wheel_spacing_12 c + wheel_spacing_23 c + wheel_spacing_34 c ]
    else
      let spacing := wheel_base c / 3 in
      [0.0; spacing; 2 * spacing; wheel_base c]
  else
    if (num_wheels c <=? 1)%Z then
      [0.0]
    else
      (* num_wheels - 1 >= 2 here: the division cannot raise *)
      let spacing := wheel_base c / inject_Z (num_wheels c - 1) in
      map (fun i => inject_Z (Z.of_nat i) * spacing)
          (seq 0 (Z.to_nat (num_wheels c))).

Definition get_total_wheel_base (c : CraneData) : Q :=
  let positions := get_wheel_positions_relative c in
  if (1 <? List.length positions)%nat then
    last positions 0 - hd 0 positions
  else 0.0.

Definition calc_wheel_loads (c : CraneData) : exc (Q * Q) :=
  if use_direct_input c && Qltb 0 (direct_max_wheel_load c) then
    Ok (direct_max_wheel_load c,
        py_or (direct_min_wheel_load c) (direct_max_wheel_load c * 0.2))
  else
    let Lb := bridge_span c in
    let e_min := min_hook_approach c in
    let P_lift := capacity_tonnes c * GRAVITY in
    let P_trolley := trolley_weight c * GRAVITY in
    let P_bridge := bridge_weight c * GRAVITY in
    let R_bridge_each := P_bridge / 2.0 in
    let P_moving := P_lift + P_trolley in
    let* t_max := py_div (P_moving * (Lb - e_min)) Lb in
    let R_max := R_bridge_each + t_max in
    let* t_min := py_div (P_moving * e_min) Lb in
    let R_min := R_bridge_each + t_min in
    let* max_wl := py_div R_max (inject_Z (num_wheels c)) in
    let* min_wl := py_div R_min (inject_Z (num_wheels c)) in
    Ok (max_wl, min_wl).

Definition get_wheel_load_with_impact (c : CraneData) : exc Q :=
  let* wl := calc_wheel_loads c in
  let max_wl := fst wl in
  Ok (max_wl * (1 + impact_v c)).

Definition get_min_wheel_load_with_impact (c : CraneData) : exc Q :=
  let* wl := calc_wheel_loads c in
  let min_wl := snd wl in
  Ok (min_wl * (1 + impact_v c)).

Definition get_lateral_load_per_wheel (c : CraneData) : exc Q :=
  if use_direct_input c && Qltb 0 (direct_lateral_load c) then
    Ok (direct_lateral_load c)
  else
    let P_lift := capacity_tonnes c * GRAVITY in
    let P_trolley := trolley_weight c * GRAVITY in
    let H_total := impact_h c * (P_lift + P_trolley) in
    py_div H_total (2 * inject_Z (num_wheels c)).

Definition get_longitudinal_force (c : CraneData) : exc Q :=
  let* wl := calc_wheel_loads c in
  let max_wl := fst wl in
  Ok (impact_l c * max_wl * inject_Z (num_wheels c)).

(* ================================================================== *)
(** * Section property model: [class Section] *)
(* ================================================================== *)

(** The dataclass [Section] ([Section] is a vernacular keyword, hence the
    record's name).  Lengths in mm. *)
Record SteelSection : Type := mkSection {
  name : string;
  sec_type : string;
  d : Q;
  bf : Q;
  tf : Q;
  tw : Q;
  r : Q;
  bf_top : Q;
  tf_top : Q;
  bf_bot : Q;
  tf_bot : Q;
  hw : Q;
  has_cap : bool;
  cap_name : string;
  cap_A : Q;
  cap_Ix : Q;
  cap_Iy : Q;
  cap_d : Q;
  cap_cy : Q;
  A : Q;
  Ix : Q;
  Iy : Q;
  Sx : Q;
  Sy : Q;
  Zx : Q;
  rx : Q;
  ry : Q;
  rts : Q;
  J : Q;
  Cw : Q;
  ho : Q;
  y_bar : Q;
  mass : Q
}.

(** Attribute assignment [self.f = v], one setter per assigned attribute. *)
Definition set_bf_top (v : Q) (s : SteelSection) : SteelSection :=
  mkSection (name s) (sec_type s) (d s) (bf s) (tf s) (tw s) (r s) v
    (tf_top s) (bf_bot s) (tf_bot s) (hw s) (has_cap s) (cap_name s)
    (cap_A s) (cap_Ix s) (cap_Iy s) (cap_d s) (cap_cy s) (A s) (Ix s) (Iy s)
    (Sx s) (Sy s) (Zx s) (rx s) (ry s) (rts s) (J s) (Cw s) (ho s) (y_bar s)
    (mass s).
Definition set_tf_top (v : Q) (s : SteelSection) : SteelSection :=
  mkSection (name s) (sec_type s) (d s) (bf s) (tf s) (tw s) (r s)
    (bf_top s) v (bf_bot s) (tf_bot s) (hw s) (has_cap s) (cap_name s)
    (cap_A s) (cap_Ix s) (cap_Iy s) (cap_d s) (cap_cy s) (A s) (Ix s) (Iy s)
    (Sx s) (Sy s) (Zx s) (rx s) (ry s) (rts s) (J s) (Cw s) (ho s) (y_bar s)
    (mass s).
Definition set_bf_bot (v : Q) (s : SteelSection) : SteelSection :=
  mkSection (name s) (sec_type s) (d s) (bf s) (tf s) (tw s) (r s)
    (bf_top s) (tf_top s) v (tf_bot s) (hw s) (has_cap s) (cap_name s)
    (cap_A s) (cap_Ix s) (cap_Iy s) (cap_d s) (cap_cy s) (A s) (Ix s) (Iy s)
    (Sx s) (Sy s) (Zx s) (rx s) (ry s) (rts s) (J s) (Cw s) (ho s) (y_bar s)
    (mass s).
Definition set_tf_bot (v : Q) (s : SteelSection) : SteelSection :=
  mkSection (name s) (sec_type s) (d s) (bf s) (tf s) (tw s) (r s)
    (bf_top s) (tf_top s) (bf_bot s) v (hw s) (has_cap s) (cap_name s)
    (cap_A s) (cap_Ix s) (cap_Iy s) (cap_d s) (cap_cy s) (A s) (Ix s) (Iy s)
    (Sx s) (Sy s) (Zx s) (rx s) (ry s) (rts s) (J s) (Cw s) (ho s) (y_bar s)
    (mass s).
Definition set_hw (v : Q) (s : SteelSection) : SteelSection :=
  mkSection (name s) (sec_type s) (d s) (bf s) (tf s) (tw s) (r s)
    (bf_top s) (tf_top s) (bf_bot s) (tf_bot s) v (has_cap s) (cap_name s)
    (cap_A s) (cap_Ix s) (cap_Iy s) (cap_d s) (cap_cy s) (A s) (Ix s) (Iy s)
    (Sx s) (Sy s) (Zx s) (rx s) (ry s) (rts s) (J s) (Cw s) (ho s) (y_bar s)
    (mass s).
Definition set_A (v : Q) (s : SteelSection) : SteelSection :=
  mkSection (name s) (sec_type s) (d s) (bf s) (tf s) (tw s) (r s)
    (bf_top s) (tf_top s) (bf_bot s) (tf_bot s) (hw s) (has_cap s)
    (cap_name s) (cap_A s) (cap_Ix s) (cap_Iy s) (cap_d s) (cap_cy s) v
    (Ix s) (Iy s) (Sx s) (Sy s) (Zx s) (rx s) (ry s) (rts s) (J s) (Cw s)
    (ho s) (y_bar s) (mass s).
Definition set_Ix (v : Q) (s : SteelSection) : SteelSection :=
  mkSection (name s) (sec_type s) (d s) (bf s) (tf s) (tw s) (r s)
    (bf_top s) (tf_top s) (bf_bot s) (tf_bot s) (hw s) (has_cap s)
    (cap_name s) (cap_A s) (cap_Ix s) (cap_Iy s) (cap_d s) (cap_cy s) (A s)
    v (Iy s) (Sx s) (Sy s) (Zx s) (rx s) (ry s) (rts s) (J s) (Cw s) (ho s)
    (y_bar s) (mass s).
Definition set_Iy (v : Q) (s : SteelSection) : SteelSection :=
  mkSection (name s) (sec_type s) (d s) (bf s) (tf s) (tw s) (r s)
    (bf_top s) (tf_top s) (bf_bot s) (tf_bot s) (hw s) (has_cap s)
    (cap_name s) (cap_A s) (cap_Ix s) (cap_Iy s) (cap_d s) (cap_cy s) (A s)
    (Ix s) v (Sx s) (Sy s) (Zx s) (rx s) (ry s) (rts s) (J s) (Cw s) (ho s)
    (y_bar s) (mass s).
Definition set_Sx (v : Q) (s : SteelSection) : SteelSection :=
  mkSection (name s) (sec_type s) (d s) (bf s) (tf s) (tw s) (r s)
    (bf_top s) (tf_top s) (bf_bot s) (tf_bot s) (hw s) (has_cap s)
    (cap_name s) (cap_A s) (cap_Ix s) (cap_Iy s) (cap_d s) (cap_cy s) (A s)
    (Ix s) (Iy s) v (Sy s) (Zx s) (rx s) (ry s) (rts s) (J s) (Cw s) (ho s)
    (y_bar s) (mass s).
Definition set_Sy (v : Q) (s : SteelSection) : SteelSection :=
  mkSection (name s) (sec_type s) (d s) (bf s) (tf s) (tw s) (r s)
    (bf_top s) (tf_top s) (bf_bot s) (tf_bot s) (hw s) (has_cap s)
    (cap_name s) (cap_A s) (cap_Ix s) (cap_Iy s) (cap_d s) (cap_cy s) (A s)
    (Ix s) (Iy s) (Sx s) v (Zx s) (rx s) (ry s) (rts s) (J s) (Cw s) (ho s)
    (y_bar s) (mass s).
Definition set_Zx (v : Q) (s : SteelSection) : SteelSection :=
  mkSection (name s) (sec_type s) (d s) (bf s) (tf s) (tw s) (r s)
    (bf_top s) (tf_top s) (bf_bot s) (tf_bot s) (hw s) (has_cap s)
    (cap_name s) (cap_A s) (cap_Ix s) (cap_Iy s) (cap_d s) (cap_cy s) (A s)
    (Ix s) (Iy s) (Sx s) (Sy s) v (rx s) (ry s) (rts s) (J s) (Cw s) (ho s)
    (y_bar s) (mass s).
Definition set_rx (v : Q) (s : SteelSection) : SteelSection :=
  mkSection (name s) (sec_type s) (d s) (bf s) (tf s) (tw s) (r s)
    (bf_top s) (tf_top s) (bf_bot s) (tf_bot s) (hw s) (has_cap s)
    (cap_name s) (cap_A s) (cap_Ix s) (cap_Iy s) (cap_d s) (cap_cy s) (A s)
    (Ix s) (Iy s) (Sx s) (Sy s) (Zx s) v (ry s) (rts s) (J s) (Cw s) (ho s)
    (y_bar s) (mass s).
Definition set_ry (v : Q) (s : SteelSection) : SteelSection :=
  mkSection (name s) (sec_type s) (d s) (bf s) (tf s) (tw s) (r s)
    (bf_top s) (tf_top s) (bf_bot s) (tf_bot s) (hw s) (has_cap s)
    (cap_name s) (cap_A s) (cap_Ix s) (cap_Iy s) (cap_d s) (cap_cy s) (A s)
    (Ix s) (Iy s) (Sx s) (Sy s) (Zx s) (rx s) v (rts s) (J s) (Cw s) (ho s)
    (y_bar s) (mass s).
Definition set_rts (v : Q) (s : SteelSection) : SteelSection :=
  mkSection (name s) (sec_type s) (d s) (bf s) (tf s) (tw s) (r s)
    (bf_top s) (tf_top s) (bf_bot s) (tf_bot s) (hw s) (has_cap s)
    (cap_name s) (cap_A s) (cap_Ix s) (cap_Iy s) (cap_d s) (cap_cy s) (A s)
    (Ix s) (Iy s) (Sx s) (Sy s) (Zx s) (rx s) (ry s) v (J s) (Cw s) (ho s)
    (y_bar s) (mass s).
Definition set_J (v : Q) (s : SteelSection) : SteelSection :=
  mkSection (name s) (sec_type s) (d s) (bf s) (tf s) (tw s) (r s)
    (bf_top s) (tf_top s) (bf_bot s) (tf_bot s) (hw s) (has_cap s)
    (cap_name s) (cap_A s) (cap_Ix s) (cap_Iy s) (cap_d s) (cap_cy s) (A s)
    (Ix s) (Iy s) (Sx s) (Sy s) (Zx s) (rx s) (ry s) (rts s) v (Cw s) (ho s)
    (y_bar s) (mass s).
Definition set_Cw (v : Q) (s : SteelSection) : SteelSection :=
  mkSection (name s) (sec_type s) (d s) (bf s) (tf s) (tw s) (r s)
    (bf_top s) (tf_top s) (bf_bot s) (tf_bot s) (hw s) (has_cap s)
    (cap_name s) (cap_A s) (cap_Ix s) (cap_Iy s) (cap_d s) (cap_cy s) (A s)
    (Ix s) (Iy s) (Sx s) (Sy s) (Zx s) (rx s) (ry s) (rts s) (J s) v (ho s)
    (y_bar s) (mass s).
Definition set_ho (v : Q) (s : SteelSection) : SteelSection :=
  mkSection (name s) (sec_type s) (d s) (bf s) (tf s) (tw s) (r s)
    (bf_top s) (tf_top s) (bf_bot s) (tf_bot s) (hw s) (has_cap s)
    (cap_name s) (cap_A s) (cap_Ix s) (cap_Iy s) (cap_d s) (cap_cy s) (A s)
    (Ix s) (Iy s) (Sx s) (Sy s) (Zx s) (rx s) (ry s) (rts s) (J s) (Cw s) v
    (y_bar s) (mass s).
Definition set_y_bar (v : Q) (s : SteelSection) : SteelSection :=
  mkSection (name s) (sec_type s) (d s) (bf s) (tf s) (tw s) (r s)
    (bf_top s) (tf_top s) (bf_bot s) (tf_bot s) (hw s) (has_cap s)
    (cap_name s) (cap_A s) (cap_Ix s) (cap_Iy s) (cap_d s) (cap_cy s) (A s)
    (Ix s) (Iy s) (Sx s) (Sy s) (Zx s) (rx s) (ry s) (rts s) (J s) (Cw s)
    (ho s) v (mass s).
Definition set_mass (v : Q) (s : SteelSection) : SteelSection :=
  mkSection (name s) (sec_type s) (d s) (bf s) (tf s) (tw s) (r s)
    (bf_top s) (tf_top s) (bf_bot s) (tf_bot s) (hw s) (has_cap s)
    (cap_name s) (cap_A s) (cap_Ix s) (cap_Iy s) (cap_d s) (cap_cy s) (A s)
    (Ix s) (Iy s) (Sx s) (Sy s) (Zx s) (rx s) (ry s) (rts s) (J s) (Cw s)
    (ho s) (y_bar s) v.

(** [Section()] with the dataclass defaults. *)
Definition default_section : SteelSection :=
  mkSection "Custom" "hot_rolled" 0 0 0 0 0 0 0 0 0 0 false "" 0 0 0 0 0
            0 0 0 0 0 0 0 0 0 0 0 0 0 0.

Section Model.

(** [math.sqrt] on non-negative arguments and the float power [x ** y] on
    non-negative bases. *)
Variable sqrt : Q -> Q.
Variable fpow : Q -> Q -> Q.

Definition math_sqrt (x : Q) : exc Q :=
  if Qltb x 0 then Raise ValueError else Ok (sqrt x).

(** ** [_calc_common_props], one definition per statement *)

(** [if self.A > 0: self.rx = ...; self.ry = ...] *)
Definition common_radii (s : SteelSection) : exc SteelSection :=
  if Qltb 0 (A s) then
    let* rx' := (if Qltb 0 (Ix s)
                 then let* q := py_div (Ix s) (A s) in math_sqrt q
                 else Ok 0) in
    let s1 := set_rx rx' s in
    let* ry' := (if Qltb 0 (Iy s1)
                 then let* q := py_div (Iy s1) (A s1) in math_sqrt q
                 else Ok 0) in
    Ok (set_ry ry' s1)
  else Ok s.

(** [if self.Zx == 0 and self.Sx > 0: self.Zx = self.Sx * 1.12] *)
Definition common_Zx (s : SteelSection) : SteelSection :=
  if Qeq_bool (Zx s) 0 && Qltb 0 (Sx s) then set_Zx (Sx s * 1.12) s else s.

(** [if self.J == 0: self.J = (2*bf*tf**3 + hw*tw**3) / 3] *)
Definition common_J (s : SteelSection) : SteelSection :=
  if Qeq_bool (J s) 0
  then set_J ((2 * bf s * tf s ^ 3 + hw s * tw s ^ 3) / 3) s
  else s.

(** [if self.Cw == 0 and self.ho > 0 and self.Iy > 0: self.Cw = Iy*ho**2/4] *)
Definition common_Cw (s : SteelSection) : SteelSection :=
  if Qeq_bool (Cw s) 0 && Qltb 0 (ho s) && Qltb 0 (Iy s)
  then set_Cw (Iy s * ho s ^ 2 / 4) s
  else s.

(** [if self.rts == 0 and self.Sx > 0 and self.Iy > 0 and self.Cw > 0:
       self.rts = math.sqrt(math.sqrt(self.Iy * self.Cw) / self.Sx)] *)
Definition common_rts (s : SteelSection) : exc SteelSection :=
  if Qeq_bool (rts s) 0 && Qltb 0 (Sx s) && Qltb 0 (Iy s) && Qltb 0 (Cw s) then
    let* r1 := math_sqrt (Iy s * Cw s) in
    let* q := py_div r1 (Sx s) in
    let* r2 := math_sqrt q in
    Ok (set_rts r2 s)
  else Ok s.

(** [if self.mass == 0 and self.A > 0:
       self.mass = self.A * RHO_STEEL / 1e6
       if self.has_cap and self.cap_A > 0:
           self.mass += self.cap_A * RHO_STEEL / 1e6] *)
Definition common_mass (s : SteelSection) : SteelSection :=
  if Qeq_bool (mass s) 0 && Qltb 0 (A s) then
    let s1 := set_mass (A s * RHO_STEEL / 1e6) s in
    if has_cap s1 && Qltb 0 (cap_A s1)
    then set_mass (mass s1 + cap_A s1 * RHO_STEEL / 1e6) s1
    else s1
  else s.

Definition _calc_common_props (s : SteelSection) : exc SteelSection :=
  let* s := common_radii s in
  let s := common_Zx s in
  let s := common_J s in
  let s := common_Cw s in
  let* s := common_rts s in
  Ok (common_mass s).

(** ** [_calc_built_up_props] *)

(** [if self.bf_top == 0: ...] -- the same four assignments open both
    derivation modes. *)
Definition flange_defaults (s : SteelSection) : SteelSection :=
  if Qeq_bool (bf_top s) 0 then
    let s := set_bf_top (bf s) s in
    let s := set_tf_top (tf s) s in
    let s := set_bf_bot (bf s) s in
    set_tf_bot (tf s) s
  else s.

(** The block "Set defaults" of [_calc_built_up_props]. *)
Definition built_up_defaults (s : SteelSection) : SteelSection :=
  let s := flange_defaults s in
  if Qeq_bool (hw s) 0 then set_hw (d s - tf_top s - tf_bot s) s else s.

(** The blocks "Areas" to "Torsional properties" of [_calc_built_up_props]. *)
Definition built_up_geometry (s : SteelSection) : exc SteelSection :=
  (* Areas *)
  let A_tf := bf_top s * tf_top s in
  let A_bf := bf_bot s * tf_bot s in
  let A_w := hw s * tw s in
  let A_I := A_tf + A_bf + A_w in
  (* Centroids from bottom *)
  let y_tf := tf_bot s + hw s + tf_top s / 2 in
  let y_bf := tf_bot s / 2 in
  let y_w := tf_bot s + hw s / 2 in
  (* With or without cap channel *)
  let* s :=
    (if has_cap s && Qltb 0 (cap_A s) then
       let y_cap := d s + cap_cy s in
       let s := set_A (A_I + cap_A s) s in
       let* yb := py_div (A_tf * y_tf + A_bf * y_bf + A_w * y_w
                          + cap_A s * y_cap) (A s) in
       Ok (set_y_bar yb s)
     else
       let s := set_A A_I s in
       let* yb := py_div (A_tf * y_tf + A_bf * y_bf + A_w * y_w)
                         (py_max A_I 1) in
       Ok (set_y_bar yb s)) in
  (* Moment of inertia *)
  let s := set_ho (d s - (tf_top s + tf_bot s) / 2) s in
  let I_tf := bf_top s * tf_top s ^ 3 / 12 + A_tf * (y_tf - y_bar s) ^ 2 in
  let I_bf := bf_bot s * tf_bot s ^ 3 / 12 + A_bf * (y_bf - y_bar s) ^ 2 in
  let I_w := tw s * hw s ^ 3 / 12 + A_w * (y_w - y_bar s) ^ 2 in
  let s :=
    if has_cap s && Qltb 0 (cap_A s) then
      let y_cap := d s + cap_cy s in
      let I_cap := cap_Ix s + cap_A s * (y_cap - y_bar s) ^ 2 in
      let s := set_Ix (I_tf + I_bf + I_w + I_cap) s in
      set_Iy ((tf_top s * bf_top s ^ 3 + tf_bot s * bf_bot s ^ 3
               + hw s * tw s ^ 3) / 12 + cap_Iy s) s
    else
      let s := set_Ix (I_tf + I_bf + I_w) s in
      set_Iy ((tf_top s * bf_top s ^ 3 + tf_bot s * bf_bot s ^ 3
               + hw s * tw s ^ 3) / 12) s in
  (* Section moduli *)
  let c_top := (if has_cap s then d s + cap_d s else d s) - y_bar s in
  let c_bot := y_bar s in
  let* sx := py_div (Ix s) (py_max c_top c_bot) in
  let s := set_Sx sx s in
  let* sy := py_div (Iy s) (py_max (py_max (bf_top s / 2) (bf_bot s / 2)) 1) in
  let s := set_Sy sy s in
  (* Torsional properties *)
  let s := set_J ((bf_top s * tf_top s ^ 3 + bf_bot s * tf_bot s ^ 3
                   + hw s * tw s ^ 3) / 3) s in
  Ok (set_Cw (if Qltb 0 (ho s) then Iy s * ho s ^ 2 / 4 else 1) s).

Definition _calc_built_up_props (s : SteelSection) : exc SteelSection :=
  let s := built_up_defaults s in
  let* s := built_up_geometry s in
  _calc_common_props s.

(** ** [_calc_hot_rolled_props] *)

(** The three defaulting statements that open [_calc_hot_rolled_props]. *)
Definition hot_rolled_defaults (s : SteelSection) : SteelSection :=
  let s := if Qeq_bool (hw s) 0 then set_hw (d s - 2 * tf s) s else s in
  let s := if Qeq_bool (ho s) 0 then set_ho (d s - tf s) s else s in
  flange_defaults s.

(** The body of [if self.has_cap and self.cap_A > 0:]. *)
Definition hot_rolled_add_cap (s : SteelSection) : exc SteelSection :=
  let A_I := if Qltb 0 (A s) then A s
             else 2 * bf s * tf s + hw s * tw s in
  let y_I := d s / 2 in
  let y_cap := d s + cap_cy s in
  let total_A := A_I + cap_A s in
  let* yb := py_div (A_I * y_I + cap_A s * y_cap) total_A in
  let s := set_y_bar yb s in
  let I_I := if Qltb 0 (Ix s) then Ix s
             else bf s * d s ^ 3 / 12 - (bf s - tw s) * hw s ^ 3 / 12 in
  let I_cap := cap_Ix s + cap_A s * (y_cap - y_bar s) ^ 2 in
  let I_I_shifted := I_I + A_I * (y_I - y_bar s) ^ 2 in
  let s := set_Ix (I_I_shifted + I_cap) s in
  let s := set_A total_A s in
  let s := if Qltb 0 (Iy s) then set_Iy (Iy s + cap_Iy s) s else s in
  let c_top := (d s + cap_d s) - y_bar s in
  let c_bot := y_bar s in
  let* sx := py_div (Ix s) (py_max c_top c_bot) in
  Ok (set_Sx sx s).

Definition _calc_hot_rolled_props (s : SteelSection) : exc SteelSection :=
  let s := hot_rolled_defaults s in
  let* s := (if has_cap s && Qltb 0 (cap_A s)
             then hot_rolled_add_cap s else Ok s) in
  _calc_common_props s.

(** [calc_props] mutates the section in place and returns it; the model
    returns the mutated section. *)
Definition calc_props (s : SteelSection) : exc SteelSection :=
  if String.eqb (sec_type s) "built_up"
  then _calc_built_up_props s
  else _calc_hot_rolled_props s.

End Model.

(* ================================================================== *)
(** * Moving-load envelope engine *)
(* ================================================================== *)

Module LoadCaseResult.
Record t : Type := mk {
  step_position : Q;
  wheel_positions : list Q;
  wheel_loads : list Q;
  R_A : Q;
  R_B : Q;
  M_max : Q;
  M_max_location : Q;
  V_max : Q;
  moments_at_wheels : list Q
}.
End LoadCaseResult.

Module CriticalResults.
Record t : Type := mk {
  M_max : Q;
  M_max_position : Q;
  M_max_location : Q;
  M_max_R_A : Q;
  M_max_R_B : Q;
  M_max_wheel_positions : list Q;
  R_A_max : Q;
  R_A_max_position : Q;
  R_A_max_wheel_positions : list Q;
  R_A_max_moment : Q;
  R_A_max_R_B : Q;
  R_B_max : Q;
  R_B_max_position : Q;
  R_B_max_wheel_positions : list Q;
  R_B_max_moment : Q;
  R_B_max_R_A : Q;
  R_A_min : Q;
  R_B_min : Q;
  V_max : Q;
  all_results : list LoadCaseResult.t
}.

(** [CriticalResults()]: every float field [0.0], every list empty. *)
Definition default : t :=
  mk 0.0 0.0 0.0 0.0 0.0 [] 0.0 0.0 [] 0.0 0.0 0.0 0.0 [] 0.0 0.0 0.0 0.0 0.0 [].

(** Every numeric field is zero and every wheel layout is empty. *)
Definition zero_valued (c : t) : Prop :=
  M_max c == 0 /\ M_max_position c == 0 /\ M_max_location c == 0
  /\ M_max_R_A c == 0 /\ M_max_R_B c == 0 /\ M_max_wheel_positions c = []
  /\ R_A_max c == 0 /\ R_A_max_position c == 0
  /\ R_A_max_wheel_positions c = []
  /\ R_A_max_moment c == 0 /\ R_A_max_R_B c == 0
  /\ R_B_max c == 0 /\ R_B_max_position c == 0
  /\ R_B_max_wheel_positions c = []
  /\ R_B_max_moment c == 0 /\ R_B_max_R_A c == 0
  /\ R_A_min c == 0 /\ R_B_min c == 0 /\ V_max c == 0.
End CriticalResults.

(** A comprehension whose element expression may raise. *)
Fixpoint mapM {X Y : Type} (f : X -> exc Y) (l : list X) : exc (list Y) :=
  match l with
  | [] => Ok []
  | x :: l' =>
      let* y := f x in
      let* ys := mapM f l' in
      Ok (y :: ys)
  end.

(** The loop of [get_crane_group_geometry], with its three accumulators. *)
Fixpoint crane_group_loop (cranes : list CraneData) (current_pos : Q)
         (rel_positions wheel_loads : list Q) : exc (list Q * list Q) :=
  match cranes with
  | [] => Ok (rel_positions, wheel_loads)
  | crane :: rest =>
      let* Pv := get_wheel_load_with_impact crane in
      let crane_wheel_positions := get_wheel_positions_relative crane in
      let rel_positions :=
        rel_positions ++ map (fun w_pos => current_pos + w_pos) crane_wheel_positions in
      let wheel_loads := wheel_loads ++ map (fun _ => Pv) crane_wheel_positions in
      let current_pos :=
        match rest with
        | next :: _ =>
            (* [if i < len(cranes) - 1] *)
            let gap := buffer_right crane + buffer_left next in
            let crane_total_length := get_total_wheel_base crane in
            current_pos + (crane_total_length + gap)
        | [] => current_pos
        end in
      crane_group_loop rest current_pos rel_positions wheel_loads
  end.

Definition get_crane_group_geometry (cranes : list CraneData)
  : exc (list Q * list Q * Q) :=
  let* acc := crane_group_loop cranes 0.0 [] [] in
  let rel_positions := fst acc in
  let wheel_loads := snd acc in
  let total_length :=
    match rel_positions with
    | [] => 0.0
    | first :: _ => last rel_positions 0 - first
    end in
  Ok (rel_positions, wheel_loads, total_length).

(** [M = R_A * x; for x_j, P_j in zip(...): if x_j < x: M -= P_j * (x - x_j)] *)
Definition moment_at (R_A x : Q) (abs_positions wheel_loads : list Q) : Q :=
  fold_left (fun M xp => if Qltb (fst xp) x then M - snd xp * (x - fst xp) else M)
            (combine abs_positions wheel_loads) (R_A * x).

(** [np.argmax]: index of the first occurrence of the maximum. *)
Fixpoint argmax_from (l : list Q) (i best_i : nat) (best : Q) : nat :=
  match l with
  | [] => best_i
  | x :: l' =>
      if Qltb best x then argmax_from l' (S i) i x
      else argmax_from l' (S i) best_i best
  end.

Definition argmax (l : list Q) : nat :=
  match l with
  | [] => 0%nat
  | x :: l' => argmax_from l' 1 0 x
  end.

(** [min(range(len(l)), key=...)]: index of the first minimum. *)
Fixpoint argmin_from (l : list Q) (i best_i : nat) (best : Q) : nat :=
  match l with
  | [] => best_i
  | x :: l' =>
      if Qltb x best then argmin_from l' (S i) i x
      else argmin_from l' (S i) best_i best
  end.

Definition argmin (l : list Q) : nat :=
  match l with
  | [] => 0%nat
  | x :: l' => argmin_from l' 1 0 x
  end.

Definition analyze_single_position (L first_wheel_pos : Q)
           (rel_positions wheel_loads : list Q) : exc LoadCaseResult.t :=
  let abs_positions := map (fun rel => first_wheel_pos + rel) rel_positions in
  let* terms_A := mapM (fun Px => py_div (fst Px * (L - snd Px)) L)
                       (combine wheel_loads abs_positions) in
  let R_A := py_sum terms_A in
  let* terms_B := mapM (fun Px => py_div (fst Px * snd Px) L)
                       (combine wheel_loads abs_positions) in
  let R_B := py_sum terms_B in
  let moments_at_wheels :=
    map (fun x_i => moment_at R_A x_i abs_positions wheel_loads) abs_positions in
  let x_mid := L / 2 in
  let M_mid := moment_at R_A x_mid abs_positions wheel_loads in
  let all_moments := moments_at_wheels ++ [M_mid] in
  let all_locations := abs_positions ++ [x_mid] in
  let max_idx := argmax all_moments in
  Ok (LoadCaseResult.mk
        first_wheel_pos
        abs_positions
        wheel_loads
        R_A
        R_B
        (nth max_idx all_moments 0)
        (nth max_idx all_locations 0)
        (py_max R_A R_B)
        moments_at_wheels).

(** [cranes[:n]]: a negative bound counts from the end. *)
Definition py_slice_to {X : Type} (l : list X) (n : Z) : list X :=
  if (0 <=? n)%Z then firstn (Z.to_nat n) l
  else firstn (Z.to_nat (Z.of_nat (List.length l) + n)) l.

(** The stepping loop [while current_pos <= end_pos + 0.001].  The loop need
    not terminate (a step of zero never advances), so the model is
    fuelled: [None] means the loop was still running when the fuel ran out. *)
Fixpoint sweep (fuel : nat) (L end_pos step_size : Q)
         (rel_positions wheel_loads : list Q)
         (current_pos : Q) (all_results : list LoadCaseResult.t)
  : option (exc (list LoadCaseResult.t)) :=
  match fuel with
  | O => None
  | S fuel' =>
      if Qle_bool current_pos (end_pos + 0.001) then
        match analyze_single_position L current_pos rel_positions wheel_loads with
        | Ok result =>
            sweep fuel' L end_pos step_size rel_positions wheel_loads
                  (current_pos + step_size) (all_results ++ [result])
        | Raise e => Some (Raise e)
        end
      else Some (Ok all_results)
  end.

(** The block "Extract critical values". *)
Definition extract_critical (all_results : list LoadCaseResult.t)
  : CriticalResults.t :=
  match all_results with
  | [] => CriticalResults.default
  | r0 :: _ =>
      let at_ i := nth i all_results r0 in
      let idx_M := argmax (map LoadCaseResult.M_max all_results) in
      let idx_RA := argmax (map LoadCaseResult.R_A all_results) in
      let idx_RB := argmax (map LoadCaseResult.R_B all_results) in
      let idx_RA_min := argmin (map LoadCaseResult.R_A all_results) in
      let idx_RB_min := argmin (map LoadCaseResult.R_B all_results) in
      let R_A_max := LoadCaseResult.R_A (at_ idx_RA) in
      let R_B_max := LoadCaseResult.R_B (at_ idx_RB) in
      CriticalResults.mk
        (LoadCaseResult.M_max (at_ idx_M))
        (LoadCaseResult.step_position (at_ idx_M))
        (LoadCaseResult.M_max_location (at_ idx_M))
        (LoadCaseResult.R_A (at_ idx_M))
        (LoadCaseResult.R_B (at_ idx_M))
        (LoadCaseResult.wheel_positions (at_ idx_M))
        R_A_max
        (LoadCaseResult.step_position (at_ idx_RA))
        (LoadCaseResult.wheel_positions (at_ idx_RA))
        (LoadCaseResult.M_max (at_ idx_RA))
        (LoadCaseResult.R_B (at_ idx_RA))
        R_B_max
        (LoadCaseResult.step_position (at_ idx_RB))
        (LoadCaseResult.wheel_positions (at_ idx_RB))
        (LoadCaseResult.M_max (at_ idx_RB))
        (LoadCaseResult.R_A (at_ idx_RB))
        (LoadCaseResult.R_A (at_ idx_RA_min))
        (LoadCaseResult.R_B (at_ idx_RB_min))
        (py_max R_A_max R_B_max)
        all_results
  end.

(** [start_pos] and the clamped [end_pos] of the travel range. *)
Definition travel_range (L : Q) (active_cranes : list CraneData)
           (group_length : Q) : Q * Q :=
  let buffer_left := buffer_left (hd default_crane active_cranes) in
  let buffer_right := buffer_right (last active_cranes default_crane) in
  let start_pos := buffer_left in
  let end_pos := L - buffer_right - group_length in
  let end_pos := if Qltb end_pos start_pos then start_pos else end_pos in
  (start_pos, end_pos).

(** [num_cranes_on_beam] is [None] or an int. *)
Definition run_moving_load_analysis (fuel : nat) (beam_span : Q)
           (cranes : list CraneData) (step_size : Q)
           (num_cranes_on_beam : option Z)
  : option (exc CriticalResults.t) :=
  let L := beam_span in
  let num_cranes_on_beam :=
    match num_cranes_on_beam with
    | None => Z.of_nat (List.length cranes)
    | Some n => n
    end in
  let active_cranes := py_slice_to cranes num_cranes_on_beam in
  match get_crane_group_geometry active_cranes with
  | Raise e => Some (Raise e)
  | Ok (rel_positions, wheel_loads, group_length) =>
      match rel_positions with
      | [] => Some (Ok CriticalResults.default)
      | _ :: _ =>
          let '(start_pos, end_pos) := travel_range L active_cranes group_length in
          match sweep fuel L end_pos step_size rel_positions wheel_loads
                      start_pos [] with
          | None => None
          | Some (Raise e) => Some (Raise e)
          | Some (Ok all_results) => Some (Ok (extract_critical all_results))
          end
      end
  end.

(* ================================================================== *)
(** * Strength / code-check engine *)
(* ================================================================== *)

(** [math.pi], read as the decimal it prints as. *)
Definition math_pi : Q := 3.141592653589793.

(** A limit-state label.  [LabelRpg s r] stands for the string
    [s + f" + Rpg={r:.3f}"]; the float formatting is not modelled. *)
Inductive limit_label : Type :=
| Label (s : string)
| LabelRpg (s : string) (Rpg : Q).

Definition label_add_Rpg (l : limit_label) (Rpg : Q) : limit_label :=
  match l with
  | Label s => LabelRpg s Rpg
  | LabelRpg s r => LabelRpg s r
  end.

(** The result dicts, one record per dict, keyed as in the source. *)
Module Cmp.
Record t : Type := mk {
  lambda_f : Q; lambda_pf : Q; lambda_rf : Q; flange_class : string;
  lambda_w : Q; lambda_pw : Q; lambda_rw : Q; web_class : string;
  compact : bool
}.
End Cmp.

Module Flex.
Record t : Type := mk {
  Mp : Q; My : Q; Lp : Q; Lr : Q; Lb : Q; Cb : Q;
  Mn : Q; Mn_allow : Q; limit_state : limit_label
}.
End Flex.

Module Shear.
Record t : Type := mk {
  Aw : Q; h_tw : Q; kv : Q; Cv1 : Q; Vn : Q; Vn_allow : Q;
  limit_state : string
}.
End Shear.

Module WLY.
Record t : Type := mk {
  k : Q; lb : Q; Rn : Q; Rn_allow : Q; R_applied : Q;
  ratio : Q; status : string
}.
End WLY.

Module WCR.
Record t : Type := mk {
  lb : Q; Rn : Q; Rn_allow : Q; R_applied : Q;
  ratio : Q; status : string
}.
End WCR.

Module Fatigue.
Record t : Type := mk {
  f_sr : Q; F_sr : Q; FTH : Q; Cf : Q; N_cycles : Z; category : string;
  ratio : Q; status : string
}.
End Fatigue.

(** ['OK' if ratio <= 1.0 else 'NG'] *)
Definition status_of (ratio : Q) : string :=
  if Qle_bool ratio 1.0 then "OK"%string else "NG"%string.

Section Checks.

Variable sqrt : Q -> Q.
Variable fpow : Q -> Q -> Q.

Definition check_compactness (sec : SteelSection) (Fy : Q) : exc Cmp.t :=
  let bf' := if Qltb 0 (bf_top sec) then py_max (bf_top sec) (bf_bot sec)
             else bf sec in
  let tf' := if Qltb 0 (tf_top sec) then py_min (tf_top sec) (tf_bot sec)
             else tf sec in
  let hw' := if Qltb 0 (hw sec) then hw sec else d sec - 2 * tf sec in
  let* lambda_f := (if Qltb 0 tf' then py_div bf' (2 * tf') else Ok 999) in
  let* q := py_div E_STEEL Fy in
  let* sq := math_sqrt sqrt q in
  let lambda_pf := 0.38 * sq in
  let* q := py_div E_STEEL Fy in
  let* sq := math_sqrt sqrt q in
  let lambda_rf := 1.0 * sq in
  let flange_class :=
    if Qle_bool lambda_f lambda_pf then "Compact"%string
    else if Qle_bool lambda_f lambda_rf then "Noncompact"%string
    else "Slender"%string in
  let* lambda_w := (if Qltb 0 (tw sec) then py_div hw' (tw sec) else Ok 999) in
  let* q := py_div E_STEEL Fy in
  let* sq := math_sqrt sqrt q in
  let lambda_pw := 3.76 * sq in
  let* q := py_div E_STEEL Fy in
  let* sq := math_sqrt sqrt q in
  let lambda_rw := 5.70 * sq in
  let web_class :=
    if Qle_bool lambda_w lambda_pw then "Compact"%string
    else if Qle_bool lambda_w lambda_rw then "Noncompact"%string
    else "Slender"%string in
  Ok (Cmp.mk lambda_f lambda_pf lambda_rf flange_class
             lambda_w lambda_pw lambda_rw web_class
             (String.eqb flange_class "Compact" && String.eqb web_class "Compact")).

Definition calc_Lp_Lr (sec : SteelSection) (Fy : Q) : exc (Q * Q) :=
  let* ry := (if Qltb 0 (ry sec) then Ok (ry sec)
              else if Qltb 0 (A sec)
                   then let* q := py_div (Iy sec) (A sec) in math_sqrt sqrt q
                   else Ok 1) in
  let* q := py_div E_STEEL Fy in
  let* sq := math_sqrt sqrt q in
  let Lp := 1.76 * ry * sq in
  let ho := if Qltb 0 (ho sec) then ho sec else d sec - tf sec in
  let rts := if Qltb 0 (rts sec) then rts sec else ry in
  let c := 1.0 in
  let* Lr :=
    (if Qltb 0 (Sx sec) && Qltb 0 ho then
       let* term1 := py_div (J sec * c) (Sx sec * ho) in
       let* term2 := math_sqrt sqrt (term1 ^ 2 + 6.76 * (0.7 * Fy / E_STEEL) ^ 2) in
       let* q := py_div E_STEEL (0.7 * Fy) in
       let* sq := math_sqrt sqrt (term1 + term2) in
       Ok (1.95 * rts * q * sq)
     else Ok (Lp * 3)) in
  Ok (Lp, Lr).

Definition calc_flexural_strength (sec : SteelSection) (Fy Lb : Q) (cmp : Cmp.t)
  : exc Flex.t :=
  let* LpLr := calc_Lp_Lr sec Fy in
  let Lp := fst LpLr in
  let Lr := snd LpLr in
  let Mp := if Qltb 0 (Zx sec) then Fy * Zx sec / 1e6
            else Fy * Sx sec * 1.12 / 1e6 in
  let My := Fy * Sx sec / 1e6 in
  let Cb := 1.0 in
  let* zone :=
    (if Qle_bool Lb Lp then
       Ok (Mp, Label "Yielding (Lb ≤ Lp)")
     else if Qle_bool Lb Lr then
       let* q := py_div ((Mp - 0.7 * My) * (Lb - Lp)) (Lr - Lp) in
       let Mn := Cb * (Mp - q) in
       let Mn := py_min Mn Mp in
       Ok (Mn, Label "Inelastic LTB")
     else
       let ho := if Qltb 0 (ho sec) then ho sec else d sec - tf sec in
       let rts := if Qltb 0 (rts sec) then rts sec else ry sec in
       let c := 1.0 in
       let* Fcr :=
         (if Qltb 0 (Sx sec) && Qltb 0 ho then
            let* term := py_div (J sec * c) (Sx sec * ho) in
            let* sl := py_div Lb rts in
            let* a := py_div (Cb * math_pi ^ 2 * E_STEEL) (sl ^ 2) in
            let* sl' := py_div Lb rts in
            let* b := math_sqrt sqrt (1 + 0.078 * term * sl' ^ 2) in
            Ok (a * b)
          else Ok (0.7 * Fy)) in
       let Mn := Fcr * Sx sec / 1e6 in
       let Mn := py_min Mn Mp in
       Ok (Mn, Label "Elastic LTB")) in
  let Mn := fst zone in
  let limit_state := snd zone in
  (* Flange local buckling *)
  let* flb :=
    (if String.eqb (Cmp.flange_class cmp) "Noncompact" then
       let* q := py_div ((Mp - 0.7 * My) * (Cmp.lambda_f cmp - Cmp.lambda_pf cmp))
                        (Cmp.lambda_rf cmp - Cmp.lambda_pf cmp) in
       let Mn_flb := Mp - q in
       if Qltb Mn_flb Mn then Ok (Mn_flb, Label "Flange Local Buckling")
       else Ok (Mn, limit_state)
     else Ok (Mn, limit_state)) in
  let Mn := fst flb in
  let limit_state := snd flb in
  (* Slender web - Rpg factor *)
  let* web :=
    (if String.eqb (Cmp.web_class cmp) "Slender" then
       let bf := if Qltb 0 (bf_top sec) then py_max (bf_top sec) (bf_bot sec)
                 else bf sec in
       let tf := if Qltb 0 (tf_top sec) then py_max (tf_top sec) (tf_bot sec)
                 else tf sec in
       let* aw := py_div (hw sec * tw sec) (bf * tf) in
       let* f := py_div aw (1200 + 300 * aw) in
       let* h_t := py_div (hw sec) (tw sec) in
       let* q := py_div E_STEEL Fy in
       let* sq := math_sqrt sqrt q in
       let Rpg := 1 - f * (h_t - 5.7 * sq) in
       let Rpg := py_min 1.0 (py_max Rpg 0.5) in
       Ok (Mn * Rpg, label_add_Rpg limit_state Rpg)
     else Ok (Mn, limit_state)) in
  let Mn := fst web in
  let limit_state := snd web in
  Ok (Flex.mk Mp My Lp Lr Lb Cb Mn (Mn / OMEGA_FLEX) limit_state).

Definition calc_shear_strength (sec : SteelSection) (Fy : Q) (has_stiff : bool)
           (stiff_spa : Q) (use_tfa : bool) : exc Shear.t :=
  let hw := if Qltb 0 (hw sec) then hw sec else d sec - 2 * tf sec in
  let Aw := hw * tw sec in
  let* h_tw := (if Qltb 0 (tw sec) then py_div hw (tw sec) else Ok 999) in
  let* kv :=
    (if has_stiff && Qltb 0 stiff_spa && Qltb 0 hw then
       let* a_h := py_div stiff_spa hw in
       if Qle_bool a_h 3
       then let* q := py_div 5 (a_h ^ 2) in Ok (5 + q)
       else Ok 5.34
     else Ok 5.34) in
  let* q := py_div (kv * E_STEEL) Fy in
  let* sq := math_sqrt sqrt q in
  let limit1 := 1.10 * sq in
  let* q := py_div (kv * E_STEEL) Fy in
  let* sq := math_sqrt sqrt q in
  let limit2 := 1.37 * sq in
  let* zone :=
    (if Qle_bool h_tw limit1 then
       Ok (1.0, "Shear Yielding"%string)
     else if Qle_bool h_tw limit2 then
       let* c := py_div limit1 h_tw in
       Ok (c, "Inelastic Buckling"%string)
     else
       let* c := py_div (1.51 * kv * E_STEEL) (h_tw ^ 2 * Fy) in
       Ok (c, "Elastic Buckling"%string)) in
  let Cv1 := fst zone in
  let limit_state := snd zone in
  let Vn := 0.6 * Fy * Aw * Cv1 / 1000 in
  let omega := OMEGA_SHEAR in
  let* tfa :=
    (if use_tfa && has_stiff && Qltb 0 stiff_spa && Qltb Cv1 1.0 then
       let* a_h := py_div stiff_spa hw in
       if Qle_bool 0.5 a_h && Qle_bool a_h 3 then
         let* Cv2 := (if Qltb limit1 h_tw then py_div limit1 h_tw else Ok 1.0) in
         let* sq := math_sqrt sqrt (1 + a_h ^ 2) in
         let* q := py_div (1 - Cv2) (1.15 * sq) in
         let Vn_tfa := 0.6 * Fy * Aw * (Cv2 + q) / 1000 in
         if Qltb Vn Vn_tfa
         then Ok (Vn_tfa, "Tension Field Action"%string, OMEGA_SHEAR_TFA)
         else Ok (Vn, limit_state, omega)
       else Ok (Vn, limit_state, omega)
     else Ok (Vn, limit_state, omega)) in
  let Vn := fst (fst tfa) in
  let limit_state := snd (fst tfa) in
  let omega := snd tfa in
  Ok (Shear.mk Aw h_tw kv Cv1 Vn (Vn / omega) limit_state).

(** No operation of [check_web_local_yielding] can raise: the only divisors
    are the literals [1000] and [OMEGA_WLY], and the ratio is guarded. *)
Definition check_web_local_yielding (sec : SteelSection) (Fy R lb : Q)
           (at_support : bool) : WLY.t :=
  let k := if Qltb 0 (r sec) then tf sec + r sec else tf sec * 1.5 in
  let Rn := if at_support
            then Fy * tw sec * (2.5 * k + lb) / 1000
            else Fy * tw sec * (5 * k + lb) / 1000 in
  let Rn_allow := Rn / OMEGA_WLY in
  let ratio := if Qltb 0 Rn_allow then R / Rn_allow else 999 in
  WLY.mk k lb Rn Rn_allow R ratio (status_of ratio).

(** [c0 * sec.tw**2 * (1 + coef * (sec.tw / tf)**1.5)
       * math.sqrt(E_STEEL * Fy * tf / sec.tw) / 1000],
    the tail shared by the three crippling formulas, in evaluation order.
    For a negative [sec.tw / tf] Python's power is a complex number; it
    survives the arithmetic and makes the later test [Rn_allow > 0] raise
    [TypeError], unless the square-root factor has raised first. *)
Definition crippling_formula (c0 coef : Q) (sec : SteelSection) (Fy tf : Q)
  : exc Q :=
  let* t := py_div (tw sec) tf in
  let* q := py_div (E_STEEL * Fy * tf) (tw sec) in
  let* sq := math_sqrt sqrt q in
  if Qltb t 0 then Raise TypeError
  else Ok (c0 * tw sec ^ 2 * (1 + coef * fpow t 1.5) * sq / 1000).

Definition check_web_crippling (sec : SteelSection) (Fy R lb : Q)
           (at_support : bool) : exc WCR.t :=
  let tf := if Qltb 0 (tf_top sec) then py_min (tf_top sec) (tf_bot sec)
            else tf sec in
  let* Rn :=
    (if at_support then
       let* lb_d := py_div lb (d sec) in
       if Qle_bool lb_d 0.2 then
         let* x := py_div lb (d sec) in
         crippling_formula 0.40 (3 * x) sec Fy tf
       else
         let* x := py_div (4 * lb) (d sec) in
         crippling_formula 0.40 (x - 0.2) sec Fy tf
     else
       let* x := py_div lb (d sec) in
       crippling_formula 0.80 (3 * x) sec Fy tf) in
  let Rn_allow := Rn / OMEGA_WCR in
  let ratio := if Qltb 0 Rn_allow then R / Rn_allow else 999 in
  Ok (WCR.mk lb Rn Rn_allow R ratio (status_of ratio)).

Definition check_fatigue (sec : SteelSection) (M_range : Q) (N_cycles : Z)
           (category : string) : exc Fatigue.t :=
  let cat := dict_get FATIGUE_CATEGORIES category FATIGUE_CATEGORIES_E in
  let Cf := Cf_of cat in
  let FTH := FTH_of cat in
  let f_sr := if Qltb 0 (Sx sec) then M_range * 1e6 / Sx sec else 0 in
  let* base := py_div Cf (inject_Z N_cycles) in
  (* a negative base gives a complex power, which [max] cannot order *)
  let* F_sr := (if Qltb base 0 then Raise TypeError
                else Ok (fpow base (1 # 3))) in
  let F_sr := py_max F_sr FTH in
  let ratio := if Qltb 0 F_sr then f_sr / F_sr else 999 in
  Ok (Fatigue.mk f_sr F_sr FTH Cf N_cycles category ratio (status_of ratio)).

End Checks.

(* ================================================================== *)
(** * Deflection *)
(* ================================================================== *)

(** The nested function [point_load_deflection]: deflection at [x] of a
    simply supported beam under a point load [P] at [a]. *)
Definition point_load_deflection (P a x L E I : Q) : exc Q :=
  let b := L - a in
  if Qle_bool x a then
    py_div (P * b * x * (L ^ 2 - b ^ 2 - x ^ 2)) (6 * E * I * L)
  else
    py_div (P * a * (L - x) * (2 * L * x - x ^ 2 - a ^ 2)) (6 * E * I * L).

(** The loop [for x in check_points] of [calc_deflection], with its
    accumulator [max_def]. *)
Fixpoint deflection_loop (check_points : list Q) (loads_N positions_mm : list Q)
         (L_mm E I : Q) (max_def : Q) : exc Q :=
  match check_points with
  | [] => Ok max_def
  | x :: rest =>
      if Qltb 0 x && Qltb x L_mm then
        let* terms := mapM (fun Pa => point_load_deflection (fst Pa) (snd Pa)
                                                            x L_mm E I)
                           (combine loads_N positions_mm) in
        let delta := py_sum terms in
        deflection_loop rest loads_N positions_mm L_mm E I
                        (py_max max_def (Qabs delta))
      else
        deflection_loop rest loads_N positions_mm L_mm E I max_def
  end.

Definition calc_deflection (wheel_loads wheel_positions : list Q) (L E I : Q)
  : exc Q :=
  let L_mm := L * 1000 in
  let positions_mm := map (fun p => p * 1000) wheel_positions in
  let loads_N := map (fun P => P * 1000) wheel_loads in
  let check_points := [L_mm / 2] ++ positions_mm in
  deflection_loop check_points loads_N positions_mm L_mm E I 0.

(* ================================================================== *)
(** * Fillet weld size limits *)
(* ================================================================== *)

(** [MIN_FILLET_WELD_SIZE]: thickness limit (mm) -> minimum leg size (mm),
    in the order the dict literal lists its items. *)
Definition MIN_FILLET_WELD_SIZE : list (Q * Q) :=
  [ (6.35, 3); (12.7, 5); (19.05, 6); (38.1, 8); (57.15, 10); (152.4, 13) ].

(** [sorted(d.items())]: the items in ascending key order (the keys of a
    dict are distinct, so the values never decide); insertion sort. *)
Fixpoint insert_item (kv : Q * Q) (l : list (Q * Q)) : list (Q * Q) :=
  match l with
  | [] => [kv]
  | kv' :: l' =>
      if Qle_bool (fst kv) (fst kv') then kv :: l
      else kv' :: insert_item kv l'
  end.

Definition sorted_items (d : list (Q * Q)) : list (Q * Q) :=
  fold_right insert_item [] d.

(** [for t_limit, w_min in items: if t_thick <= t_limit: return w_min] *)
Fixpoint first_limit (t_thick : Q) (items : list (Q * Q)) : option Q :=
  match items with
  | [] => None
  | (t_limit, w_min) :: rest =>
      if Qle_bool t_thick t_limit then Some w_min
      else first_limit t_thick rest
  end.

Definition get_min_fillet_weld_size (t_thick : Q) : Q :=
  match first_limit t_thick (sorted_items MIN_FILLET_WELD_SIZE) with
  | Some w_min => w_min
  | None => 13
  end.

Definition get_max_fillet_weld_size (t_edge : Q) : Q :=
  if Qltb t_edge 6.35 then t_edge else t_edge - 1.6.

(* ================================================================== *)
(** * Stiffener checks *)
(* ================================================================== *)

Definition OMEGA_COMP : Q := 1.67.
Definition OMEGA_BEARING : Q := 2.00.

Record StiffenerData : Type := mkStiffenerData {
  has_transverse : bool;
  trans_spacing : Q;
  trans_t : Q;
  trans_b : Q;
  has_bearing : bool;
  bearing_t : Q;
  bearing_b : Q;
  has_longitudinal : bool;
  long_t : Q;
  long_b : Q;
  long_position : Q;
  weld_size : Q
}.

(** [StiffenerData()] with the dataclass defaults. *)
Definition default_stiffeners : StiffenerData :=
  mkStiffenerData false 0 10 80 false 12 100 false 10 80 0.2 6.

(** What a check dict shows as ['demand'] or ['capacity']: the source
    formats a number into a string ([f"{x:.1f}"], with a unit or a
    comparison sign around it); the model keeps the number that is
    formatted, or the text when the entry is a fixed string. *)
Inductive shown : Type :=
| Num (q : Q)
| Text (s : string).

(** One entry of [results['checks']]. *)
Module Check.
Record t : Type := mk {
  name : string;
  demand : shown;
  capacity : shown;
  ok : bool
}.
End Check.

(** The result dict of a stiffener check.  [values] holds the two or three
    numbers the function stores under extra keys on its full path
    ([Ist_req], [Ist_prov]; [Pn], [Pa], [ratio]; [Icr], [Il_prov]); the
    early returns leave these keys out. *)
Module Stiff.
Record t : Type := mk {
  ok : bool;
  checks : list Check.t;
  required : bool;
  values : list (string * Q)
}.

(** [{'ok': True, 'checks': [], 'required': False}] *)
Definition initial : t := mk true [] false [].
End Stiff.

Section StiffenerChecks.

Variable sqrt : Q -> Q.
Variable fpow : Q -> Q -> Q.

Definition check_transverse_stiffener (sec : SteelSection) (Fy : Q)
           (stiff : StiffenerData) : exc Stiff.t :=
  if negb (has_transverse stiff) then Ok Stiff.initial
  else
    let a := trans_spacing stiff in
    let t_st := trans_t stiff in
    let b_st := trans_b stiff in
    let hw' := if Qltb 0 (hw sec) then hw sec else d sec - 2 * tf sec in
    if Qle_bool a 0 || Qle_bool hw' 0 then Ok Stiff.initial
    else
      let* a_h := py_div a hw' in
      (* (1) Width-to-thickness ratio *)
      let* q := py_div E_STEEL Fy in
      let* sq := math_sqrt sqrt q in
      let bt_limit := 0.56 * sq in
      let* bt_ratio := (if Qltb 0 t_st then py_div b_st t_st else Ok 999) in
      let bt_ok := Qle_bool bt_ratio bt_limit in
      let check1 := Check.mk "b/t Ratio" (Num bt_ratio) (Num bt_limit) bt_ok in
      (* (2) Minimum moment of inertia *)
      let* q := py_div 2.5 (a_h ^ 2) in
      let j := py_max (q - 2) 0.5 in
      let Ist_req := b_st * tw sec ^ 3 * j in
      let Ist_prov := (1 / 12) * t_st * b_st ^ 3
                      + t_st * b_st * (b_st / 2) ^ 2 in
      let I_ok := Qle_bool Ist_req Ist_prov in
      let check2 := Check.mk "Moment of Inertia" (Num (Ist_req / 1e4))
                             (Num (Ist_prov / 1e4)) I_ok in
      (* (3) Minimum width *)
      let b_min := hw' / 30 + tw sec in
      let b_ok := Qle_bool b_min b_st in
      let check3 := Check.mk "Min Width" (Num b_min) (Num b_st) b_ok in
      Ok (Stiff.mk (bt_ok && I_ok && b_ok) [check1; check2; check3] true
                   [("Ist_req"%string, Ist_req); ("Ist_prov"%string, Ist_prov)]).

Definition check_bearing_stiffener (sec : SteelSection) (Fy Pu : Q)
           (stiff : StiffenerData) (at_support : bool) : exc Stiff.t :=
  if negb (has_bearing stiff) then Ok Stiff.initial
  else
    let t_st := bearing_t stiff in
    let b_st := bearing_b stiff in
    let hw' := if Qltb 0 (hw sec) then hw sec else d sec - 2 * tf sec in
    (* (1) Width-to-thickness ratio *)
    let* q := py_div E_STEEL Fy in
    let* sq := math_sqrt sqrt q in
    let bt_limit := 0.56 * sq in
    let* bt_ratio := (if Qltb 0 t_st then py_div b_st t_st else Ok 999) in
    let bt_ok := Qle_bool bt_ratio bt_limit in
    let check1 := Check.mk "b/t Ratio" (Num bt_ratio) (Num bt_limit) bt_ok in
    (* (2) Column capacity check *)
    let web_eff := if at_support then 25 * tw sec else 24 * tw sec in
    let A_st := 2 * b_st * t_st in
    let A_web := web_eff * tw sec in
    let A_eff := A_st + A_web in
    let I_st := 2 * ((1 / 12) * t_st * b_st ^ 3
                     + t_st * b_st * (b_st / 2 + tw sec / 2) ^ 2) in
    let I_web := (1 / 12) * web_eff * tw sec ^ 3 in
    let I_eff := I_st + I_web in
    let* r' := (if Qltb 0 A_eff
                then let* q := py_div I_eff A_eff in math_sqrt sqrt q
                else Ok 1) in
    let K := 0.75 in
    let L_eff := K * hw' in
    let* KL_r := (if Qltb 0 r' then py_div L_eff r' else Ok 999) in
    let* Fe := (if Qltb 0 KL_r
                then py_div (math_pi ^ 2 * E_STEEL) (KL_r ^ 2)
                else Ok Fy) in
    let* q := py_div E_STEEL Fy in
    let* sq := math_sqrt sqrt q in
    let* Fcr := (if Qle_bool KL_r (4.71 * sq)
                 then let* e := py_div Fy Fe in Ok (Fy * fpow 0.658 e)
                 else Ok (0.877 * Fe)) in
    let Pn := Fcr * A_eff / 1000 in
    let Pa := Pn / OMEGA_COMP in
    let col_ok := Qle_bool Pu Pa in
    let check2 := Check.mk "Column Capacity" (Num Pu) (Num Pa) col_ok in
    (* (3) Bearing check *)
    let clip := 25 in
    let A_bearing := 2 * (b_st - clip) * t_st in
    let Pb := 1.8 * Fy * A_bearing / 1000 / OMEGA_BEARING in
    let bear_ok := Qle_bool Pu Pb in
    let check3 := Check.mk "Bearing" (Num Pu) (Num Pb) bear_ok in
    let ratio := if Qltb 0 Pa then Pu / Pa else 999 in
    Ok (Stiff.mk (bt_ok && col_ok && bear_ok) [check1; check2; check3] true
                 [("Pn"%string, Pn); ("Pa"%string, Pa); ("ratio"%string, ratio)]).

Definition check_longitudinal_stiffener (sec : SteelSection) (Fy : Q)
           (stiff : StiffenerData) : exc Stiff.t :=
  if negb (has_longitudinal stiff) then Ok Stiff.initial
  else
    let t_st := long_t stiff in
    let b_st := long_b stiff in
    let hw' := if Qltb 0 (hw sec) then hw sec else d sec - 2 * tf sec in
    (* (1) Width-to-thickness ratio *)
    let* q := py_div E_STEEL Fy in
    let* sq := math_sqrt sqrt q in
    let bt_limit := 0.56 * sq in
    let* bt_ratio := (if Qltb 0 t_st then py_div b_st t_st else Ok 999) in
    let bt_ok := Qle_bool bt_ratio bt_limit in
    let check1 := Check.mk "b/t Ratio" (Num bt_ratio) (Num bt_limit) bt_ok in
    (* (2) Minimum moment of inertia *)
    let Icr := hw' * tw sec ^ 3 * 2.4 in
    let Il_prov := (1 / 12) * t_st * b_st ^ 3 in
    let I_ok := Qle_bool (Icr * 0.5) Il_prov in
    let check2 := Check.mk "Moment of Inertia" (Num (Icr * 0.5 / 1e4))
                           (Num (Il_prov / 1e4)) I_ok in
    (* (3) Position check *)
    let pos_ok := Qle_bool 0.15 (long_position stiff)
                  && Qle_bool (long_position stiff) 0.35 in
    let check3 := Check.mk "Position" (Text "0.15-0.35 h")
                           (Num (long_position stiff)) pos_ok in
    Ok (Stiff.mk (bt_ok && I_ok && pos_ok) [check1; check2; check3] true
                 [("Icr"%string, Icr); ("Il_prov"%string, Il_prov)]).

End StiffenerChecks.

(* ================================================================== *)
(** * Weld design *)
(* ================================================================== *)

(** [WELD_ELECTRODES]: key, ['FEXX'] (MPa), ['desc']. *)
Record Electrode : Type := mkElectrode { FEXX_of : Q; desc_of : string }.

Definition WELD_ELECTRODES : list (string * Electrode) :=
  [ ("E60"%string,  mkElectrode 415 "E60XX - 60 ksi electrode");
    ("E70"%string,  mkElectrode 480 "E70XX - 70 ksi electrode (most common)");
    ("E80"%string,  mkElectrode 550 "E80XX - 80 ksi electrode");
    ("E90"%string,  mkElectrode 620 "E90XX - 90 ksi electrode");
    ("E100"%string, mkElectrode 690 "E100XX - 100 ksi electrode");
    ("E110"%string, mkElectrode 760 "E110XX - 110 ksi electrode") ].

(** [WELD_ELECTRODES['E70']]: the key is present. *)
Definition WELD_ELECTRODES_E70 : Electrode :=
  Eval cbv in
    match dict_lookup "E70"%string WELD_ELECTRODES with
    | Some v => v
    | None => mkElectrode 0 ""
    end.

(** The dataclass [WeldDesignData]. *)
Record WeldDesignData : Type := mkWeldDesignData {
  weld_type : string;
  electrode : string;
  weld_size_of : Q;
  weld_length : Q;
  num_welds : Z;
  is_continuous : bool;
  intermittent_length : Q;
  intermittent_spacing : Q
}.

(** [WeldDesignData()] with the dataclass defaults. *)
Definition default_weld_data : WeldDesignData :=
  mkWeldDesignData "fillet" "E70" 6.0 0.0 2 true 0.0 0.0.

(** The dict [calc_fillet_weld_strength] returns. *)
Module Fillet.
Record t : Type := mk {
  throat : Q; Fnw : Q; Fnw_dir : Q; dir_factor : Q;
  Rn_weld : Q; Rn_weld_dir : Q; Rn_base : Q;
  Rn : Q; Rn_dir : Q; Rn_allow : Q; Rn_allow_dir : Q;
  omega : Q; governs : string
}.
End Fillet.

(** The dict [calc_groove_weld_strength] returns; [omegas] holds the
    safety-factor keys, which differ between the two branches
    ([omega_tension], [omega_shear] for CJP; [omega] for PJP). *)
Module Groove.
Record t : Type := mk {
  throat : Q; Rn_tension : Q; Rn_shear : Q;
  Rn_allow_tension : Q; Rn_allow_shear : Q;
  omegas : list (string * Q); full_strength : bool
}.
End Groove.

(** One entry of the weld check list; [ratio] is the optional key
    ['ratio']. *)
Module WeldCheck.
Record t : Type := mk {
  name : string;
  demand : shown;
  capacity : shown;
  ratio : option Q;
  ok : bool;
  reference : string
}.
End WeldCheck.

(** The value stored under ['weld_strength']. *)
Inductive weld_strength : Type :=
| FilletStrength (f : Fillet.t)
| GrooveStrength (g : Groove.t).

(** The dict [check_weld_for_built_up_section] returns; [w_required] is
    set for fillet welds only. *)
Module Weld.
Record t : Type := mk {
  weld_type : string; electrode : string; weld_size : Q;
  checks : list WeldCheck.t; ok : bool; ratio : Q; status : string;
  FEXX : Q; Q_flange : Q; y_flange : Q; A_flange : Q;
  shear_flow : Q; q_per_weld : Q; w_min : Q; w_max : Q;
  throat : Q; Rn_allow : Q; strength : weld_strength;
  w_required : option Q
}.
End Weld.

(** [max(ratios) if ratios else (0 if all_ok else 999)]. *)
Definition max_ratio (ratios : list Q) (all_ok : bool) : Q :=
  match ratios with
  | [] => if all_ok then 0 else 999
  | r0 :: rest => fold_left py_max rest r0
  end.

(** [[check.get('ratio', 0) for check in checks if 'ratio' in check]]. *)
Fixpoint check_ratios (checks : list WeldCheck.t) : list Q :=
  match checks with
  | [] => []
  | c :: rest =>
      match WeldCheck.ratio c with
      | Some r0 => r0 :: check_ratios rest
      | None => check_ratios rest
      end
  end.

Section WeldChecks.

(** [math.sin] and the float power. *)
Variable sin : Q -> Q.
Variable fpow : Q -> Q -> Q.

(** [math.radians]. *)
Definition math_radians (x : Q) : Q := x * (math_pi / 180).

(** A negative sine makes [** 1.5] complex, and the later
    [min(Rn_weld_dir, Rn_base)] cannot order a complex number. *)
Definition calc_fillet_weld_strength (weld_size FEXX Fy_base t_base : Q)
           (weld_angle : Q) : exc Fillet.t :=
  let throat := 0.707 * weld_size in
  let Fnw := 0.60 * FEXX in
  let theta_rad := math_radians weld_angle in
  let s := sin theta_rad in
  let dir_factor := 1.0 + 0.50 * fpow s 1.5 in
  let Fnw_dir := 0.60 * FEXX * dir_factor in
  let Rn_weld := Fnw * throat in
  let Rn_weld_dir := Fnw_dir * throat in
  let Fu_base := Fy_base * 1.3 in
  let Rn_base := 0.60 * Fu_base * t_base in
  let Rn := py_min Rn_weld Rn_base in
  if Qltb s 0 then Raise TypeError
  else
    let Rn_dir := py_min Rn_weld_dir Rn_base in
    let omega := 2.00 in
    let Rn_allow := Rn / omega in
    let Rn_allow_dir := Rn_dir / omega in
    Ok (Fillet.mk throat Fnw Fnw_dir dir_factor Rn_weld Rn_weld_dir Rn_base
                  Rn Rn_dir Rn_allow Rn_allow_dir omega
                  (if Qle_bool Rn_weld Rn_base then "Weld"%string
                   else "Base Metal"%string)).

Definition calc_groove_weld_strength (weld_type : string)
           (FEXX Fy_base t_base throat : Q) : Groove.t :=
  if String.eqb weld_type "CJP" then
    let Rn_tension := Fy_base * t_base in
    let Rn_shear_weld := 0.60 * FEXX * t_base in
    let Rn_shear_base := 0.60 * Fy_base * t_base in
    let Rn_shear := py_min Rn_shear_weld Rn_shear_base in
    let omega_tension := 1.67 in
    let omega_shear := 1.50 in
    Groove.mk t_base Rn_tension Rn_shear
              (Rn_tension / omega_tension) (Rn_shear / omega_shear)
              [("omega_tension"%string, omega_tension);
               ("omega_shear"%string, omega_shear)]
              true
  else
    let effective_throat := if Qltb 0 throat then throat else t_base * 0.5 in
    let Fn_weld := 0.60 * FEXX in
    let Rn_tension_weld := Fn_weld * effective_throat in
    let Rn_tension_base := Fy_base * effective_throat in
    let Rn_tension := py_min Rn_tension_weld Rn_tension_base in
    let Rn_shear := 0.60 * FEXX * effective_throat in
    let omega := 2.00 in
    Groove.mk effective_throat Rn_tension Rn_shear
              (Rn_tension / omega) (Rn_shear / omega)
              [("omega"%string, omega)]
              false.

(** [M_design] is accepted and never read; so is the local [hw], whose
    computation cannot raise. *)
Definition check_weld_for_built_up_section (sec : SteelSection)
           (V_design M_design : Q) (weld_data : WeldDesignData) (Fy : Q)
  : exc Weld.t :=
  let FEXX :=
    FEXX_of (dict_get WELD_ELECTRODES (electrode weld_data)
                      WELD_ELECTRODES_E70) in
  (* Section properties *)
  let tf' := if Qltb 0 (tf_top sec) then tf_top sec else tf sec in
  let bf' := if Qltb 0 (bf_top sec) then bf_top sec else bf sec in
  let d' := d sec in
  let tw' := tw sec in
  (* First moment of area of flange *)
  let y_flange := (d' - tf') / 2 in
  let A_flange := bf' * tf' in
  let Q_flange := A_flange * y_flange in
  (* Shear flow *)
  let V_N := V_design * 1000 in
  let* q := py_div (V_N * Q_flange) (Ix sec) in
  let* q_per_weld := py_div q (inject_Z (num_welds weld_data)) in
  (* CHECK 1: Minimum Weld Size *)
  let t_thick := py_max tf' tw' in
  let w_min := get_min_fillet_weld_size t_thick in
  let check_min :=
    WeldCheck.mk "Minimum Weld Size (Table J2.4)"
                 (Num (weld_size_of weld_data)) (Num w_min) None
                 (Qle_bool w_min (weld_size_of weld_data))
                 "AISC 360-16 Table J2.4" in
  (* CHECK 2: Maximum Weld Size *)
  let w_max := get_max_fillet_weld_size (py_min tf' tw') in
  let check_max :=
    WeldCheck.mk "Maximum Weld Size (J2.2b)"
                 (Num (weld_size_of weld_data)) (Num w_max) None
                 (Qle_bool (weld_size_of weld_data) w_max)
                 "AISC 360-16 J2.2b" in
  (* CHECK 3: Weld Strength *)
  let* c3 :=
    (if String.eqb (weld_type weld_data) "fillet" then
       let* weld_str :=
         calc_fillet_weld_strength (weld_size_of weld_data) FEXX Fy tw' 0 in
       let Rn_allow := Fillet.Rn_allow weld_str in
       let ratio_strength :=
         if Qltb 0 Rn_allow then q_per_weld / Rn_allow else 999 in
       Ok (WeldCheck.mk "Weld Shear Strength (J2.4)"
                        (Num q_per_weld) (Num Rn_allow) (Some ratio_strength)
                        (Qle_bool ratio_strength 1.0)
                        "AISC 360-16 Eq. J2-4",
           Fillet.throat weld_str, Rn_allow, FilletStrength weld_str)
     else
       let throat := if String.eqb (weld_type weld_data) "PJP"
                     then weld_size_of weld_data else tw' in
       let weld_str :=
         calc_groove_weld_strength (weld_type weld_data) FEXX Fy tw' throat in
       let Rn_allow := Groove.Rn_allow_shear weld_str in
       let ratio_strength :=
         if Qltb 0 Rn_allow then q_per_weld / Rn_allow else 999 in
       Ok (WeldCheck.mk (weld_type weld_data ++ " Groove Weld Shear (J2.3)")
                        (Num q_per_weld) (Num Rn_allow) (Some ratio_strength)
                        (Qle_bool ratio_strength 1.0)
                        "AISC 360-16 Table J2.3",
           Groove.throat weld_str, Rn_allow, GrooveStrength weld_str)) in
  let check_strength := fst (fst (fst c3)) in
  let throat := snd (fst (fst c3)) in
  let Rn_allow := snd (fst c3) in
  let weld_str := snd c3 in
  let checks := [check_min; check_max; check_strength] in
  (* CHECK 4: Intermittent Weld Spacing *)
  let checks :=
    if negb (is_continuous weld_data)
       && Qltb 0 (intermittent_spacing weld_data) then
      let max_spacing := py_min (24 * tw') 305 in
      let check_spacing :=
        WeldCheck.mk "Intermittent Weld Spacing"
                     (Num (intermittent_spacing weld_data)) (Num max_spacing)
                     None
                     (Qle_bool (intermittent_spacing weld_data) max_spacing)
                     "AISC 360-16 J2.2b" in
      let min_length := py_max (4 * weld_size_of weld_data) 38 in
      let check_length :=
        WeldCheck.mk "Minimum Intermittent Weld Length"
                     (Num (intermittent_length weld_data)) (Num min_length)
                     None
                     (Qle_bool min_length (intermittent_length weld_data))
                     "AISC 360-16 J2.2b" in
      checks ++ [check_spacing] ++ [check_length]
    else checks in
  (* CHECK 5: Required Weld Size *)
  let* c5 :=
    (if String.eqb (weld_type weld_data) "fillet" then
       let omega := 2.00 in
       let* w_required := py_div (q_per_weld * omega) (0.6 * FEXX * 0.707) in
       let w_required := py_max w_required w_min in
       let check_required :=
         WeldCheck.mk "Required vs Provided Weld Size"
                      (Num w_required) (Num (weld_size_of weld_data)) None
                      (Qle_bool w_required (weld_size_of weld_data))
                      "Design calculation" in
       Ok (checks ++ [check_required], Some w_required)
     else Ok (checks, None)) in
  let checks := fst c5 in
  let w_required := snd c5 in
  (* Overall Status *)
  let all_ok := forallb WeldCheck.ok checks in
  let ratios := check_ratios checks in
  Ok (Weld.mk (weld_type weld_data) (electrode weld_data)
              (weld_size_of weld_data)
              checks all_ok (max_ratio ratios all_ok)
              (if all_ok then "✓ OK"%string else "✗ NG"%string)
              FEXX Q_flange y_flange A_flange q q_per_weld w_min w_max
              throat Rn_allow weld_str w_required).

End WeldChecks.

(* ================================================================== *)
(** * Rational stand-ins for [math.sqrt] and [**] in closed examples *)
(* ================================================================== *)

(** Square root to six decimals, rounded down. *)
Definition sqrt_approx (x : Q) : Q :=
  Z.sqrt (Qnum x * Zpos (Qden x) * 10 ^ 12) # (Qden x * 10 ^ 6).

(** Largest [r] with [r ^ k <= n], by bisection on [[lo, hi)]. *)
Fixpoint iroot_bisect (fuel : nat) (k : positive) (n lo hi : Z) : Z :=
  match fuel with
  | O => lo
  | S fuel' =>
      if (hi - lo <=? 1)%Z then lo
      else
        let mid := ((lo + hi) / 2)%Z in
        if (mid ^ Zpos k <=? n)%Z
        then iroot_bisect fuel' k n mid hi
        else iroot_bisect fuel' k n lo mid
  end.

Definition iroot (k : positive) (n : Z) : Z :=
  if (n <=? 0)%Z then 0%Z
  else iroot_bisect (S (S (Z.to_nat (Z.log2 n)))) k n 0 (n + 1).

(** [x ** (a/b)] for [x >= 0] and [a > 0], to six decimals; [1] for [a = 0]
    and the reciprocal for [a < 0]. *)
Definition fpow_approx (x y : Q) : Q :=
  let y := Qred y in
  let b := Qden y in
  let pos_pow (a : positive) : Q :=
    let N := (Qnum x ^ Zpos a)%Z in
    let D := (Qden x ^ a)%positive in
    iroot b (N * Zpos D ^ (Zpos b - 1) * (10 ^ 6) ^ Zpos b) # (D * 10 ^ 6) in
  match Qnum y with
  | Z0 => 1
  | Zpos a => pos_pow a
  | Zneg a => / pos_pow a
  end.

(** Sine near the origin, by its cubic Taylor polynomial. *)
Definition sin_approx (x : Q) : Q := x - x ^ 3 / 6.

(* ================================================================== *)
(** * Predicates used in the statements *)
(* ================================================================== *)

(** Positions listed in non-decreasing order. *)
Inductive nondecreasing : list Q -> Prop :=
| nondecreasing_nil : nondecreasing []
| nondecreasing_one : forall x, nondecreasing [x]
| nondecreasing_cons : forall x y l,
    x <= y -> nondecreasing (y :: l) -> nondecreasing (x :: y :: l).

(* ================================================================== *)
(** * Example inputs *)
(* ================================================================== *)

(** A crane entered by its wheel loads: 85 kN maximum, minimum left at 0. *)
Definition direct_crane : CraneData :=
  mkCraneData 1 10.0 5.0 0.72 15.0 1.0 2.2 0.29 0.29 2 0.25 0.20 0.10
              0.0 0.0 0.0 true 85 0 0.

(** The default crane with an 8 t bridge instead of 5 t. *)
Definition heavy_bridge_crane : CraneData :=
  mkCraneData 1 10.0 8.0 0.72 15.0 1.0 2.2 0.29 0.29 2 0.25 0.20 0.10
              0.0 0.0 0.0 false 0.0 0.0 0.0.

(** IPE 200 as the catalogue gives it. *)
Definition ipe200 : SteelSection :=
  mkSection "IPE 200" "hot_rolled" 200 100 8.5 5.6 12 0 0 0 0 0
            false "" 0 0 0 0 0
            2848 19.4e6 1.42e6 194e3 0 220e3 0 0 0 0 0 0 0 22.4.

(** IPE 200 with a UPN 80 cap channel. *)
Definition ipe200_cap : SteelSection :=
  mkSection "IPE 200" "hot_rolled" 200 100 8.5 5.6 12 0 0 0 0 0
            true "UPN 80" 1100 1.06e6 0.194e6 80 14.5
            2848 19.4e6 1.42e6 194e3 0 220e3 0 0 0 0 0 0 0 22.4.

(** IPE 200 with the web thickness zeroed. *)
Definition ipe200_no_web : SteelSection :=
  mkSection "IPE 200" "hot_rolled" 200 100 8.5 0 12 0 0 0 0 0
            false "" 0 0 0 0 0
            2848 19.4e6 1.42e6 194e3 0 220e3 0 0 0 0 0 0 0 22.4.

(** IPE 200 with the elastic and plastic section moduli zeroed. *)
Definition ipe200_no_modulus : SteelSection :=
  mkSection "IPE 200" "hot_rolled" 200 100 8.5 5.6 12 0 0 0 0 0
            false "" 0 0 0 0 0
            2848 19.4e6 1.42e6 0 0 0 0 0 0 0 0 0 0 22.4.

(** IPE 200 with only the plastic modulus left unset. *)
Definition ipe200_no_Zx : SteelSection :=
  mkSection "IPE 200" "hot_rolled" 200 100 8.5 5.6 12 0 0 0 0 0
            false "" 0 0 0 0 0
            2848 19.4e6 1.42e6 194e3 0 0 0 0 0 0 0 0 0 22.4.

(** A 700 x 10 plate girder with 250 x 16 flanges, as the input form
    builds it, and the same girder with a UPN 80 cap. *)
Definition plate_girder : SteelSection :=
  mkSection "PG 700x10" "built_up" 700 0 0 10 0 250 16 250 16 668
            false "" 0 0 0 0 0
            0 0 0 0 0 0 0 0 0 0 0 0 0 0.

Definition plate_girder_cap : SteelSection :=
  mkSection "PG 700x10" "built_up" 700 0 0 10 0 250 16 250 16 668
            true "UPN 80" 1100 1.06e6 0.194e6 80 14.5
            0 0 0 0 0 0 0 0 0 0 0 0 0 0.

(* ================================================================== *)
(** * Basic facts about the Python arithmetic *)
(* ================================================================== *)

Lemma Qltb_lt (x y : Q) : Qltb x y = true <-> x < y.
Proof.
  unfold Qltb. rewrite negb_true_iff, <- not_true_iff_false, Qle_bool_iff.
  split; [apply Qnot_le_lt | apply Qlt_not_le].
Qed.

Lemma Qltb_ge (x y : Q) : Qltb x y = false <-> y <= x.
Proof.
  unfold Qltb. rewrite negb_false_iff. apply Qle_bool_iff.
Qed.

Lemma Qeq_bool_false (x y : Q) : Qeq_bool x y = false <-> ~ x == y.
Proof.
  rewrite <- not_true_iff_false, Qeq_bool_iff. tauto.
Qed.

Lemma py_div_ok (x y : Q) : ~ y == 0 -> py_div x y = Ok (x / y).
Proof.
  intros H. unfold py_div. apply Qeq_bool_false in H. now rewrite H.
Qed.

Lemma py_div_zero (x y : Q) : y == 0 -> py_div x y = Raise ZeroDivisionError.
Proof.
  intros H. unfold py_div. apply Qeq_bool_iff in H. now rewrite H.
Qed.

Lemma py_div_inv (x y q : Q) : py_div x y = Ok q -> ~ y == 0 /\ q = x / y.
Proof.
  unfold py_div. destruct (Qeq_bool y 0) eqn:E; [discriminate|].
  intros [= <-]. split; [now apply Qeq_bool_false | reflexivity].
Qed.

Lemma inject_Z_nonzero (n : Z) : n <> 0%Z -> ~ inject_Z n == 0.
Proof.
  intros H E. apply H. unfold Qeq, inject_Z in E. simpl in E. lia.
Qed.

(* ================================================================== *)
(** * Crane geometry model: wheel loads *)
(* ================================================================== *)

(** The statics branch of [calc_wheel_loads], in closed form. *)
Lemma calc_wheel_loads_statics (c : CraneData) :
  use_direct_input c = false ->
  ~ bridge_span c == 0 ->
  num_wheels c <> 0%Z ->
  calc_wheel_loads c =
    Ok ((bridge_weight c * GRAVITY / 2.0
         + (capacity_tonnes c * GRAVITY + trolley_weight c * GRAVITY)
           * (bridge_span c - min_hook_approach c) / bridge_span c)
        / inject_Z (num_wheels c),
        (bridge_weight c * GRAVITY / 2.0
         + (capacity_tonnes c * GRAVITY + trolley_weight c * GRAVITY)
           * min_hook_approach c / bridge_span c)
        / inject_Z (num_wheels c)).
Proof.
  intros Hd HL Hn. unfold calc_wheel_loads. rewrite Hd. cbn [andb].
  cbv zeta. rewrite !(py_div_ok _ (bridge_span c)) by assumption. cbn [bind].
  rewrite !(py_div_ok _ (inject_Z (num_wheels c)))
    by now apply inject_Z_nonzero.
  reflexivity.
Qed.

(** C6.  With [use_direct_input] set and a positive direct maximum wheel
    load, [calc_wheel_loads] returns the supplied maximum verbatim, and as
    minimum the supplied minimum verbatim, except that a zero (unspecified)
    minimum is replaced by 20% of the supplied maximum. *)
Theorem calc_wheel_loads_direct (c : CraneData) :
  use_direct_input c = true ->
  0 < direct_max_wheel_load c ->
  exists min_wl,
    calc_wheel_loads c = Ok (direct_max_wheel_load c, min_wl)
    /\ (direct_min_wheel_load c == 0 -> min_wl = direct_max_wheel_load c * 0.2)
    /\ (~ direct_min_wheel_load c == 0 -> min_wl = direct_min_wheel_load c).
Proof.
  intros Hd Hmax. unfold calc_wheel_loads.
  apply Qltb_lt in Hmax. rewrite Hd, Hmax. cbn [andb].
  eexists. split; [reflexivity|]. unfold py_or.
  destruct (Qeq_bool (direct_min_wheel_load c) 0) eqn:E.
  - apply Qeq_bool_iff in E. split; [reflexivity | tauto].
  - apply Qeq_bool_false in E. split; [tauto | reflexivity].
Qed.

Lemma calc_wheel_loads_direct_witness :
  use_direct_input direct_crane = true
  /\ 0 < direct_max_wheel_load direct_crane
  /\ exists min_wl,
       calc_wheel_loads direct_crane = Ok (85, min_wl)
       /\ (direct_min_wheel_load direct_crane == 0 -> min_wl = 85 * 0.2)
       /\ (~ direct_min_wheel_load direct_crane == 0 ->
           min_wl = direct_min_wheel_load direct_crane).
Proof.
  split; [reflexivity|]. split; [reflexivity|].
  apply (calc_wheel_loads_direct direct_crane); reflexivity.
Defined.

(** C9.  Without direct-override input, the per-wheel loads returned by
    [calc_wheel_loads] satisfy
    [num_wheels * (max + min) = g * (bridge_weight + trolley_weight
    + capacity_tonnes)], whatever the minimum hook approach and the bridge
    span; the function returns whenever the bridge span and the wheel count
    are nonzero. *)
Theorem calc_wheel_loads_conservation (c : CraneData) :
  use_direct_input c = false ->
  ~ bridge_span c == 0 ->
  num_wheels c <> 0%Z ->
  exists max_wl min_wl,
    calc_wheel_loads c = Ok (max_wl, min_wl)
    /\ inject_Z (num_wheels c) * (max_wl + min_wl)
       == GRAVITY * (bridge_weight c + trolley_weight c + capacity_tonnes c).
Proof.
  intros Hd HL Hn.
  do 2 eexists. split; [now apply calc_wheel_loads_statics|].
  pose proof (inject_Z_nonzero _ Hn) as Hn'.
  field. split; assumption.
Qed.

Lemma calc_wheel_loads_conservation_witness :
  use_direct_input default_crane = false
  /\ ~ bridge_span default_crane == 0
  /\ num_wheels default_crane <> 0%Z
  /\ exists max_wl min_wl,
       calc_wheel_loads default_crane = Ok (max_wl, min_wl)
       /\ inject_Z 2 * (max_wl + min_wl) == GRAVITY * (5.0 + 0.72 + 10.0).
Proof.
  split; [reflexivity|]. split; [discriminate|]. split; [discriminate|].
  apply (calc_wheel_loads_conservation default_crane);
    [reflexivity | discriminate | discriminate].
Defined.

(** C4 (as amended).  Without direct-override input, the longitudinal force
    is [impact_l] times the sum of the maximum wheel loads of one rail, and
    that sum contains half the bridge self-weight next to the hoist + trolley
    load apportioned by the trolley position; the lateral load per wheel is
    derived from the hoist + trolley load only, with no contribution of the
    bridge self-weight. *)
Theorem longitudinal_and_lateral_force (c : CraneData) :
  use_direct_input c = false ->
  ~ bridge_span c == 0 ->
  num_wheels c <> 0%Z ->
  exists F H,
    get_longitudinal_force c = Ok F
    /\ F == impact_l c
            * (GRAVITY * bridge_weight c / 2
               + GRAVITY * (capacity_tonnes c + trolley_weight c)
                 * (bridge_span c - min_hook_approach c) / bridge_span c)
    /\ get_lateral_load_per_wheel c = Ok H
    /\ H == impact_h c * (GRAVITY * (capacity_tonnes c + trolley_weight c))
            / (2 * inject_Z (num_wheels c)).
Proof.
  intros Hd HL Hn.
  pose proof (inject_Z_nonzero _ Hn) as Hn'.
  unfold get_longitudinal_force, get_lateral_load_per_wheel.
  rewrite calc_wheel_loads_statics by assumption.
  rewrite Hd. cbn [bind fst andb]. cbv zeta.
  rewrite py_div_ok by (intros E; apply Hn'; lra).
  do 2 eexists. repeat split.
  - field. split; assumption.
  - field. assumption.
Qed.

Lemma longitudinal_and_lateral_force_witness :
  use_direct_input default_crane = false
  /\ ~ bridge_span default_crane == 0
  /\ num_wheels default_crane <> 0%Z
  /\ exists F H,
       get_longitudinal_force default_crane = Ok F
       /\ F == 0.10 * (GRAVITY * 5.0 / 2
                       + GRAVITY * (10.0 + 0.72) * (15.0 - 1.0) / 15.0)
       /\ get_lateral_load_per_wheel default_crane = Ok H
       /\ H == 0.20 * (GRAVITY * (10.0 + 0.72)) / (2 * inject_Z 2).
Proof.
  split; [reflexivity|]. split; [discriminate|]. split; [discriminate|].
  apply (longitudinal_and_lateral_force default_crane);
    [reflexivity | discriminate | discriminate].
Defined.

(** C4 as stated fails: two cranes that differ in the bridge self-weight
    only (5 t and 8 t; same hoist, trolley and longitudinal factor) have
    different longitudinal forces. *)
Lemma longitudinal_force_depends_on_bridge_weight :
  exists F5 F8,
    get_longitudinal_force default_crane = Ok F5
    /\ get_longitudinal_force heavy_bridge_crane = Ok F8
    /\ capacity_tonnes heavy_bridge_crane = capacity_tonnes default_crane
    /\ trolley_weight heavy_bridge_crane = trolley_weight default_crane
    /\ impact_l heavy_bridge_crane = impact_l default_crane
    /\ use_direct_input default_crane = false
    /\ use_direct_input heavy_bridge_crane = false
    /\ ~ F5 == F8.
Proof.
  do 2 eexists.
  split; [vm_compute; reflexivity|].
  split; [vm_compute; reflexivity|].
  repeat (split; [reflexivity|]).
  vm_compute. discriminate.
Qed.

(* ================================================================== *)
(** * Moving-load envelope engine: reactions *)
(* ================================================================== *)

Lemma mapM_py_div {X : Type} (f : X -> Q) (L : Q) (l : list X) :
  ~ L == 0 ->
  mapM (fun x => py_div (f x) L) l = Ok (map (fun x => f x / L) l).
Proof.
  intros HL. induction l as [|x l IH]; cbn [mapM map]; [reflexivity|].
  rewrite py_div_ok by assumption. cbn [bind]. rewrite IH. reflexivity.
Qed.

Lemma fold_left_Qplus_acc (l : list Q) (a : Q) :
  fold_left Qplus l a == a + py_sum l.
Proof.
  unfold py_sum. revert a.
  induction l as [|x l IH]; intros a; cbn [fold_left]; [ring|].
  rewrite (IH (a + x)), (IH (0 + x)). ring.
Qed.

Lemma py_sum_cons (x : Q) (l : list Q) : py_sum (x :: l) == x + py_sum l.
Proof.
  unfold py_sum at 1. cbn [fold_left]. rewrite fold_left_Qplus_acc. ring.
Qed.

(** Influence-line superposition: the two reactions carry the whole load. *)
Lemma reactions_sum (L : Q) (pairs : list (Q * Q)) :
  ~ L == 0 ->
  py_sum (map (fun Px => fst Px * (L - snd Px) / L) pairs)
  + py_sum (map (fun Px => fst Px * snd Px / L) pairs)
  == py_sum (map fst pairs).
Proof.
  intros HL. induction pairs as [|[P x] l IH]; cbn [map fst snd].
  - reflexivity.
  - rewrite !py_sum_cons, <- IH. field. assumption.
Qed.

(** What [analyze_single_position] returns for a nonzero span. *)
Lemma analyze_single_position_ok (L first_wheel_pos : Q)
      (rel_positions wheel_loads : list Q) :
  ~ L == 0 ->
  let abs_positions := map (fun rel => first_wheel_pos + rel) rel_positions in
  exists r,
    analyze_single_position L first_wheel_pos rel_positions wheel_loads = Ok r
    /\ LoadCaseResult.step_position r = first_wheel_pos
    /\ LoadCaseResult.wheel_positions r = abs_positions
    /\ LoadCaseResult.R_A r
       = py_sum (map (fun Px => fst Px * (L - snd Px) / L)
                     (combine wheel_loads abs_positions))
    /\ LoadCaseResult.R_B r
       = py_sum (map (fun Px => fst Px * snd Px / L)
                     (combine wheel_loads abs_positions)).
Proof.
  intros HL abs_positions. unfold analyze_single_position.
  fold abs_positions.
  rewrite (mapM_py_div (fun Px => fst Px * (L - snd Px)) L) by assumption.
  cbn [bind].
  rewrite (mapM_py_div (fun Px => fst Px * snd Px) L) by assumption.
  cbn [bind].
  eexists. split; [reflexivity|]. cbn. repeat split; reflexivity.
Qed.

(** C1.  For every span [L > 0], every position of the crane group and
    every wheel-load/position list, [analyze_single_position] returns the
    reactions [R_A = sum of P_i*(L - x_i)/L] and [R_B = sum of P_i*x_i/L]
    over the absolute wheel positions [x_i]; they add up to the total wheel
    load, so for a single point load [P] at any position [R_A + R_B] equals
    [P] (exactly, in rational arithmetic). *)
Theorem analyze_single_position_reactions (L first_wheel_pos : Q)
        (rel_positions wheel_loads : list Q) :
  0 < L ->
  let abs_positions := map (fun rel => first_wheel_pos + rel) rel_positions in
  exists r,
    analyze_single_position L first_wheel_pos rel_positions wheel_loads = Ok r
    /\ LoadCaseResult.R_A r
       = py_sum (map (fun Px => fst Px * (L - snd Px) / L)
                     (combine wheel_loads abs_positions))
    /\ LoadCaseResult.R_B r
       = py_sum (map (fun Px => fst Px * snd Px / L)
                     (combine wheel_loads abs_positions))
    /\ LoadCaseResult.R_A r + LoadCaseResult.R_B r
       == py_sum (map fst (combine wheel_loads abs_positions))
    /\ (forall P a, wheel_loads = [P] -> rel_positions = [a] ->
        LoadCaseResult.R_A r + LoadCaseResult.R_B r == P).
Proof.
  intros HL abs_positions.
  assert (HL0 : ~ L == 0) by (intros E; rewrite E in HL; discriminate).
  destruct (analyze_single_position_ok L first_wheel_pos rel_positions
              wheel_loads HL0) as (r & Hr & _ & _ & HA & HB).
  exists r. split; [exact Hr|]. split; [exact HA|]. split; [exact HB|].
  assert (Hsum : LoadCaseResult.R_A r + LoadCaseResult.R_B r
                 == py_sum (map fst (combine wheel_loads abs_positions))).
  { rewrite HA, HB. now apply reactions_sum. }
  split; [exact Hsum|].
  intros P a HP Ha. rewrite Hsum. unfold abs_positions.
  rewrite HP, Ha. cbn. unfold py_sum. cbn. ring.
Qed.

Lemma analyze_single_position_reactions_witness :
  0 < 12
  /\ exists r,
       analyze_single_position 12 3 [0] [50] = Ok r
       /\ LoadCaseResult.R_A r
          = py_sum (map (fun Px => fst Px * (12 - snd Px) / 12)
                        (combine [50] (map (fun rel => 3 + rel) [0])))
       /\ LoadCaseResult.R_B r
          = py_sum (map (fun Px => fst Px * snd Px / 12)
                        (combine [50] (map (fun rel => 3 + rel) [0])))
       /\ LoadCaseResult.R_A r + LoadCaseResult.R_B r
          == py_sum (map fst (combine [50] (map (fun rel => 3 + rel) [0])))
       /\ (forall P a, [50] = [P] -> [0] = [a] ->
           LoadCaseResult.R_A r + LoadCaseResult.R_B r == P).
Proof.
  split; [reflexivity|].
  apply (analyze_single_position_reactions 12 3 [0] [50]). reflexivity.
Defined.

(* ================================================================== *)
(** * Moving-load envelope engine: the sweep and its degenerate cases *)
(* ================================================================== *)

Lemma sweep_S (fuel : nat) (L end_pos step_size : Q) (rel loads : list Q)
      (cur : Q) (acc : list LoadCaseResult.t) :
  sweep (S fuel) L end_pos step_size rel loads cur acc
  = if Qle_bool cur (end_pos + 0.001) then
      match analyze_single_position L cur rel loads with
      | Ok result =>
          sweep fuel L end_pos step_size rel loads (cur + step_size)
                (acc ++ [result])
      | Raise e => Some (Raise e)
      end
    else Some (Ok acc).
Proof. reflexivity. Qed.

(** With a nonzero span and a positive step, [fuel + 1] iterations suffice
    as soon as [fuel] steps overshoot the inclusive bound; every analysed
    position lies between the starting position and the bound. *)
Lemma sweep_terminates (L end_pos step_size : Q) (rel loads : list Q) :
  ~ L == 0 -> 0 < step_size ->
  forall (fuel : nat) (cur : Q) (acc : list LoadCaseResult.t),
    end_pos + 0.001 - cur < inject_Z (Z.of_nat fuel) * step_size ->
    exists rs,
      sweep (S fuel) L end_pos step_size rel loads cur acc = Some (Ok (acc ++ rs))
      /\ Forall (fun c => cur <= LoadCaseResult.step_position c
                          /\ LoadCaseResult.step_position c <= end_pos + 0.001) rs
      /\ (cur <= end_pos + 0.001 -> rs <> []).
Proof.
  intros HL Hstep. induction fuel as [|fuel IH]; intros cur acc Hlt.
  - exists []. rewrite sweep_S.
    assert (Hc : Qle_bool cur (end_pos + 0.001) = false).
    { apply not_true_iff_false. rewrite Qle_bool_iff. change (inject_Z (Z.of_nat 0)) with 0 in Hlt. lra. }
    rewrite Hc, app_nil_r. repeat split; [constructor|].
    intros Hle. change (inject_Z (Z.of_nat 0)) with 0 in Hlt. lra.
  - rewrite sweep_S. destruct (Qle_bool cur (end_pos + 0.001)) eqn:Hc.
    + apply Qle_bool_iff in Hc.
      destruct (analyze_single_position_ok L cur rel loads HL)
        as (r & Hr & Hpos & _).
      rewrite Hr.
      destruct (IH (cur + step_size) (acc ++ [r])) as (rs & Hrs & Hall & _).
      { rewrite Nat2Z.inj_succ, <- Z.add_1_r, inject_Z_plus in Hlt.
        change (inject_Z 1) with 1 in Hlt. lra. }
      exists (r :: rs). rewrite Hrs, <- app_assoc. cbn [app].
      repeat split.
      * constructor; [rewrite Hpos; split; [apply Qle_refl | exact Hc]|].
        eapply Forall_impl; [|exact Hall]. cbv beta. intros c [H1 H2].
        split; [lra | exact H2].
      * discriminate.
    + exists []. rewrite app_nil_r. repeat split; [constructor|].
      intros Hle. apply Qle_bool_iff in Hle. congruence.
Qed.

Lemma sweep_fuel_exists (end_pos step_size cur : Q) :
  0 < step_size ->
  exists fuel0 : nat, forall fuel : nat, (fuel0 <= fuel)%nat ->
    end_pos + 0.001 - cur < inject_Z (Z.of_nat fuel) * step_size.
Proof.
  intros Hstep.
  set (x := (end_pos + 0.001 - cur) / step_size).
  exists (Z.to_nat (Qfloor x + 1)). intros fuel Hfuel.
  assert (Hx : x < inject_Z (Z.of_nat fuel)).
  { eapply Qlt_le_trans; [apply Qlt_floor|].
    rewrite <- Zle_Qle. lia. }
  assert (E : end_pos + 0.001 - cur == x * step_size).
  { unfold x. field. intros E. rewrite E in Hstep. discriminate. }
  rewrite E. apply Qmult_lt_compat_r; assumption.
Qed.

(** The stepping loop always terminates, without raising, for a nonzero
    span and a positive step. *)
Lemma sweep_total (L end_pos step_size : Q) (rel loads : list Q) (cur : Q) :
  ~ L == 0 -> 0 < step_size ->
  exists fuel0 : nat, forall fuel : nat, (fuel0 <= fuel)%nat ->
    exists rs,
      sweep fuel L end_pos step_size rel loads cur [] = Some (Ok rs)
      /\ Forall (fun c => cur <= LoadCaseResult.step_position c
                          /\ LoadCaseResult.step_position c <= end_pos + 0.001) rs
      /\ (cur <= end_pos + 0.001 -> rs <> []).
Proof.
  intros HL Hstep.
  destruct (sweep_fuel_exists end_pos step_size cur Hstep) as (f0 & Hf0).
  exists (S f0). intros fuel Hfuel.
  destruct fuel as [|fuel]; [lia|].
  destruct (sweep_terminates L end_pos step_size rel loads HL Hstep
              fuel cur []) as (rs & Hrs & Hall & Hne).
  { apply Hf0. lia. }
  exists rs. cbn [app] in Hrs. auto.
Qed.

(** Every case the sweep records balances: its two reactions add up to the
    load on the beam. *)
Lemma sweep_reactions_balance (L end_pos step_size : Q) (rel loads : list Q) :
  ~ L == 0 ->
  let balanced (c : LoadCaseResult.t) :=
    LoadCaseResult.R_A c + LoadCaseResult.R_B c
    == py_sum (map fst (combine loads (LoadCaseResult.wheel_positions c))) in
  forall (fuel : nat) (cur : Q) (acc rs : list LoadCaseResult.t),
    sweep fuel L end_pos step_size rel loads cur acc = Some (Ok rs) ->
    Forall balanced acc ->
    Forall balanced rs.
Proof.
  intros HL balanced. induction fuel as [|fuel IH]; intros cur acc rs Hs Hacc.
  - discriminate.
  - rewrite sweep_S in Hs.
    destruct (Qle_bool cur (end_pos + 0.001)).
    + destruct (analyze_single_position_ok L cur rel loads HL)
        as (c & Hc & _ & Hpos & HA & HB).
      rewrite Hc in Hs. apply (IH _ _ _ Hs).
      apply Forall_app. split; [exact Hacc|].
      constructor; [|constructor].
      unfold balanced. rewrite HA, HB, Hpos. now apply reactions_sum.
    + injection Hs as <-. exact Hacc.
Qed.

Lemma default_zero_valued : CriticalResults.zero_valued CriticalResults.default.
Proof.
  unfold CriticalResults.zero_valued, CriticalResults.default. cbn.
  repeat split; reflexivity.
Qed.

Lemma crane_group_loop_nil (pos : Q) (rel loads : list Q) :
  crane_group_loop [] pos rel loads = Ok (rel, loads).
Proof. reflexivity. Qed.

Lemma extract_critical_all_results (rs : list LoadCaseResult.t) :
  CriticalResults.all_results (extract_critical rs) = rs.
Proof. destruct rs; reflexivity. Qed.

(** C2 (as amended).  When the active-crane list is empty,
    [run_moving_load_analysis] returns, without raising and before any
    stepping, a [CriticalResults] whose numeric fields are all zero and
    whose case list is empty, for every span and step size.  When the
    travel range is infeasible (negative length), the end position is
    clamped to the start position and, for a nonzero span and a positive
    step size, the analysis still returns a result: the cases analysed all
    lie within the tolerance of the start position, and there is at least
    one. *)
Theorem run_moving_load_analysis_degenerate
        (L : Q) (cranes : list CraneData) (step_size : Q)
        (num_cranes_on_beam : option Z) :
  let active_cranes :=
    py_slice_to cranes
      (match num_cranes_on_beam with
       | None => Z.of_nat (List.length cranes)
       | Some n => n
       end) in
  (active_cranes = [] ->
   forall fuel,
   exists res,
     run_moving_load_analysis fuel L cranes step_size num_cranes_on_beam
     = Some (Ok res)
     /\ CriticalResults.zero_valued res
     /\ CriticalResults.all_results res = [])
  /\
  (forall rel_positions wheel_loads group_length,
     ~ L == 0 -> 0 < step_size ->
     get_crane_group_geometry active_cranes
     = Ok (rel_positions, wheel_loads, group_length) ->
     rel_positions <> [] ->
     let start_pos := buffer_left (hd default_crane active_cranes) in
     L - buffer_right (last active_cranes default_crane) - group_length
     < start_pos ->
     travel_range L active_cranes group_length = (start_pos, start_pos)
     /\ exists fuel0 : nat, forall fuel : nat, (fuel0 <= fuel)%nat ->
         exists res,
           run_moving_load_analysis fuel L cranes step_size num_cranes_on_beam
           = Some (Ok res)
           /\ CriticalResults.all_results res <> []
           /\ Forall (fun c => start_pos <= LoadCaseResult.step_position c
                               /\ LoadCaseResult.step_position c
                                  <= start_pos + 0.001)
                     (CriticalResults.all_results res)).
Proof.
  intros active_cranes. split.
  - intros Hnil fuel. exists CriticalResults.default.
    unfold run_moving_load_analysis. fold active_cranes. rewrite Hnil.
    cbn. split; [reflexivity|]. split; [apply default_zero_valued | reflexivity].
  - intros rel loads glen HL Hstep Hgeo Hne start_pos Hinf.
    assert (Htr : travel_range L active_cranes glen = (start_pos, start_pos)).
    { unfold travel_range. fold start_pos. cbv zeta.
      apply Qltb_lt in Hinf. rewrite Hinf. reflexivity. }
    split; [exact Htr|].
    destruct (sweep_total L start_pos step_size rel loads start_pos HL Hstep)
      as (fuel0 & Hfuel0).
    exists fuel0. intros fuel Hfuel.
    destruct (Hfuel0 fuel Hfuel) as (rs & Hrs & Hall & Hrne).
    exists (extract_critical rs).
    unfold run_moving_load_analysis. fold active_cranes. rewrite Hgeo.
    destruct rel as [|x rel]; [congruence|].
    rewrite Htr, Hrs. rewrite extract_critical_all_results.
    split; [reflexivity|]. split; [|exact Hall].
    apply Hrne. lra.
Qed.

Lemma run_moving_load_analysis_degenerate_witness :
  (* no active crane *)
  (py_slice_to [default_crane] 0 = []
   /\ exists res,
        run_moving_load_analysis 0 12 [default_crane] 0.5 (Some 0%Z)
        = Some (Ok res)
        /\ CriticalResults.zero_valued res
        /\ CriticalResults.all_results res = [])
  /\
  (* a 2 m span is shorter than the default crane and its buffers *)
  (exists rel_positions wheel_loads group_length,
     ~ 2 == 0 /\ 0 < 0.5
     /\ get_crane_group_geometry [default_crane]
        = Ok (rel_positions, wheel_loads, group_length)
     /\ rel_positions <> []
     /\ 2 - 0.29 - group_length < 0.29
     /\ travel_range 2 [default_crane] group_length = (0.29, 0.29)
     /\ exists fuel0 : nat, forall fuel : nat, (fuel0 <= fuel)%nat ->
         exists res,
           run_moving_load_analysis fuel 2 [default_crane] 0.5 None
           = Some (Ok res)
           /\ CriticalResults.all_results res <> []
           /\ Forall (fun c => 0.29 <= LoadCaseResult.step_position c
                               /\ LoadCaseResult.step_position c <= 0.29 + 0.001)
                     (CriticalResults.all_results res)).
Proof.
  split.
  - split; [reflexivity|].
    apply (proj1 (run_moving_load_analysis_degenerate
                    12 [default_crane] 0.5 (Some 0%Z))).
    reflexivity.
  - do 3 eexists.
    split; [discriminate|]. split; [reflexivity|].
    split; [vm_compute; reflexivity|].
    split; [discriminate|]. split; [reflexivity|].
    eapply (proj2 (run_moving_load_analysis_degenerate
                     2 [default_crane] 0.5 None)).
    + discriminate.
    + reflexivity.
    + vm_compute. reflexivity.
    + discriminate.
    + reflexivity.
Defined.

(* ================================================================== *)
(** * Check engine: fatigue categories *)
(* ================================================================== *)

Lemma FATIGUE_CATEGORIES_E_spec :
  dict_lookup "E" FATIGUE_CATEGORIES = Some FATIGUE_CATEGORIES_E
  /\ Cf_of FATIGUE_CATEGORIES_E = 11e8
  /\ FTH_of FATIGUE_CATEGORIES_E = 31.
Proof. repeat split; reflexivity. Qed.

(** Every threshold stress of the table is positive. *)
Lemma FTH_positive (category : string) :
  0 < FTH_of (dict_get FATIGUE_CATEGORIES category FATIGUE_CATEGORIES_E).
Proof.
  unfold dict_get, FATIGUE_CATEGORIES. cbn [dict_lookup].
  repeat (match goal with
          | |- context [String.eqb ?a ?b] => destruct (String.eqb a b)
          end; [reflexivity|]).
  reflexivity.
Qed.

Lemma Cf_positive (category : string) :
  0 < Cf_of (dict_get FATIGUE_CATEGORIES category FATIGUE_CATEGORIES_E).
Proof.
  unfold dict_get, FATIGUE_CATEGORIES. cbn [dict_lookup].
  repeat (match goal with
          | |- context [String.eqb ?a ?b] => destruct (String.eqb a b)
          end; [reflexivity|]).
  reflexivity.
Qed.

Lemma py_max_ge_r (a b : Q) : b <= py_max a b.
Proof.
  unfold py_max. destruct (Qltb a b) eqn:E.
  - apply Qle_refl.
  - now apply Qltb_ge in E.
Qed.

Lemma inject_Z_pos (n : Z) : (0 < n)%Z -> 0 < inject_Z n.
Proof. intros H. rewrite (Zlt_Qlt 0 n) in H. exact H. Qed.

(** [check_fatigue] returns for every positive cycle count. *)
Lemma check_fatigue_ok (fpow : Q -> Q -> Q) (sec : SteelSection) (M_range : Q)
      (N_cycles : Z) (category : string) :
  (0 < N_cycles)%Z ->
  let cat := dict_get FATIGUE_CATEGORIES category FATIGUE_CATEGORIES_E in
  let f_sr := if Qltb 0 (Sx sec) then M_range * 1e6 / Sx sec else 0 in
  let F_sr := py_max (fpow (Cf_of cat / inject_Z N_cycles) (1 # 3)) (FTH_of cat) in
  0 < F_sr
  /\ check_fatigue fpow sec M_range N_cycles category
     = Ok (Fatigue.mk f_sr F_sr (FTH_of cat) (Cf_of cat) N_cycles category
                      (f_sr / F_sr) (status_of (f_sr / F_sr))).
Proof.
  intros HN cat f_sr F_sr.
  assert (HF : 0 < F_sr).
  { eapply Qlt_le_trans; [apply (FTH_positive category) | apply py_max_ge_r]. }
  split; [exact HF|].
  pose proof (inject_Z_pos _ HN) as HN'.
  unfold check_fatigue. fold cat. cbv zeta.
  rewrite py_div_ok by (intros E; rewrite E in HN'; discriminate).
  cbn [bind].
  assert (Hb : Qltb (Cf_of cat / inject_Z N_cycles) 0 = false).
  { apply Qltb_ge. apply Qlt_le_weak. apply Qlt_shift_div_l; [exact HN'|].
    rewrite Qmult_0_l. apply Cf_positive. }
  rewrite Hb. cbn [bind]. fold F_sr f_sr.
  apply Qltb_lt in HF. rewrite HF. reflexivity.
Qed.

(** C10.  For a category string that is not a key of the fatigue table,
    [check_fatigue] does not raise on the lookup: it behaves exactly as for
    category ['E'] except that the returned ['category'] echoes the caller's
    string; in particular, for a positive cycle count it returns with
    [Cf = 11e8] and [FTH = 31] and the allowable range computed from them. *)
Theorem check_fatigue_unknown_category (fpow : Q -> Q -> Q)
        (sec : SteelSection) (M_range : Q) (N_cycles : Z) (category : string) :
  dict_lookup category FATIGUE_CATEGORIES = None ->
  check_fatigue fpow sec M_range N_cycles category
  = exc_map (fun e => Fatigue.mk (Fatigue.f_sr e) (Fatigue.F_sr e)
                                 (Fatigue.FTH e) (Fatigue.Cf e)
                                 (Fatigue.N_cycles e) category
                                 (Fatigue.ratio e) (Fatigue.status e))
            (check_fatigue fpow sec M_range N_cycles "E")
  /\ ((0 < N_cycles)%Z ->
      exists res,
        check_fatigue fpow sec M_range N_cycles category = Ok res
        /\ Fatigue.Cf res = 11e8
        /\ Fatigue.FTH res = 31
        /\ Fatigue.F_sr res = py_max (fpow (11e8 / inject_Z N_cycles) (1 # 3)) 31
        /\ Fatigue.category res = category).
Proof.
  intros Hnone.
  assert (Hcat : dict_get FATIGUE_CATEGORIES category FATIGUE_CATEGORIES_E
                 = FATIGUE_CATEGORIES_E).
  { unfold dict_get. now rewrite Hnone. }
  assert (HE : dict_get FATIGUE_CATEGORIES "E" FATIGUE_CATEGORIES_E
               = FATIGUE_CATEGORIES_E) by reflexivity.
  split.
  - unfold check_fatigue. rewrite Hcat, HE. cbv zeta.
    destruct (py_div (Cf_of FATIGUE_CATEGORIES_E) (inject_Z N_cycles))
      as [base|e]; [|reflexivity].
    cbn [bind]. destruct (Qltb base 0); reflexivity.
  - intros HN.
    destruct (check_fatigue_ok fpow sec M_range N_cycles category HN)
      as [_ Hres].
    rewrite Hcat in Hres. eexists. split; [exact Hres|].
    cbn. repeat split; reflexivity.
Qed.

Lemma check_fatigue_unknown_category_witness :
  dict_lookup "Z" FATIGUE_CATEGORIES = None
  /\ check_fatigue fpow_approx ipe200 50 2000000 "Z"
     = exc_map (fun e => Fatigue.mk (Fatigue.f_sr e) (Fatigue.F_sr e)
                                    (Fatigue.FTH e) (Fatigue.Cf e)
                                    (Fatigue.N_cycles e) "Z"
                                    (Fatigue.ratio e) (Fatigue.status e))
               (check_fatigue fpow_approx ipe200 50 2000000 "E")
  /\ (0 < 2000000)%Z
  /\ exists res,
       check_fatigue fpow_approx ipe200 50 2000000 "Z" = Ok res
       /\ Fatigue.Cf res = 11e8
       /\ Fatigue.FTH res = 31
       /\ Fatigue.F_sr res
          = py_max (fpow_approx (11e8 / inject_Z 2000000) (1 # 3)) 31
       /\ Fatigue.category res = "Z"%string.
Proof.
  split; [reflexivity|].
  pose proof (check_fatigue_unknown_category fpow_approx ipe200 50 2000000 "Z"
                eq_refl) as [H1 H2].
  split; [exact H1|]. split; [reflexivity|].
  apply H2. reflexivity.
Defined.

(* ================================================================== *)
(** * Check engine: web crippling *)
(* ================================================================== *)

(** C7.  In an end-bearing ([at_support]) web-crippling check, the
    nominal strength is computed by the first formula, with coefficient
    [3 * (lb / d)], whenever [lb / d <= 0.2] -- in particular when [lb / d]
    equals [0.2] exactly -- and by the second formula, with coefficient
    [4 * lb / d - 0.2], only when [lb / d > 0.2]: the boundary is the
    non-strict comparison. *)
Theorem check_web_crippling_boundary (sqrt : Q -> Q) (fpow : Q -> Q -> Q)
        (sec : SteelSection) (Fy R lb : Q) :
  ~ d sec == 0 ->
  let tf' := if Qltb 0 (tf_top sec) then py_min (tf_top sec) (tf_bot sec)
             else tf sec in
  let first := crippling_formula sqrt fpow 0.40 (3 * (lb / d sec)) sec Fy tf' in
  let second :=
    crippling_formula sqrt fpow 0.40 (4 * lb / d sec - 0.2) sec Fy tf' in
  (lb / d sec == 0.2 ->
   exc_map WCR.Rn (check_web_crippling sqrt fpow sec Fy R lb true) = first)
  /\ (lb / d sec <= 0.2 ->
      exc_map WCR.Rn (check_web_crippling sqrt fpow sec Fy R lb true) = first)
  /\ (0.2 < lb / d sec ->
      exc_map WCR.Rn (check_web_crippling sqrt fpow sec Fy R lb true) = second)
  /\ (lb / d sec == 0.2 -> 0 < tw sec -> 0 < tf' -> 0 <= Fy ->
      exists res,
        check_web_crippling sqrt fpow sec Fy R lb true = Ok res
        /\ WCR.Rn res
           = 0.40 * tw sec ^ 2
             * (1 + 3 * (lb / d sec) * fpow (tw sec / tf') 1.5)
             * sqrt (E_STEEL * Fy * tf' / tw sec) / 1000).
Proof.
  intros Hd tf' first second.
  assert (Hle : lb / d sec <= 0.2 ->
                exc_map WCR.Rn (check_web_crippling sqrt fpow sec Fy R lb true)
                = first).
  { intros H. unfold check_web_crippling. fold tf'.
    rewrite !py_div_ok by assumption. cbn [bind].
    apply Qle_bool_iff in H. rewrite H.
    fold first. destruct first; reflexivity. }
  assert (Heq : lb / d sec == 0.2 ->
                exc_map WCR.Rn (check_web_crippling sqrt fpow sec Fy R lb true)
                = first).
  { intros H. apply Hle. rewrite H. apply Qle_refl. }
  split; [exact Heq|]. split; [exact Hle|]. split.
  - intros H. unfold check_web_crippling. fold tf'.
    rewrite !py_div_ok by assumption. cbn [bind].
    assert (Hb : Qle_bool (lb / d sec) 0.2 = false).
    { apply not_true_iff_false. rewrite Qle_bool_iff. now apply Qlt_not_le. }
    rewrite Hb. fold second. destruct second; reflexivity.
  - intros H Htw Htf HFy. specialize (Heq H).
    assert (Hfirst : first
                     = Ok (0.40 * tw sec ^ 2
                           * (1 + 3 * (lb / d sec) * fpow (tw sec / tf') 1.5)
                           * sqrt (E_STEEL * Fy * tf' / tw sec) / 1000)).
    { unfold first, crippling_formula.
      rewrite py_div_ok by lra.
      cbn [bind].
      rewrite py_div_ok by lra.
      cbn [bind]. unfold math_sqrt.
      assert (Hq : Qltb (E_STEEL * Fy * tf' / tw sec) 0 = false).
      { apply Qltb_ge. apply Qle_shift_div_l; [exact Htw|].
        rewrite Qmult_0_l. unfold E_STEEL.
        apply Qmult_le_0_compat; [|now apply Qlt_le_weak].
        apply Qmult_le_0_compat; [discriminate | exact HFy]. }
      rewrite Hq. cbn [bind].
      assert (Ht : Qltb (tw sec / tf') 0 = false).
      { apply Qltb_ge. apply Qle_shift_div_l; [exact Htf|].
        rewrite Qmult_0_l. now apply Qlt_le_weak. }
      rewrite Ht. reflexivity. }
    rewrite Hfirst in Heq.
    destruct (check_web_crippling sqrt fpow sec Fy R lb true) as [res|e];
      [|discriminate].
    exists res. split; [reflexivity|]. cbn [exc_map] in Heq.
    injection Heq as Heq. exact Heq.
Qed.

Lemma check_web_crippling_boundary_witness :
  ~ d ipe200 == 0
  /\ 40 / d ipe200 == 0.2
  /\ 40 / d ipe200 <= 0.2
  /\ 0 < tw ipe200 /\ 0 < tf ipe200 /\ 0 <= 250
  /\ exc_map WCR.Rn
       (check_web_crippling sqrt_approx fpow_approx ipe200 250 100 40 true)
     = crippling_formula sqrt_approx fpow_approx 0.40 (3 * (40 / d ipe200))
                         ipe200 250 (tf ipe200)
  /\ exists res,
       check_web_crippling sqrt_approx fpow_approx ipe200 250 100 40 true
       = Ok res
       /\ WCR.Rn res
          = 0.40 * tw ipe200 ^ 2
            * (1 + 3 * (40 / d ipe200)
                   * fpow_approx (tw ipe200 / tf ipe200) 1.5)
            * sqrt_approx (E_STEEL * 250 * tf ipe200 / tw ipe200) / 1000.
Proof.
  assert (Hd : ~ d ipe200 == 0) by discriminate.
  pose proof (check_web_crippling_boundary sqrt_approx fpow_approx
                ipe200 250 100 40 Hd) as (H1 & H2 & _ & H4).
  split; [exact Hd|]. split; [reflexivity|]. split; [discriminate|].
  split; [reflexivity|]. split; [reflexivity|]. split; [discriminate|].
  split.
  - apply H1. reflexivity.
  - apply H4; [reflexivity | reflexivity | reflexivity | discriminate].
Defined.

(* ================================================================== *)
(** * Check engine: behaviour on zero or negative thickness and modulus *)
(* ================================================================== *)

Lemma Qsquare_eq (a : Q) : a ^ 2 = a * a.
Proof. reflexivity. Qed.

Lemma Qsquare_pos (a : Q) : 0 < a -> 0 < a ^ 2.
Proof.
  intros H. rewrite Qsquare_eq. rewrite <- (Qmult_0_l a).
  apply Qmult_lt_compat_r; assumption.
Qed.

Lemma Qsquare_nonneg (a : Q) : 0 <= a ^ 2.
Proof.
  rewrite Qsquare_eq.
  destruct (Qlt_le_dec a 0) as [H|H].
  - setoid_replace (a * a) with ((- a) * (- a)) by ring.
    apply Qmult_le_0_compat; lra.
  - now apply Qmult_le_0_compat.
Qed.

Lemma math_sqrt_ok (sqrt : Q -> Q) (x : Q) :
  0 <= x -> math_sqrt sqrt x = Ok (sqrt x).
Proof.
  intros H. unfold math_sqrt. apply Qltb_ge in H. now rewrite H.
Qed.

Lemma Qdiv_pos (a b : Q) : 0 < a -> 0 < b -> 0 < a / b.
Proof.
  intros Ha Hb. apply Qlt_shift_div_l; [exact Hb|]. now rewrite Qmult_0_l.
Qed.

(** [check_web_local_yielding]: the guarded ratio. *)
Lemma check_web_local_yielding_sentinel (sec : SteelSection) (Fy R lb : Q)
      (at_support : bool) :
  let res := check_web_local_yielding sec Fy R lb at_support in
  (WLY.Rn_allow res <= 0 -> WLY.ratio res = 999 /\ WLY.status res = "NG"%string)
  /\ (tw sec == 0 -> WLY.Rn_allow res == 0).
Proof.
  unfold check_web_local_yielding. cbv zeta. cbn [WLY.Rn_allow WLY.ratio WLY.status].
  split.
  - intros H. apply Qltb_ge in H. rewrite H. split; reflexivity.
  - intros H. destruct at_support; rewrite H; unfold OMEGA_WLY; field.
Qed.

(** [calc_shear_strength] with a non-positive web thickness: the guarded
    slenderness takes the sentinel value and nothing raises. *)
Lemma calc_shear_strength_sentinel (sqrt : Q -> Q) (sec : SteelSection)
      (Fy : Q) (has_stiff : bool) (stiff_spa : Q) (use_tfa : bool) :
  let hw' := if Qltb 0 (hw sec) then hw sec else d sec - 2 * tf sec in
  tw sec <= 0 ->
  0 < Fy ->
  (use_tfa = false
   \/ (~ hw' == 0 /\ forall x, 0 < x -> ~ sqrt x == 0)) ->
  exists res,
    calc_shear_strength sqrt sec Fy has_stiff stiff_spa use_tfa = Ok res
    /\ Shear.h_tw res = 999
    /\ Shear.Aw res = hw' * tw sec.
Proof.
  intros hw' Htw HFy Htfa.
  unfold calc_shear_strength. fold hw'. cbv zeta.
  apply Qltb_ge in Htw. rewrite Htw. cbn [bind].
  (* the buckling coefficient *)
  match goal with
  | |- context [bind ?m _] =>
      assert (Hkv : exists kv, m = Ok kv /\ 0 < kv)
  end.
  { destruct (has_stiff && Qltb 0 stiff_spa && Qltb 0 hw') eqn:C;
      [|exists 5.34; split; reflexivity].
    apply andb_true_iff in C. destruct C as [C Hhw].
    apply andb_true_iff in C. destruct C as [_ Hspa].
    apply Qltb_lt in Hhw. apply Qltb_lt in Hspa.
    rewrite py_div_ok by lra. cbn [bind].
    pose proof (Qsquare_pos _ (Qdiv_pos _ _ Hspa Hhw)) as Hsq.
    destruct (Qle_bool (stiff_spa / hw') 3);
      [|exists 5.34; split; reflexivity].
    rewrite py_div_ok by lra. cbn [bind].
    eexists. split; [reflexivity|].
    pose proof (Qdiv_pos 5 _ eq_refl Hsq). lra. }
  destruct Hkv as (kv & -> & Hkv). cbn [bind].
  assert (Hq : 0 < kv * E_STEEL / Fy).
  { apply Qdiv_pos; [|exact HFy]. unfold E_STEEL.
    apply Qmult_lt_0_compat; [exact Hkv | reflexivity]. }
  rewrite !py_div_ok by lra. cbn [bind].
  rewrite !math_sqrt_ok by lra. cbn [bind].
  set (limit1 := 1.10 * sqrt (kv * E_STEEL / Fy)).
  set (limit2 := 1.37 * sqrt (kv * E_STEEL / Fy)).
  (* the slenderness zone *)
  match goal with
  | |- context [bind ?m _] => assert (Hzone : exists z, m = Ok z)
  end.
  { destruct (Qle_bool 999 limit1); [eexists; reflexivity|].
    destruct (Qle_bool 999 limit2).
    - cbn [bind]. eexists. reflexivity.
    - cbn [bind]. eexists. reflexivity. }
  destruct Hzone as (z & ->). cbn [bind].
  (* tension field action *)
  match goal with
  | |- context [bind ?m _] => assert (Ht : exists t, m = Ok t)
  end.
  { destruct (use_tfa && has_stiff && Qltb 0 stiff_spa && Qltb (fst z) 1.0)
      eqn:C; [|eexists; reflexivity].
    destruct Htfa as [Hoff | [Hhw Hsqrt]].
    { rewrite Hoff in C. discriminate. }
    rewrite py_div_ok by exact Hhw. cbn [bind].
    destruct (Qle_bool 0.5 (stiff_spa / hw') && Qle_bool (stiff_spa / hw') 3);
      [|eexists; reflexivity].
    assert (HCv2 : exists c, (if Qltb limit1 999 then py_div limit1 999
                              else Ok 1.0) = Ok c).
    { destruct (Qltb limit1 999); [|eexists; reflexivity].
      rewrite py_div_ok by discriminate. eexists. reflexivity. }
    destruct HCv2 as (c & ->). cbn [bind].
    pose proof (Qsquare_nonneg (stiff_spa / hw')) as Hsq.
    rewrite math_sqrt_ok by lra. cbn [bind].
    rewrite py_div_ok.
    - cbn [bind]. match goal with
                  | |- context [if ?b then _ else _] => destruct b
                  end; eexists; reflexivity.
    - intros E. apply (Hsqrt (1 + (stiff_spa / hw') ^ 2)); lra. }
  destruct Ht as (t & ->). cbn [bind].
  eexists. split; [reflexivity|]. split; reflexivity.
Qed.

(** [check_fatigue] with a non-positive section modulus: the stress range
    is taken as zero, so the check passes. *)
Lemma check_fatigue_zero_modulus (fpow : Q -> Q -> Q) (sec : SteelSection)
      (M_range : Q) (N_cycles : Z) (category : string) :
  Sx sec <= 0 ->
  (0 < N_cycles)%Z ->
  exists res,
    check_fatigue fpow sec M_range N_cycles category = Ok res
    /\ Fatigue.f_sr res = 0
    /\ Fatigue.ratio res == 0
    /\ Fatigue.status res = "OK"%string.
Proof.
  intros HS HN.
  destruct (check_fatigue_ok fpow sec M_range N_cycles category HN)
    as [HF Hres].
  apply Qltb_ge in HS. rewrite HS in Hres.
  eexists. split; [exact Hres|].
  cbn [Fatigue.f_sr Fatigue.ratio Fatigue.status].
  split; [reflexivity|].
  assert (H0 : 0 / py_max
                     (fpow (Cf_of (dict_get FATIGUE_CATEGORIES category
                                            FATIGUE_CATEGORIES_E)
                            / inject_Z N_cycles) (1 # 3))
                     (FTH_of (dict_get FATIGUE_CATEGORIES category
                                       FATIGUE_CATEGORIES_E)) == 0).
  { field. intros E. rewrite E in HF. discriminate. }
  split; [exact H0|].
  unfold status_of.
  assert (Hle : Qle_bool
                  (0 / py_max
                         (fpow (Cf_of (dict_get FATIGUE_CATEGORIES category
                                                FATIGUE_CATEGORIES_E)
                                / inject_Z N_cycles) (1 # 3))
                         (FTH_of (dict_get FATIGUE_CATEGORIES category
                                           FATIGUE_CATEGORIES_E))) 1.0 = true).
  { apply Qle_bool_iff. rewrite H0. discriminate. }
  rewrite Hle. reflexivity.
Qed.

(** C5 (as amended).  For zero or negative thickness or section modulus:
    [check_web_local_yielding] never raises and reports the sentinel ratio
    999 with status NG whenever its allowable capacity is not positive, as
    it is for a zero web thickness; [calc_shear_strength], which has no
    ratio, returns for a non-positive web thickness (given a positive yield
    stress and, when tension field action is requested, a nonzero web
    height) with the sentinel slenderness [h_tw = 999]; [check_fatigue]
    returns for a non-positive section modulus (given a positive cycle
    count) with stress range 0, ratio 0 and status OK, not with a failure
    sentinel.  Nothing is stated about [check_web_crippling]. *)
Theorem invalid_input_sentinels (sqrt : Q -> Q) (fpow : Q -> Q -> Q)
        (sec : SteelSection) (Fy R lb : Q) (at_support : bool)
        (has_stiff : bool) (stiff_spa : Q) (use_tfa : bool)
        (M_range : Q) (N_cycles : Z) (category : string) :
  let wly := check_web_local_yielding sec Fy R lb at_support in
  let hw' := if Qltb 0 (hw sec) then hw sec else d sec - 2 * tf sec in
  ((WLY.Rn_allow wly <= 0 ->
    WLY.ratio wly = 999 /\ WLY.status wly = "NG"%string)
   /\ (tw sec == 0 -> WLY.Rn_allow wly == 0))
  /\ (tw sec <= 0 -> 0 < Fy ->
      (use_tfa = false \/ (~ hw' == 0 /\ forall x, 0 < x -> ~ sqrt x == 0)) ->
      exists res,
        calc_shear_strength sqrt sec Fy has_stiff stiff_spa use_tfa = Ok res
        /\ Shear.h_tw res = 999
        /\ Shear.Aw res = hw' * tw sec)
  /\ (Sx sec <= 0 -> (0 < N_cycles)%Z ->
      exists res,
        check_fatigue fpow sec M_range N_cycles category = Ok res
        /\ Fatigue.f_sr res = 0
        /\ Fatigue.ratio res == 0
        /\ Fatigue.status res = "OK"%string).
Proof.
  intros wly hw'. split; [|split].
  - apply check_web_local_yielding_sentinel.
  - apply calc_shear_strength_sentinel.
  - apply check_fatigue_zero_modulus.
Qed.

Lemma invalid_input_sentinels_witness :
  (tw ipe200_no_web == 0
   /\ WLY.Rn_allow (check_web_local_yielding ipe200_no_web 250 100 40 true) <= 0
   /\ WLY.ratio (check_web_local_yielding ipe200_no_web 250 100 40 true) = 999
   /\ WLY.status (check_web_local_yielding ipe200_no_web 250 100 40 true)
      = "NG"%string)
  /\ (tw ipe200_no_web <= 0 /\ 0 < 250
      /\ exists res,
           calc_shear_strength sqrt_approx ipe200_no_web 250 false 0 false
           = Ok res
           /\ Shear.h_tw res = 999
           /\ Shear.Aw res = (d ipe200_no_web - 2 * tf ipe200_no_web)
                             * tw ipe200_no_web)
  /\ (Sx ipe200_no_modulus <= 0 /\ (0 < 2000000)%Z
      /\ exists res,
           check_fatigue fpow_approx ipe200_no_modulus 50 2000000 "E" = Ok res
           /\ Fatigue.f_sr res = 0
           /\ Fatigue.ratio res == 0
           /\ Fatigue.status res = "OK"%string).
Proof.
  pose proof (invalid_input_sentinels sqrt_approx fpow_approx ipe200_no_web
                250 100 40 true false 0 false 50 2000000 "E")
    as ((Ha1 & Ha2) & Hb & _).
  pose proof (invalid_input_sentinels sqrt_approx fpow_approx ipe200_no_modulus
                250 100 40 true false 0 false 50 2000000 "E")
    as (_ & _ & Hc).
  assert (Htw : tw ipe200_no_web == 0) by reflexivity.
  assert (Hallow : WLY.Rn_allow
                     (check_web_local_yielding ipe200_no_web 250 100 40 true)
                   <= 0).
  { rewrite (Ha2 Htw). discriminate. }
  split; [|split].
  - split; [exact Htw|]. split; [exact Hallow|]. exact (Ha1 Hallow).
  - split; [discriminate|]. split; [reflexivity|].
    apply Hb; [discriminate | reflexivity | left; reflexivity].
  - split; [discriminate|]. split; [reflexivity|].
    apply Hc; [discriminate | reflexivity].
Defined.

(** C5 as stated fails twice: with a zero web thickness
    [check_web_crippling] raises [ZeroDivisionError] instead of returning a
    sentinel ratio, and with a zero section modulus [check_fatigue] returns
    ratio 0 with status OK, which is no failure sentinel. *)
Lemma web_crippling_raises_and_fatigue_passes :
  tw ipe200_no_web == 0
  /\ check_web_crippling sqrt_approx fpow_approx ipe200_no_web 250 100 40 true
     = Raise ZeroDivisionError
  /\ Sx ipe200_no_modulus == 0
  /\ exists res,
       check_fatigue fpow_approx ipe200_no_modulus 50 2000000 "E" = Ok res
       /\ Fatigue.ratio res == 0
       /\ ~ Fatigue.ratio res == 999
       /\ Fatigue.status res = "OK"%string.
Proof.
  split; [reflexivity|]. split; [vm_compute; reflexivity|].
  split; [reflexivity|].
  eexists. split; [vm_compute; reflexivity|].
  split; [reflexivity|]. split; [discriminate | reflexivity].
Qed.

(* ================================================================== *)
(** * Check engine: flexural yielding *)
(* ================================================================== *)

(** C8 (as amended).  For a section whose flange and web are both
    classified Compact and whose unbraced length satisfies [Lb <= Lp],
    [calc_flexural_strength] reports the limit state
    ["Yielding (Lb ≤ Lp)"] and the nominal moment [Mn = Mp]: that is
    [Fy * Zx / 1e6] (kN.m from MPa and mm^3) when [Zx > 0], and
    [Fy * Sx * 1.12 / 1e6] when [Zx] is not positive. *)
Theorem calc_flexural_strength_yielding (sqrt : Q -> Q) (sec : SteelSection)
        (Fy Lb : Q) (cmp : Cmp.t) (Lp Lr : Q) :
  calc_Lp_Lr sqrt sec Fy = Ok (Lp, Lr) ->
  Lb <= Lp ->
  Cmp.flange_class cmp = "Compact"%string ->
  Cmp.web_class cmp = "Compact"%string ->
  exists res,
    calc_flexural_strength sqrt sec Fy Lb cmp = Ok res
    /\ Flex.limit_state res = Label "Yielding (Lb ≤ Lp)"
    /\ Flex.Mn res = Flex.Mp res
    /\ (0 < Zx sec -> Flex.Mn res = Fy * Zx sec / 1e6)
    /\ (Zx sec <= 0 -> Flex.Mn res = Fy * Sx sec * 1.12 / 1e6).
Proof.
  intros HLp HLb Hf Hw.
  unfold calc_flexural_strength. rewrite HLp. cbn [bind fst snd]. cbv zeta.
  apply Qle_bool_iff in HLb. rewrite HLb. cbn [bind fst snd].
  rewrite Hf, Hw. cbn [String.eqb Ascii.eqb Bool.eqb bind fst snd].
  eexists. split; [reflexivity|].
  cbn [Flex.limit_state Flex.Mn Flex.Mp].
  split; [reflexivity|]. split; [reflexivity|]. split.
  - intros H. apply Qltb_lt in H. now rewrite H.
  - intros H. apply Qltb_ge in H. now rewrite H.
Qed.

Lemma calc_flexural_strength_yielding_witness :
  exists cmp Lp Lr,
    check_compactness sqrt_approx ipe200 250 = Ok cmp
    /\ calc_Lp_Lr sqrt_approx ipe200 250 = Ok (Lp, Lr)
    /\ 1000 <= Lp
    /\ Cmp.flange_class cmp = "Compact"%string
    /\ Cmp.web_class cmp = "Compact"%string
    /\ exists res,
         calc_flexural_strength sqrt_approx ipe200 250 1000 cmp = Ok res
         /\ Flex.limit_state res = Label "Yielding (Lb ≤ Lp)"
         /\ Flex.Mn res = Flex.Mp res
         /\ (0 < Zx ipe200 -> Flex.Mn res = 250 * Zx ipe200 / 1e6)
         /\ (Zx ipe200 <= 0 -> Flex.Mn res = 250 * Sx ipe200 * 1.12 / 1e6).
Proof.
  do 3 eexists.
  split; [vm_compute; reflexivity|].
  split; [vm_compute; reflexivity|].
  split; [discriminate|].
  split; [reflexivity|]. split; [reflexivity|].
  eapply (calc_flexural_strength_yielding sqrt_approx ipe200 250 1000).
  - vm_compute. reflexivity.
  - discriminate.
  - reflexivity.
  - reflexivity.
Defined.

(** C8 as stated fails: for IPE 200, compact in flange and web and braced
    at 1 m, the reported limit state is not the string ["Yielding"]; and
    with the plastic modulus unset the nominal moment is
    [Fy * Sx * 1.12 / 1e6], not [Fy * Zx] in any unit. *)
Lemma flexure_label_is_not_Yielding :
  exists cmp Lp Lr,
    check_compactness sqrt_approx ipe200 250 = Ok cmp
    /\ Cmp.flange_class cmp = "Compact"%string
    /\ Cmp.web_class cmp = "Compact"%string
    /\ calc_Lp_Lr sqrt_approx ipe200 250 = Ok (Lp, Lr)
    /\ 1000 <= Lp
    /\ (exists res,
          calc_flexural_strength sqrt_approx ipe200 250 1000 cmp = Ok res
          /\ Flex.limit_state res <> Label "Yielding")
    /\ (exists res,
          calc_flexural_strength sqrt_approx ipe200_no_Zx 250 1000 cmp = Ok res
          /\ Zx ipe200_no_Zx == 0
          /\ Flex.Mn res == 250 * 194e3 * 1.12 / 1e6
          /\ ~ Flex.Mn res == 0).
Proof.
  do 3 eexists.
  split; [vm_compute; reflexivity|].
  split; [reflexivity|]. split; [reflexivity|].
  split; [vm_compute; reflexivity|].
  split; [discriminate|]. split.
  - eexists. split; [vm_compute; reflexivity|]. discriminate.
  - eexists. split; [vm_compute; reflexivity|].
    split; [reflexivity|]. split; [reflexivity | discriminate].
Qed.

(* ================================================================== *)
(** * Section property model: re-invoking [calc_props] *)
(* ================================================================== *)

(** Reading an attribute after assignments. *)
Ltac sec_simpl :=
  cbn [name sec_type d bf tf tw r bf_top tf_top bf_bot tf_bot hw
       has_cap cap_name cap_A cap_Ix cap_Iy cap_d cap_cy
       A Ix Iy Sx Sy Zx rx ry rts J Cw ho y_bar mass
       set_bf_top set_tf_top set_bf_bot set_tf_bot set_hw set_A set_Ix
       set_Iy set_Sx set_Sy set_Zx set_rx set_ry set_rts set_J set_Cw
       set_ho set_y_bar set_mass] in *.

(** Two sections built from the same attribute values are equal. *)
Ltac sec_eq :=
  repeat match goal with
         | s : SteelSection |- _ => destruct s
         end;
  sec_simpl; subst; reflexivity.

(** Sections are equal when all their attributes are. *)
Lemma section_ext (s t : SteelSection) :
  name s = name t -> sec_type s = sec_type t -> d s = d t -> bf s = bf t ->
  tf s = tf t -> tw s = tw t -> r s = r t -> bf_top s = bf_top t ->
  tf_top s = tf_top t -> bf_bot s = bf_bot t -> tf_bot s = tf_bot t ->
  hw s = hw t -> has_cap s = has_cap t -> cap_name s = cap_name t ->
  cap_A s = cap_A t -> cap_Ix s = cap_Ix t -> cap_Iy s = cap_Iy t ->
  cap_d s = cap_d t -> cap_cy s = cap_cy t -> A s = A t -> Ix s = Ix t ->
  Iy s = Iy t -> Sx s = Sx t -> Sy s = Sy t -> Zx s = Zx t -> rx s = rx t ->
  ry s = ry t -> rts s = rts t -> J s = J t -> Cw s = Cw t -> ho s = ho t ->
  y_bar s = y_bar t -> mass s = mass t ->
  s = t.
Proof.
  destruct s, t. cbn. intros. subst. reflexivity.
Qed.

(** Equality of two chains of assignments, attribute by attribute. *)
Ltac sec_ext :=
  apply section_ext;
  lazy beta iota zeta delta
       [name sec_type d bf tf tw r bf_top tf_top bf_bot tf_bot hw
        has_cap cap_name cap_A cap_Ix cap_Iy cap_d cap_cy
        A Ix Iy Sx Sy Zx rx ry rts J Cw ho y_bar mass
        set_bf_top set_tf_top set_bf_bot set_tf_bot set_hw set_A set_Ix
        set_Iy set_Sx set_Sy set_Zx set_rx set_ry set_rts set_J set_Cw
        set_ho set_y_bar set_mass];
  reflexivity.

Section CommonProps.

Variable sqrt : Q -> Q.

Lemma common_radii_spec (x x1 : SteelSection) :
  common_radii sqrt x = Ok x1 ->
  exists a b,
    x1 = set_ry b (set_rx a x)
    /\ (A x <= 0 -> a = rx x /\ b = ry x)
    /\ forall t, A t = A x -> Ix t = Ix x -> Iy t = Iy x ->
                 rx t = a -> ry t = b ->
                 common_radii sqrt t = Ok t.
Proof.
  unfold common_radii. intros H. sec_simpl.
  destruct (Qltb 0 (A x)) eqn:EA.
  - match type of H with
    | bind ?m _ = _ => destruct m as [a|e] eqn:Ea; [|discriminate]
    end.
    cbn [bind] in H.
    match type of H with
    | bind ?m _ = _ => destruct m as [b|e] eqn:Eb; [|discriminate]
    end.
    cbn [bind] in H. injection H as <-.
    exists a, b. split; [reflexivity|]. split.
    + intros Hle. apply Qltb_lt in EA. lra.
    + intros t HA HIx HIy Hrx Hry. sec_simpl.
      rewrite HA, HIx, HIy, EA, Ea. cbn [bind]. rewrite Eb. cbn [bind].
      f_equal. sec_eq.
  - injection H as <-. exists (rx x), (ry x).
    split; [sec_eq|]. split; [auto|].
    intros t HA _ _ _ _. rewrite HA, EA. reflexivity.
Qed.

(** The fill-if-zero idiom: a second pass finds the value it left. *)
Lemma common_Zx_spec (x : SteelSection) :
  exists z,
    common_Zx x = set_Zx z x
    /\ (~ Zx x == 0 -> z = Zx x)
    /\ forall t, Sx t = Sx x -> Zx t = z -> common_Zx t = t.
Proof.
  unfold common_Zx.
  destruct (Qeq_bool (Zx x) 0 && Qltb 0 (Sx x)) eqn:C.
  - exists (Sx x * 1.12). split; [reflexivity|]. split.
    + intros Hn. apply andb_true_iff in C. destruct C as [C _].
      apply Qeq_bool_iff in C. contradiction.
    + intros t HS HZ. rewrite HS.
      destruct (Qeq_bool (Zx t) 0 && Qltb 0 (Sx x)); [|reflexivity].
      rewrite <- HZ. sec_eq.
  - exists (Zx x). split; [sec_eq|]. split; [reflexivity|].
    intros t HS HZ. rewrite HS, HZ, C. reflexivity.
Qed.

Lemma common_J_spec (x : SteelSection) :
  exists j,
    common_J x = set_J j x
    /\ (~ J x == 0 -> j = J x)
    /\ forall t, bf t = bf x -> tf t = tf x -> hw t = hw x -> tw t = tw x ->
                 J t = j \/ J t = J x ->
                 common_J t = set_J j t.
Proof.
  unfold common_J.
  destruct (Qeq_bool (J x) 0) eqn:C.
  - eexists. split; [reflexivity|]. split.
    + intros Hn. apply Qeq_bool_iff in C. contradiction.
    + intros t H1 H2 H3 H4 [HJ | HJ]; rewrite H1, H2, H3, H4.
      * destruct (Qeq_bool (J t) 0); [reflexivity|]. rewrite <- HJ. sec_eq.
      * rewrite HJ, C. reflexivity.
  - exists (J x). split; [sec_eq|]. split; [reflexivity|].
    intros t _ _ _ _ HJ. assert (HJ' : J t = J x) by tauto.
    rewrite HJ', C. rewrite <- HJ'. sec_eq.
Qed.

Lemma common_Cw_spec (x : SteelSection) :
  exists c,
    common_Cw x = set_Cw c x
    /\ (~ Cw x == 0 -> c = Cw x)
    /\ forall t, ho t = ho x -> Iy t = Iy x ->
                 Cw t = c \/ Cw t = Cw x ->
                 common_Cw t = set_Cw c t.
Proof.
  unfold common_Cw.
  destruct (Qeq_bool (Cw x) 0 && Qltb 0 (ho x) && Qltb 0 (Iy x)) eqn:C.
  - eexists. split; [reflexivity|]. split.
    + intros Hn. apply andb_true_iff in C. destruct C as [C _].
      apply andb_true_iff in C. destruct C as [C _].
      apply Qeq_bool_iff in C. contradiction.
    + intros t H1 H2 [HC | HC]; rewrite H1, H2.
      * destruct (Qeq_bool (Cw t) 0 && Qltb 0 (ho x) && Qltb 0 (Iy x));
          [reflexivity|]. rewrite <- HC. sec_eq.
      * rewrite HC, C. reflexivity.
  - exists (Cw x). split; [sec_eq|]. split; [reflexivity|].
    intros t H1 H2 HC. assert (HC' : Cw t = Cw x) by tauto.
    rewrite H1, H2, HC', C. rewrite <- HC'. sec_eq.
Qed.

Lemma common_rts_spec (x x1 : SteelSection) :
  common_rts sqrt x = Ok x1 ->
  exists v,
    x1 = set_rts v x
    /\ (~ rts x == 0 -> v = rts x)
    /\ forall t, Sx t = Sx x -> Iy t = Iy x -> Cw t = Cw x -> rts t = v ->
                 common_rts sqrt t = Ok t.
Proof.
  unfold common_rts. intros H.
  destruct (Qeq_bool (rts x) 0 && Qltb 0 (Sx x) && Qltb 0 (Iy x)
            && Qltb 0 (Cw x)) eqn:C.
  - destruct (math_sqrt sqrt (Iy x * Cw x)) as [r1|e] eqn:E1; [|discriminate].
    cbn [bind] in H.
    destruct (py_div r1 (Sx x)) as [q|e] eqn:E2; [|discriminate].
    cbn [bind] in H.
    destruct (math_sqrt sqrt q) as [r2|e] eqn:E3; [|discriminate].
    cbn [bind] in H. injection H as <-.
    exists r2. split; [reflexivity|]. split.
    + intros Hn. repeat (apply andb_true_iff in C; destruct C as [C _]).
      apply Qeq_bool_iff in C. contradiction.
    + intros t H1 H2 H3 H4. rewrite H1, H2, H3.
      destruct (Qeq_bool (rts t) 0 && Qltb 0 (Sx x) && Qltb 0 (Iy x)
                && Qltb 0 (Cw x)); [|reflexivity].
      rewrite E1. cbn [bind]. rewrite E2. cbn [bind]. rewrite E3. cbn [bind].
      f_equal. rewrite <- H4. sec_eq.
  - injection H as <-. exists (rts x). split; [sec_eq|].
    split; [reflexivity|].
    intros t H1 H2 H3 H4. rewrite H1, H2, H3, H4, C. reflexivity.
Qed.

Lemma common_mass_spec (x : SteelSection) :
  exists m,
    common_mass x = set_mass m x
    /\ (~ mass x == 0 -> m = mass x)
    /\ forall t, A t = A x -> has_cap t = has_cap x -> cap_A t = cap_A x ->
                 mass t = m ->
                 common_mass t = t.
Proof.
  unfold common_mass. sec_simpl.
  destruct (Qeq_bool (mass x) 0 && Qltb 0 (A x)) eqn:C.
  - destruct (has_cap x && Qltb 0 (cap_A x)) eqn:C2.
    + exists (A x * RHO_STEEL / 1e6 + cap_A x * RHO_STEEL / 1e6).
      split; [sec_eq|]. split.
      * intros Hn. apply andb_true_iff in C. destruct C as [C _].
        apply Qeq_bool_iff in C. contradiction.
      * intros t H1 H2 H3 H4. rewrite H1, H2, H3, C2.
        destruct (Qeq_bool (mass t) 0 && Qltb 0 (A x)); [|reflexivity].
        rewrite <- H4. sec_eq.
    + eexists. split; [reflexivity|]. split.
      * intros Hn. apply andb_true_iff in C. destruct C as [C _].
        apply Qeq_bool_iff in C. contradiction.
      * intros t H1 H2 H3 H4. rewrite H1, H2, H3, C2.
        destruct (Qeq_bool (mass t) 0 && Qltb 0 (A x)); [|reflexivity].
        rewrite <- H4. sec_eq.
  - exists (mass x). split; [sec_eq|]. split; [reflexivity|].
    intros t H1 _ _ H4. rewrite H1, H4, C. reflexivity.
Qed.

End CommonProps.

(** What [_calc_common_props] does: it assigns seven attributes, leaves a
    nonzero [Zx], [J], [Cw], [rts] or [mass] as it finds it, and, run on a
    section [t] that already carries the values it produced ([J] and [Cw]
    possibly reset to what they were), it reproduces them. *)
Lemma common_props_spec (sqrt : Q -> Q) (x y : SteelSection) :
  _calc_common_props sqrt x = Ok y ->
  exists a b z j c v m,
    y = set_mass m (set_rts v (set_Cw c (set_J j (set_Zx z
          (set_ry b (set_rx a x))))))
    /\ (A x <= 0 -> a = rx x /\ b = ry x)
    /\ (~ Zx x == 0 -> z = Zx x)
    /\ (~ J x == 0 -> j = J x)
    /\ (~ Cw x == 0 -> c = Cw x)
    /\ (~ rts x == 0 -> v = rts x)
    /\ (~ mass x == 0 -> m = mass x)
    /\ forall t,
         A t = A x -> Ix t = Ix x -> Iy t = Iy x -> Sx t = Sx x ->
         bf t = bf x -> tf t = tf x -> hw t = hw x -> tw t = tw x ->
         ho t = ho x -> has_cap t = has_cap x -> cap_A t = cap_A x ->
         rx t = a -> ry t = b -> Zx t = z -> rts t = v -> mass t = m ->
         J t = j \/ J t = J x ->
         Cw t = c \/ Cw t = Cw x ->
         _calc_common_props sqrt t = Ok (set_Cw c (set_J j t)).
Proof.
  unfold _calc_common_props. intros H.
  destruct (common_radii sqrt x) as [x1|e] eqn:E1; [|discriminate].
  cbn [bind] in H.
  destruct (common_radii_spec sqrt x x1 E1) as (a & b & -> & Hab & St1).
  destruct (common_Zx_spec (set_ry b (set_rx a x))) as (z & Ez & Hz & St2).
  rewrite Ez in H.
  destruct (common_J_spec (set_Zx z (set_ry b (set_rx a x))))
    as (j & Ej & Hj & St3).
  rewrite Ej in H.
  destruct (common_Cw_spec (set_J j (set_Zx z (set_ry b (set_rx a x)))))
    as (c & Ec & Hc & St4).
  rewrite Ec in H.
  destruct (common_rts sqrt
              (set_Cw c (set_J j (set_Zx z (set_ry b (set_rx a x))))))
    as [x5|e] eqn:E5; [|discriminate].
  cbn [bind] in H.
  destruct (common_rts_spec sqrt _ x5 E5) as (v & -> & Hv & St5).
  destruct (common_mass_spec
              (set_rts v (set_Cw c (set_J j (set_Zx z
                 (set_ry b (set_rx a x)))))))
    as (m & Em & Hm & St6).
  rewrite Em in H. injection H as <-.
  exists a, b, z, j, c, v, m.
  split; [reflexivity|]. split; [exact Hab|].
  split; [exact Hz|]. split; [exact Hj|]. split; [exact Hc|].
  split; [exact Hv|]. split; [exact Hm|].
  intros t HA HIx HIy HSx Hbf Htf Hhw Htw Hho Hcap HcapA
         Hrx Hry HZx Hrts Hmass HJ HCw.
  rewrite (St1 t) by (sec_simpl; first [assumption | reflexivity]). cbn [bind].
  rewrite (St2 t) by (sec_simpl; first [assumption | reflexivity]).
  rewrite (St3 t) by (sec_simpl; first [assumption | reflexivity]).
  rewrite (St4 (set_J j t)) by (sec_simpl; first [assumption | reflexivity]).
  rewrite (St5 (set_Cw c (set_J j t))) by (sec_simpl; first [assumption | reflexivity]). cbn [bind].
  rewrite (St6 (set_Cw c (set_J j t))) by (sec_simpl; first [assumption | reflexivity]).
  reflexivity.
Qed.

(** The defaulting blocks change nothing on a section that already carries
    the values they would assign. *)
Lemma built_up_defaults_fix (s u : SteelSection) :
  bf u = bf s -> tf u = tf s -> d u = d s ->
  bf_top u = bf_top (built_up_defaults s) ->
  tf_top u = tf_top (built_up_defaults s) ->
  bf_bot u = bf_bot (built_up_defaults s) ->
  tf_bot u = tf_bot (built_up_defaults s) ->
  hw u = hw (built_up_defaults s) ->
  built_up_defaults u = u.
Proof.
  unfold built_up_defaults, flange_defaults.
  destruct (Qeq_bool (bf_top s) 0) eqn:E1; sec_simpl;
    destruct (Qeq_bool (hw s) 0) eqn:E2; sec_simpl;
    intros Hbf Htf Hd H1 H2 H3 H4 H5;
    rewrite H1;
    repeat (match goal with
            | |- context [if ?b then _ else _] => destruct b eqn:?
            end; sec_simpl; try congruence);
    try rewrite Hbf; try rewrite Htf; try rewrite Hd;
    try rewrite H1; try rewrite H2; try rewrite H3; try rewrite H4;
    try rewrite <- H5; try rewrite <- H4; try rewrite <- H3;
    try rewrite <- H2; try rewrite <- H1;
    sec_eq.
Qed.

Lemma hot_rolled_defaults_fix (s u : SteelSection) :
  bf u = bf s -> tf u = tf s -> d u = d s ->
  bf_top u = bf_top (hot_rolled_defaults s) ->
  tf_top u = tf_top (hot_rolled_defaults s) ->
  bf_bot u = bf_bot (hot_rolled_defaults s) ->
  tf_bot u = tf_bot (hot_rolled_defaults s) ->
  hw u = hw (hot_rolled_defaults s) ->
  ho u = ho (hot_rolled_defaults s) ->
  hot_rolled_defaults u = u.
Proof.
  unfold hot_rolled_defaults, flange_defaults.
  destruct (Qeq_bool (hw s) 0) eqn:E1; sec_simpl;
    destruct (Qeq_bool (ho s) 0) eqn:E2; sec_simpl;
    destruct (Qeq_bool (bf_top s) 0) eqn:E3; sec_simpl;
    intros Hbf Htf Hd H1 H2 H3 H4 H5 H6;
    rewrite H5;
    repeat (match goal with
            | |- context [if ?b then _ else _] => destruct b eqn:?
            end; sec_simpl; try rewrite H6; try rewrite H1; try congruence);
    try rewrite Hbf; try rewrite Htf; try rewrite Hd;
    try rewrite <- H6; try rewrite <- H5; try rewrite <- H4;
    try rewrite <- H3; try rewrite <- H2; try rewrite <- H1;
    sec_eq.
Qed.

(** The nine assignments of [built_up_geometry], in source order. *)
Lemma built_up_geometry_agree (s t s' : SteelSection) :
  d t = d s -> tw t = tw s ->
  bf_top t = bf_top s -> tf_top t = tf_top s ->
  bf_bot t = bf_bot s -> tf_bot t = tf_bot s -> hw t = hw s ->
  has_cap t = has_cap s -> cap_A t = cap_A s -> cap_Ix t = cap_Ix s ->
  cap_Iy t = cap_Iy s -> cap_d t = cap_d s -> cap_cy t = cap_cy s ->
  built_up_geometry s = Ok s' ->
  built_up_geometry t
  = Ok (set_Cw (Cw s') (set_J (J s') (set_Sy (Sy s') (set_Sx (Sx s')
         (set_Iy (Iy s') (set_Ix (Ix s') (set_ho (ho s')
            (set_y_bar (y_bar s') (set_A (A s') t))))))))).
Proof.
  intros H1 H2 H3 H4 H5 H6 H7 H8 H9 H10 H11 H12 H13 H.
  destruct s, t. sec_simpl. subst.
  unfold built_up_geometry in *. sec_simpl.
  revert H.
  repeat (match goal with
          | |- context [if ?b then _ else _] => destruct b eqn:?
          | |- context [py_div ?a ?b] => destruct (py_div a b) eqn:?
          end; cbn [bind]; sec_simpl; try (intros; discriminate)).
  all: intros H; injection H as <-; sec_simpl; reflexivity.
Qed.

Lemma built_up_defaults_frame (s : SteelSection) :
  bf (built_up_defaults s) = bf s /\ tf (built_up_defaults s) = tf s
  /\ d (built_up_defaults s) = d s
  /\ sec_type (built_up_defaults s) = sec_type s.
Proof.
  unfold built_up_defaults, flange_defaults.
  destruct (Qeq_bool (bf_top s) 0); sec_simpl;
    destruct (Qeq_bool (hw s) 0); sec_simpl; repeat split; reflexivity.
Qed.

Lemma hot_rolled_defaults_frame (s : SteelSection) :
  bf (hot_rolled_defaults s) = bf s /\ tf (hot_rolled_defaults s) = tf s
  /\ d (hot_rolled_defaults s) = d s
  /\ sec_type (hot_rolled_defaults s) = sec_type s
  /\ has_cap (hot_rolled_defaults s) = has_cap s
  /\ cap_A (hot_rolled_defaults s) = cap_A s.
Proof.
  unfold hot_rolled_defaults, flange_defaults.
  destruct (Qeq_bool (hw s) 0); sec_simpl;
    destruct (Qeq_bool (ho s) 0); sec_simpl;
    destruct (Qeq_bool (bf_top s) 0); sec_simpl; repeat split; reflexivity.
Qed.

(** Built-up sections, with or without a cap channel: every attribute the
    derivation assigns is recomputed from the plate dimensions, so a second
    run reproduces the first. *)
Lemma built_up_idempotent (sqrt : Q -> Q) (s s1 : SteelSection) :
  _calc_built_up_props sqrt s = Ok s1 ->
  _calc_built_up_props sqrt s1 = Ok s1 /\ sec_type s1 = sec_type s.
Proof.
  unfold _calc_built_up_props. intros H.
  destruct (built_up_defaults_frame s) as (Fbf & Ftf & Fd & Fty).
  destruct (built_up_geometry (built_up_defaults s)) as [sg|e] eqn:Eg;
    [|discriminate].
  cbn [bind] in H.
  destruct (common_props_spec sqrt sg s1 H)
    as (a & b & z & j & c & v & m & -> & _ & _ & _ & _ & _ & _ & Hreplay).
  pose proof (built_up_geometry_agree _ _ sg eq_refl eq_refl eq_refl eq_refl
                eq_refl eq_refl eq_refl eq_refl eq_refl eq_refl eq_refl
                eq_refl eq_refl Eg) as Hframe.
  rewrite Eg in Hframe. injection Hframe as Hframe.
  split; [|rewrite Hframe; sec_simpl; exact Fty].
  (* the defaults are already in place *)
  match goal with
  | |- context [built_up_defaults ?u] =>
      assert (Hd : built_up_defaults u = u)
  end.
  { apply (built_up_defaults_fix s);
      rewrite Hframe; sec_simpl; first [assumption | reflexivity]. }
  rewrite Hd. clear Hd.
  (* the geometry block recomputes the same nine values *)
  match goal with
  | |- context [built_up_geometry ?u] =>
      pose proof (built_up_geometry_agree (built_up_defaults s) u sg) as Hg
  end.
  rewrite Hg by first [exact Eg | rewrite Hframe; sec_simpl; reflexivity].
  clear Hg. cbn [bind].
  (* the finishing step refills [J] and [Cw] and keeps the rest *)
  match goal with
  | |- context [_calc_common_props sqrt ?u] =>
      pose proof (Hreplay u) as Hr
  end.
  rewrite Hr by (sec_simpl; first [right; reflexivity | reflexivity]).
  apply f_equal. sec_ext.
Qed.

(** Hot-rolled sections without an effective cap channel: only the
    defaulting statements and the common finishing step run. *)
Lemma hot_rolled_idempotent (sqrt : Q -> Q) (s s1 : SteelSection) :
  has_cap s && Qltb 0 (cap_A s) = false ->
  _calc_hot_rolled_props sqrt s = Ok s1 ->
  _calc_hot_rolled_props sqrt s1 = Ok s1 /\ sec_type s1 = sec_type s.
Proof.
  unfold _calc_hot_rolled_props. intros Hcap H.
  destruct (hot_rolled_defaults_frame s)
    as (Fbf & Ftf & Fd & Fty & Fcap & FcapA).
  rewrite Fcap, FcapA, Hcap in H. cbn [bind] in H.
  destruct (common_props_spec sqrt _ s1 H)
    as (a & b & z & j & c & v & m & -> & _ & _ & _ & _ & _ & _ & Hreplay).
  split; [|sec_simpl; exact Fty].
  match goal with
  | |- context [hot_rolled_defaults ?u] =>
      assert (Hd : hot_rolled_defaults u = u)
  end.
  { apply (hot_rolled_defaults_fix s);
      sec_simpl; first [assumption | reflexivity]. }
  rewrite Hd. clear Hd.
  sec_simpl. rewrite Fcap, FcapA, Hcap. cbn [bind].
  match goal with
  | |- context [_calc_common_props sqrt ?u] =>
      pose proof (Hreplay u) as Hr
  end.
  rewrite Hr by (sec_simpl; first [left; reflexivity | reflexivity]).
  apply f_equal. sec_ext.
Qed.

Lemma math_sqrt_inv (sqrt : Q -> Q) (q r0 : Q) :
  math_sqrt sqrt q = Ok r0 -> r0 = sqrt q.
Proof.
  unfold math_sqrt. destruct (Qltb q 0); [discriminate|].
  intros H. injection H as <-. reflexivity.
Qed.

(** [common_radii] with a positive area: both radii are assigned. *)
Lemma common_radii_values (sqrt : Q -> Q) (x x1 : SteelSection) :
  common_radii sqrt x = Ok x1 ->
  0 < A x ->
  rx x1 = (if Qltb 0 (Ix x) then sqrt (Ix x / A x) else 0)
  /\ ry x1 = (if Qltb 0 (Iy x) then sqrt (Iy x / A x) else 0).
Proof.
  unfold common_radii. intros H HA.
  pose proof HA as HAb. apply Qltb_lt in HAb. rewrite HAb in H.
  sec_simpl.
  assert (Hrad : forall I0 r0,
             (if Qltb 0 I0
              then let* q := py_div I0 (A x) in math_sqrt sqrt q
              else Ok 0) = Ok r0 ->
             r0 = (if Qltb 0 I0 then sqrt (I0 / A x) else 0)).
  { intros I0 r0. destruct (Qltb 0 I0).
    - destruct (py_div I0 (A x)) as [q|e] eqn:Eq; [|discriminate].
      cbn [bind]. apply py_div_inv in Eq. destruct Eq as [_ ->].
      apply math_sqrt_inv.
    - intros E. injection E as <-. reflexivity. }
  match type of H with
  | bind ?m _ = _ => destruct m as [a|e] eqn:Ea; [|discriminate]
  end.
  cbn [bind] in H.
  match type of H with
  | bind ?m _ = _ => destruct m as [b|e] eqn:Eb; [|discriminate]
  end.
  cbn [bind] in H. injection H as <-. sec_simpl.
  split; [exact (Hrad _ _ Ea) | exact (Hrad _ _ Eb)].
Qed.

(** The finishing step with a positive area: [rx] and [ry] of the result
    are the radii of gyration of its own [Ix], [Iy] and [A], whatever they
    were before. *)
Lemma common_props_radii (sqrt : Q -> Q) (x y : SteelSection) :
  _calc_common_props sqrt x = Ok y ->
  0 < A x ->
  rx y = (if Qltb 0 (Ix x) then sqrt (Ix x / A x) else 0)
  /\ ry y = (if Qltb 0 (Iy x) then sqrt (Iy x / A x) else 0)
  /\ A y = A x /\ Ix y = Ix x /\ Iy y = Iy x.
Proof.
  intros H HA.
  destruct (common_props_spec sqrt x y H)
    as (a & b & z & j & c & v & m & Hy & _).
  unfold _calc_common_props in H.
  destruct (common_radii sqrt x) as [x1|e] eqn:E1; [|discriminate].
  cbn [bind] in H.
  destruct (common_radii_values sqrt x x1 E1 HA) as [R1 R2].
  destruct (common_radii_spec sqrt x x1 E1) as (a' & b' & Hx1 & _).
  destruct (common_Zx_spec x1) as (z' & Ez & _). rewrite Ez in H.
  destruct (common_J_spec (set_Zx z' x1)) as (j' & Ej & _). rewrite Ej in H.
  destruct (common_Cw_spec (set_J j' (set_Zx z' x1))) as (c' & Ec & _).
  rewrite Ec in H.
  destruct (common_rts sqrt (set_Cw c' (set_J j' (set_Zx z' x1))))
    as [x5|e] eqn:E5; [|discriminate].
  cbn [bind] in H.
  destruct (common_rts_spec sqrt _ x5 E5) as (v' & -> & _).
  destruct (common_mass_spec
              (set_rts v' (set_Cw c' (set_J j' (set_Zx z' x1)))))
    as (m' & Em & _).
  rewrite Em in H. injection H as H.
  assert (Hrx : rx y = rx x1) by (rewrite <- H; sec_simpl; reflexivity).
  assert (Hry : ry y = ry x1) by (rewrite <- H; sec_simpl; reflexivity).
  rewrite Hrx, Hry. split; [exact R1|]. split; [exact R2|].
  rewrite Hy. sec_simpl. repeat split; reflexivity.
Qed.

(** C3 (as amended).  For every built-up section (with or without a cap
    channel) and every hot-rolled section without an effective cap channel
    ([has_cap] unset or [cap_A <= 0]), invoking [calc_props] again on the
    unmutated result of a first invocation returns that same section:
    every attribute, derived or not, keeps its value.  The common finishing
    step never overwrites [Zx], [J], [Cw], [rts] or [mass] when already
    nonzero; [rx] and [ry] are kept when [A <= 0] and are recomputed from
    [Ix], [Iy] and [A] whenever [A > 0]: [rx = sqrt (Ix / A)] for a
    positive [Ix] and [0] otherwise, and [ry] likewise from [Iy]. *)
Theorem calc_props_idempotent (sqrt : Q -> Q) (s s1 : SteelSection) :
  (sec_type s = "built_up"%string \/ has_cap s = false \/ cap_A s <= 0 ->
   calc_props sqrt s = Ok s1 ->
   calc_props sqrt s1 = Ok s1)
  /\ (_calc_common_props sqrt s = Ok s1 ->
      (~ Zx s == 0 -> Zx s1 = Zx s)
      /\ (~ J s == 0 -> J s1 = J s)
      /\ (~ Cw s == 0 -> Cw s1 = Cw s)
      /\ (~ rts s == 0 -> rts s1 = rts s)
      /\ (~ mass s == 0 -> mass s1 = mass s)
      /\ (A s <= 0 -> rx s1 = rx s /\ ry s1 = ry s)
      /\ (0 < A s ->
          rx s1 = (if Qltb 0 (Ix s) then sqrt (Ix s / A s) else 0)
          /\ ry s1 = (if Qltb 0 (Iy s) then sqrt (Iy s / A s) else 0))).
Proof.
  split.
  - intros Hmode H. unfold calc_props in *.
    destruct (String.eqb (sec_type s) "built_up") eqn:Ety.
    + destruct (built_up_idempotent sqrt s s1 H) as [H2 Hty].
      rewrite Hty, Ety. exact H2.
    + assert (Hcap : has_cap s && Qltb 0 (cap_A s) = false).
      { destruct Hmode as [Hb | [Hc | Hc]].
        - apply String.eqb_neq in Ety. contradiction.
        - rewrite Hc. reflexivity.
        - apply Qltb_ge in Hc. rewrite Hc. apply andb_false_r. }
      destruct (hot_rolled_idempotent sqrt s s1 Hcap H) as [H2 Hty].
      rewrite Hty, Ety. exact H2.
  - intros H.
    pose proof (common_props_radii sqrt s s1 H) as Hrad.
    destruct (common_props_spec sqrt s s1 H)
      as (a & b & z & j & c & v & m & -> & Hab & Hz & Hj & Hc & Hv & Hm & _).
    sec_simpl.
    split; [exact Hz|]. split; [exact Hj|]. split; [exact Hc|].
    split; [exact Hv|]. split; [exact Hm|]. split.
    + intros HA. split; apply Hab; exact HA.
    + intros HA. destruct (Hrad HA) as (R1 & R2 & _). split; assumption.
Qed.

Lemma calc_props_idempotent_witness :
  (* a capped plate girder *)
  (exists s1,
     (sec_type plate_girder_cap = "built_up"%string
      \/ has_cap plate_girder_cap = false \/ cap_A plate_girder_cap <= 0)
     /\ calc_props sqrt_approx plate_girder_cap = Ok s1
     /\ calc_props sqrt_approx s1 = Ok s1)
  /\
  (* a rolled section without cap *)
  (exists s1,
     (sec_type ipe200 = "built_up"%string
      \/ has_cap ipe200 = false \/ cap_A ipe200 <= 0)
     /\ calc_props sqrt_approx ipe200 = Ok s1
     /\ calc_props sqrt_approx s1 = Ok s1)
  /\
  (* the finishing step on catalogue values *)
  (exists s1,
     _calc_common_props sqrt_approx ipe200 = Ok s1
     /\ ~ Zx ipe200 == 0 /\ Zx s1 = Zx ipe200
     /\ ~ mass ipe200 == 0 /\ mass s1 = mass ipe200)
  /\
  (* the radii of gyration of a section with a positive area *)
  (exists s1,
     _calc_common_props sqrt_approx ipe200 = Ok s1
     /\ 0 < A ipe200
     /\ rx s1 = sqrt_approx (Ix ipe200 / A ipe200)
     /\ ry s1 = sqrt_approx (Iy ipe200 / A ipe200)).
Proof.
  split; [|split; [|split]].
  - eexists. split; [left; reflexivity|].
    split; [vm_compute; reflexivity|].
    apply (proj1 (calc_props_idempotent sqrt_approx plate_girder_cap _)).
    + left. reflexivity.
    + vm_compute. reflexivity.
  - eexists. split; [right; left; reflexivity|].
    split; [vm_compute; reflexivity|].
    apply (proj1 (calc_props_idempotent sqrt_approx ipe200 _)).
    + right. left. reflexivity.
    + vm_compute. reflexivity.
  - eexists. split; [vm_compute; reflexivity|].
    assert (HZ : ~ Zx ipe200 == 0) by discriminate.
    assert (HM : ~ mass ipe200 == 0) by discriminate.
    pose proof (fun s1 => proj2 (calc_props_idempotent sqrt_approx ipe200 s1))
      as Hkeep.
    match goal with
    | |- _ /\ Zx ?s1 = _ /\ _ =>
        destruct (Hkeep s1) as (KZ & _ & _ & _ & KM & _);
          [vm_compute; reflexivity|]
    end.
    split; [exact HZ|]. split; [exact (KZ HZ)|].
    split; [exact HM | exact (KM HM)].
  - eexists. split; [vm_compute; reflexivity|].
    assert (HA : 0 < A ipe200) by reflexivity.
    split; [exact HA|].
    pose proof (fun s1 => proj2 (calc_props_idempotent sqrt_approx ipe200 s1))
      as Hrad.
    match goal with
    | |- rx ?s1 = _ /\ _ =>
        destruct (Hrad s1) as (_ & _ & _ & _ & _ & _ & KR);
          [vm_compute; reflexivity|]
    end.
    exact (KR HA).
Defined.

(** C3 as stated fails twice.  A hot-rolled section with a cap channel is
    not a fixed point: each invocation adds the cap area to [A] again
    (IPE 200 + UPN 80: 3948 mm2 after one call, 5048 mm2 after two).  And
    the common finishing step overwrites a nonzero [rx] whenever [A > 0]. *)
Lemma calc_props_twice_accumulates_cap :
  (exists s1 s2,
     calc_props sqrt_approx ipe200_cap = Ok s1
     /\ calc_props sqrt_approx s1 = Ok s2
     /\ A s1 == 3948 /\ A s2 == 5048
     /\ ~ A s2 == A s1
     /\ ~ Ix s2 == Ix s1)
  /\ (exists s1,
        _calc_common_props sqrt_approx (set_rx 1 ipe200) = Ok s1
        /\ ~ rx (set_rx 1 ipe200) == 0
        /\ ~ rx s1 == rx (set_rx 1 ipe200)).
Proof.
  split.
  - do 2 eexists.
    split; [vm_compute; reflexivity|].
    split; [vm_compute; reflexivity|].
    split; [reflexivity|]. split; [reflexivity|].
    split; discriminate.
  - eexists. split; [vm_compute; reflexivity|].
    split; discriminate.
Qed.

(* ================================================================== *)
(** * Crane geometry model: wheel positions and packing *)
(* ================================================================== *)

Lemma nondecreasing_multiples (spacing : Q) (n k : nat) :
  0 <= spacing ->
  nondecreasing (map (fun i => inject_Z (Z.of_nat i) * spacing) (seq k n)).
Proof.
  intros Hs. revert k. induction n as [|n IH]; intros k; cbn [seq map].
  - constructor.
  - destruct n as [|n]; cbn [seq map].
    + constructor.
    + constructor; [|exact (IH (S k))].
      apply Qmult_le_compat_r; [|exact Hs].
      rewrite <- Zle_Qle. lia.
Qed.

Lemma last_multiples (spacing : Q) (n k : nat) :
  last (map (fun i => inject_Z (Z.of_nat i) * spacing) (seq k (S n))) 0
  = inject_Z (Z.of_nat (k + n)) * spacing.
Proof.
  revert k. induction n as [|n IH]; intros k.
  - cbn. now rewrite Nat.add_0_r.
  - change (seq k (S (S n))) with (k :: seq (S k) (S n)).
    cbn [map]. rewrite <- Nat.add_succ_comm, <- IH.
    cbn [seq map]. reflexivity.
Qed.

(** X1.  [get_wheel_positions_relative] returns one position per wheel
    (a single position when the wheel count is 1 or less), the first of
    them at the origin, and lists them in non-decreasing order when the
    wheel base is not negative. *)
Theorem wheel_positions_shape (c : CraneData) :
  List.length (get_wheel_positions_relative c)
  = Z.to_nat (Z.max 1 (num_wheels c))
  /\ hd 0 (get_wheel_positions_relative c) == 0
  /\ (0 <= wheel_base c -> nondecreasing (get_wheel_positions_relative c)).
Proof.
  unfold get_wheel_positions_relative.
  destruct (num_wheels c =? 2)%Z eqn:E2.
  { apply Z.eqb_eq in E2. rewrite E2. cbn [List.length hd].
    split; [reflexivity|]. split; [reflexivity|].
    intros Hb. constructor; [|constructor].
    eapply Qle_trans; [|exact Hb]. discriminate. }
  destruct (num_wheels c =? 4)%Z eqn:E4.
  { apply Z.eqb_eq in E4. rewrite E4.
    destruct (Qltb 0 (wheel_spacing_12 c) && Qltb 0 (wheel_spacing_23 c)
              && Qltb 0 (wheel_spacing_34 c)) eqn:Es.
    - apply andb_true_iff in Es. destruct Es as [Es H34].
      apply andb_true_iff in Es. destruct Es as [H12 H23].
      apply Qltb_lt in H12. apply Qltb_lt in H23. apply Qltb_lt in H34.
      cbn [List.length hd]. split; [reflexivity|]. split; [reflexivity|].
      intros _.
      constructor; [lra|]. constructor; [lra|]. constructor; [lra|].
      constructor.
    - cbv zeta. cbn [List.length hd].
      split; [reflexivity|]. split; [reflexivity|].
      intros Hb.
      assert (H3 : 0 <= wheel_base c / 3)
        by (apply Qle_shift_div_l; [reflexivity | lra]).
      assert (Hw : wheel_base c == 3 * (wheel_base c / 3)) by field.
      constructor; [lra|]. constructor; [lra|]. constructor; [lra|].
      constructor. }
  destruct (num_wheels c <=? 1)%Z eqn:E1.
  { apply Z.leb_le in E1. cbn [List.length hd].
    split; [rewrite Z.max_l by lia; reflexivity|].
    split; [reflexivity|]. intros _. constructor. }
  apply Z.leb_gt in E1.
  rewrite length_map, length_seq. split; [f_equal; lia|].
  assert (Hn : exists n, Z.to_nat (num_wheels c) = S n).
  { exists (Nat.pred (Z.to_nat (num_wheels c))). lia. }
  destruct Hn as (n & Hn). rewrite Hn. split.
  - cbn [seq map hd]. change (inject_Z (Z.of_nat 0)) with 0. ring.
  - intros Hb. rewrite <- Hn. apply nondecreasing_multiples.
    apply Qle_shift_div_l; [|lra].
    change 0 with (inject_Z 0). rewrite <- Zlt_Qlt. lia.
Qed.

Lemma wheel_positions_shape_witness :
  List.length (get_wheel_positions_relative default_crane) = 2%nat
  /\ hd 0 (get_wheel_positions_relative default_crane) == 0
  /\ 0 <= wheel_base default_crane
  /\ nondecreasing (get_wheel_positions_relative default_crane).
Proof.
  destruct (wheel_positions_shape default_crane) as (H1 & H2 & H3).
  split; [exact H1|]. split; [exact H2|].
  split; [discriminate|]. apply H3. discriminate.
Defined.

(** X2.  [get_total_wheel_base] is 0 for a crane with at most one wheel,
    the sum of the three explicit spacings for a 4-wheel crane that gives
    them all positive (whatever its [wheel_base]), and [wheel_base] in
    every other case. *)
Theorem total_wheel_base_cases (c : CraneData) :
  ((num_wheels c <= 1)%Z -> get_total_wheel_base c = 0.0)
  /\ (num_wheels c = 4%Z ->
      0 < wheel_spacing_12 c -> 0 < wheel_spacing_23 c ->
      0 < wheel_spacing_34 c ->
      get_total_wheel_base c
      == wheel_spacing_12 c + wheel_spacing_23 c + wheel_spacing_34 c)
  /\ ((2 <= num_wheels c)%Z ->
      (num_wheels c = 4%Z ->
       Qltb 0 (wheel_spacing_12 c) && Qltb 0 (wheel_spacing_23 c)
       && Qltb 0 (wheel_spacing_34 c) = false) ->
      get_total_wheel_base c == wheel_base c).
Proof.
  unfold get_total_wheel_base, get_wheel_positions_relative.
  split; [|split].
  - intros H1.
    assert (E2 : (num_wheels c =? 2)%Z = false) by (apply Z.eqb_neq; lia).
    assert (E4 : (num_wheels c =? 4)%Z = false) by (apply Z.eqb_neq; lia).
    apply Z.leb_le in H1. rewrite E2, E4, H1. reflexivity.
  - intros H4 H12 H23 H34. rewrite H4.
    apply Qltb_lt in H12. apply Qltb_lt in H23. apply Qltb_lt in H34.
    rewrite H12, H23, H34. cbn. ring.
  - intros H2 Hsp.
    destruct (num_wheels c =? 2)%Z eqn:E2; [cbn; ring|].
    destruct (num_wheels c =? 4)%Z eqn:E4.
    + apply Z.eqb_eq in E4. rewrite (Hsp E4). cbn. ring.
    + apply Z.eqb_neq in E2. apply Z.eqb_neq in E4.
      assert (E1 : (num_wheels c <=? 1)%Z = false) by (apply Z.leb_gt; lia).
      rewrite E1.
      assert (Hn : exists n, Z.to_nat (num_wheels c) = S (S n)).
      { exists (Nat.pred (Nat.pred (Z.to_nat (num_wheels c)))). lia. }
      destruct Hn as (n & Hn). rewrite Hn.
      rewrite length_map, length_seq. cbn [Nat.ltb Nat.leb].
      rewrite last_multiples. cbn [seq map hd Nat.add].
      assert (Hz : (num_wheels c - 1 = Z.of_nat (S n))%Z) by lia.
      rewrite Hz.
      assert (Hnz : ~ inject_Z (Z.of_nat (S n)) == 0).
      { apply inject_Z_nonzero. lia. }
      change (inject_Z (Z.of_nat 0)) with 0. field. exact Hnz.
Qed.

(** A six-wheel crane and a four-wheel crane with explicit spacings. *)
Lemma total_wheel_base_cases_witness :
  (* no wheel at all *)
  ((0 <= 1)%Z
   /\ get_total_wheel_base
        (mkCraneData 1 10.0 5.0 0.72 15.0 1.0 2.2 0.29 0.29 0 0.25 0.20 0.10
                     0.0 0.0 0.0 false 0.0 0.0 0.0) = 0.0)
  /\ (get_total_wheel_base
        (mkCraneData 1 10.0 5.0 0.72 15.0 1.0 2.2 0.29 0.29 4 0.25 0.20 0.10
                     0.4 1.0 0.4 false 0.0 0.0 0.0) == 0.4 + 1.0 + 0.4)
  /\ ((2 <= 6)%Z
      /\ get_total_wheel_base
           (mkCraneData 1 10.0 5.0 0.72 15.0 1.0 2.2 0.29 0.29 6 0.25 0.20 0.10
                        0.0 0.0 0.0 false 0.0 0.0 0.0) == 2.2).
Proof.
  split; [|split].
  - split; [discriminate|].
    apply (proj1 (total_wheel_base_cases
                    (mkCraneData 1 10.0 5.0 0.72 15.0 1.0 2.2 0.29 0.29 0
                                 0.25 0.20 0.10 0.0 0.0 0.0 false 0.0 0.0 0.0))).
    discriminate.
  - apply (proj1 (proj2 (total_wheel_base_cases
                    (mkCraneData 1 10.0 5.0 0.72 15.0 1.0 2.2 0.29 0.29 4
                                 0.25 0.20 0.10 0.4 1.0 0.4 false 0.0 0.0 0.0))));
      reflexivity.
  - split; [discriminate|].
    apply (proj2 (proj2 (total_wheel_base_cases
                    (mkCraneData 1 10.0 5.0 0.72 15.0 1.0 2.2 0.29 0.29 6
                                 0.25 0.20 0.10 0.0 0.0 0.0 false 0.0 0.0 0.0)))).
    + discriminate.
    + discriminate.
Defined.

(** Every crane has a first wheel, at the origin of its own positions. *)
Lemma wheel_positions_head (c : CraneData) :
  exists x l, get_wheel_positions_relative c = x :: l /\ x == 0.
Proof.
  unfold get_wheel_positions_relative.
  destruct (num_wheels c =? 2)%Z; [do 2 eexists; split; reflexivity|].
  destruct (num_wheels c =? 4)%Z.
  { destruct (Qltb 0 (wheel_spacing_12 c) && Qltb 0 (wheel_spacing_23 c)
              && Qltb 0 (wheel_spacing_34 c));
      do 2 eexists; split; reflexivity. }
  destruct (num_wheels c <=? 1)%Z eqn:E1;
    [do 2 eexists; split; reflexivity|].
  apply Z.leb_gt in E1.
  assert (Hn : exists n, Z.to_nat (num_wheels c) = S n).
  { exists (Nat.pred (Z.to_nat (num_wheels c))). lia. }
  destruct Hn as (n & ->). cbn [seq map].
  do 2 eexists. split; [reflexivity|].
  change (inject_Z (Z.of_nat 0)) with 0. ring.
Qed.

Lemma total_wheel_base_last (c : CraneData) :
  get_total_wheel_base c
  == last (get_wheel_positions_relative c) 0.
Proof.
  unfold get_total_wheel_base.
  destruct (wheel_positions_head c) as (x & l & -> & Hx).
  destruct l as [|y l].
  - change (0.0 == x). rewrite Hx. reflexivity.
  - change (last (x :: y :: l) 0 - x == last (x :: y :: l) 0).
    generalize (last (x :: y :: l) 0). intros z. lra.
Qed.

(** The accumulators of [crane_group_loop] grow together. *)
Lemma crane_group_loop_lengths (cranes : list CraneData) :
  forall pos rel loads rel' loads',
    crane_group_loop cranes pos rel loads = Ok (rel', loads') ->
    (List.length rel'
     = List.length rel
       + list_sum (map (fun c => List.length (get_wheel_positions_relative c))
                       cranes))%nat
    /\ (List.length loads'
        = List.length loads
          + list_sum (map (fun c => List.length (get_wheel_positions_relative c))
                          cranes))%nat.
Proof.
  induction cranes as [|c rest IH]; intros pos rel loads rel' loads' H.
  - cbn in H. injection H as <- <-. cbn. lia.
  - cbn [crane_group_loop] in H.
    destruct (get_wheel_load_with_impact c) as [Pv|e]; [|discriminate].
    cbn [bind] in H. cbv zeta in H. apply IH in H.
    rewrite !length_app, !length_map in H.
    unfold list_sum in *. cbn [map fold_right]. lia.
Qed.

(** X3.  [get_crane_group_geometry] returns as many wheel loads as wheel
    positions, namely one per wheel of every crane; the sequence is empty
    only for an empty crane list, and its first position is the origin. *)
Theorem crane_group_geometry_counts (cranes : list CraneData)
        (rel_positions wheel_loads : list Q) (group_length : Q) :
  get_crane_group_geometry cranes
  = Ok (rel_positions, wheel_loads, group_length) ->
  List.length wheel_loads = List.length rel_positions
  /\ List.length rel_positions
     = list_sum (map (fun c => List.length (get_wheel_positions_relative c))
                     cranes)
  /\ (rel_positions = [] <-> cranes = [])
  /\ (cranes <> [] -> hd 1 rel_positions == 0).
Proof.
  unfold get_crane_group_geometry. intros H.
  destruct (crane_group_loop cranes 0.0 [] []) as [[rel loads]|e] eqn:E;
    [|discriminate].
  cbn [bind fst snd] in H. injection H as <- <- _.
  destruct (crane_group_loop_lengths cranes _ _ _ _ _ E) as (H1 & H2).
  cbn [List.length Nat.add] in H1, H2.
  split; [congruence|]. split; [exact H1|]. split.
  - split.
    + intros ->. destruct cranes as [|c rest]; [reflexivity|].
      unfold list_sum in H1. cbn [map fold_right List.length] in H1.
      destruct (wheel_positions_head c) as (x & l & Hp & _).
      rewrite Hp in H1. cbn [List.length] in H1. lia.
    + intros ->. cbn in E. congruence.
  - intros Hne. destruct cranes as [|c rest]; [congruence|].
    cbn [crane_group_loop] in E.
    destruct (get_wheel_load_with_impact c) as [Pv|e]; [|discriminate].
    cbn [bind] in E.
    destruct (wheel_positions_head c) as (x & l & Hp & Hx).
    rewrite Hp in E. cbn [map app] in E.
    assert (Hhd : forall cs pos r ls r' ls' y,
               crane_group_loop cs pos (y :: r) ls = Ok (r', ls') ->
               hd 1 r' = y).
    { clear. induction cs as [|c0 cs IHc]; intros pos r ls r' ls' y H.
      - cbn in H. injection H as <- _. reflexivity.
      - cbn [crane_group_loop] in H.
        destruct (get_wheel_load_with_impact c0); [|discriminate].
        cbn [bind] in H. cbn [app] in H. exact (IHc _ _ _ _ _ _ H). }
    rewrite (Hhd _ _ _ _ _ _ _ E). rewrite Hx. reflexivity.
Qed.

Lemma crane_group_geometry_counts_witness :
  exists rel_positions wheel_loads group_length,
    get_crane_group_geometry [default_crane; heavy_bridge_crane]
    = Ok (rel_positions, wheel_loads, group_length)
    /\ List.length wheel_loads = List.length rel_positions
    /\ List.length rel_positions
       = list_sum (map (fun c => List.length (get_wheel_positions_relative c))
                       [default_crane; heavy_bridge_crane])
    /\ (rel_positions = [] <-> [default_crane; heavy_bridge_crane] = [])
    /\ ([default_crane; heavy_bridge_crane] <> [] -> hd 1 rel_positions == 0).
Proof.
  do 3 eexists. split; [vm_compute; reflexivity|].
  eapply crane_group_geometry_counts. vm_compute. reflexivity.
Defined.

Lemma nth_pred_length_last {X : Type} (l : list X) (d : X) :
  nth (Nat.pred (List.length l)) l d = last l d.
Proof.
  induction l as [|x l IH]; [reflexivity|].
  destruct l as [|y l]; [reflexivity|].
  cbn [List.length Nat.pred nth] in *. rewrite IH. reflexivity.
Qed.

Lemma nth_map_default {X : Type} (f : X -> Q) (l : list X) (i : nat) (dx : X) :
  (i < List.length l)%nat -> nth i (map f l) 0 = f (nth i l dx).
Proof.
  intros Hi. rewrite (nth_indep _ 0 (f dx)) by now rewrite length_map.
  apply map_nth.
Qed.

(** X4.  For two cranes packed by [get_crane_group_geometry], the distance
    from the last wheel of the first crane to the first wheel of the second
    is exactly [buffer_right] of the first plus [buffer_left] of the second,
    whatever the wheel bases, wheel counts and bridge spans. *)
Theorem two_crane_minimum_gap (c1 c2 : CraneData)
        (rel_positions wheel_loads : list Q) (group_length : Q) :
  get_crane_group_geometry [c1; c2]
  = Ok (rel_positions, wheel_loads, group_length) ->
  let n1 := List.length (get_wheel_positions_relative c1) in
  nth n1 rel_positions 0 - nth (Nat.pred n1) rel_positions 0
  == buffer_right c1 + buffer_left c2.
Proof.
  intros H n1.
  unfold get_crane_group_geometry in H. cbn [crane_group_loop] in H.
  destruct (get_wheel_load_with_impact c1) as [Pv1|e]; [|discriminate].
  cbn [bind] in H.
  destruct (get_wheel_load_with_impact c2) as [Pv2|e]; [|discriminate].
  cbn [bind fst snd app] in H. cbv zeta in H. injection H as <- _ _.
  pose proof (total_wheel_base_last c1) as Htwb.
  destruct (wheel_positions_head c1) as (x1 & l1 & Hp1 & Hx1).
  destruct (wheel_positions_head c2) as (x2 & l2 & Hp2 & Hx2).
  assert (Hn1 : n1 = List.length (map (fun w_pos => 0.0 + w_pos)
                                      (get_wheel_positions_relative c1)))
    by now rewrite length_map.
  assert (Hpos : (0 < n1)%nat).
  { unfold n1. rewrite Hp1. cbn [List.length]. lia. }
  rewrite app_nth2 by (rewrite <- Hn1; lia).
  rewrite <- Hn1, Nat.sub_diag.
  rewrite app_nth1 by (rewrite <- Hn1; lia).
  rewrite (nth_map_default _ (get_wheel_positions_relative c2) _ 0)
    by (rewrite Hp2; cbn [List.length]; lia).
  rewrite (nth_map_default _ (get_wheel_positions_relative c1) _ 0)
    by (change (Nat.pred n1 < n1)%nat; lia).
  unfold n1. rewrite nth_pred_length_last.
  rewrite Hp2. cbn [nth].
  revert Htwb. generalize (get_total_wheel_base c1).
  generalize (last (get_wheel_positions_relative c1) 0).
  intros la tw Htw. lra.
Qed.

Lemma two_crane_minimum_gap_witness :
  exists rel_positions wheel_loads group_length,
    get_crane_group_geometry [default_crane; heavy_bridge_crane]
    = Ok (rel_positions, wheel_loads, group_length)
    /\ nth 2 rel_positions 0 - nth 1 rel_positions 0 == 0.29 + 0.29.
Proof.
  do 3 eexists. split; [vm_compute; reflexivity|].
  eapply (two_crane_minimum_gap default_crane heavy_bridge_crane).
  vm_compute. reflexivity.
Defined.

(** X5.  [calc_wheel_loads] raises exactly when it takes the statics
    branch (no direct input, or no positive direct maximum) with a zero
    bridge span or a zero wheel count, and what it raises is
    [ZeroDivisionError]; direct input never raises. *)
Theorem calc_wheel_loads_raises_iff (c : CraneData) :
  (forall e, calc_wheel_loads c = Raise e -> e = ZeroDivisionError)
  /\ (calc_wheel_loads c = Raise ZeroDivisionError
      <-> use_direct_input c && Qltb 0 (direct_max_wheel_load c) = false
          /\ (bridge_span c == 0 \/ num_wheels c = 0%Z)).
Proof.
  unfold calc_wheel_loads.
  destruct (use_direct_input c && Qltb 0 (direct_max_wheel_load c)) eqn:Ed.
  { split; [discriminate|]. split; [discriminate|].
    intros [Hf _]. discriminate. }
  cbv zeta.
  destruct (Qeq_bool (bridge_span c) 0) eqn:EL.
  { apply Qeq_bool_iff in EL. rewrite !(py_div_zero _ _ EL). cbn [bind].
    split; [now intros e [= <-]|]. split; [auto|reflexivity]. }
  apply Qeq_bool_false in EL. rewrite !(py_div_ok _ _ EL). cbn [bind].
  destruct (Z.eq_dec (num_wheels c) 0) as [Hn|Hn].
  { assert (Hz : inject_Z (num_wheels c) == 0) by (rewrite Hn; reflexivity).
    rewrite !(py_div_zero _ _ Hz). cbn [bind].
    split; [now intros e [= <-]|]. split; [auto|reflexivity]. }
  rewrite !(py_div_ok _ (inject_Z (num_wheels c)))
    by now apply inject_Z_nonzero.
  cbn [bind]. split; [discriminate|]. split; [discriminate|].
  intros [_ [H|H]]; contradiction.
Qed.

Lemma calc_wheel_loads_raises_iff_witness :
  use_direct_input
    (mkCraneData 1 10.0 5.0 0.72 15.0 1.0 2.2 0.29 0.29 0 0.25 0.20 0.10
                 0.0 0.0 0.0 false 0.0 0.0 0.0) = false
  /\ calc_wheel_loads
       (mkCraneData 1 10.0 5.0 0.72 15.0 1.0 2.2 0.29 0.29 0 0.25 0.20 0.10
                    0.0 0.0 0.0 false 0.0 0.0 0.0)
     = Raise ZeroDivisionError.
Proof.
  split; [reflexivity|].
  apply (proj2 (proj2 (calc_wheel_loads_raises_iff
           (mkCraneData 1 10.0 5.0 0.72 15.0 1.0 2.2 0.29 0.29 0 0.25 0.20
                        0.10 0.0 0.0 0.0 false 0.0 0.0 0.0)))).
  split; [reflexivity | right; reflexivity].
Defined.

(* ================================================================== *)
(** * Moving-load envelope engine: maxima, minima and the sweep *)
(* ================================================================== *)

(** The scan behind [np.argmax] and [max(range(n), key=...)]: the running
    best index stays the first maximum of the part already scanned. *)
Lemma argmax_from_spec (l : list Q) :
  forall (pre : list Q) (best_i : nat) (best : Q),
    (best_i < List.length pre)%nat ->
    nth best_i pre 0 = best ->
    (forall x, In x pre -> x <= best) ->
    (forall k, (k < best_i)%nat -> nth k pre 0 < best) ->
    let r := argmax_from l (List.length pre) best_i best in
    (r < List.length (pre ++ l))%nat
    /\ (forall x, In x (pre ++ l) -> x <= nth r (pre ++ l) 0)
    /\ (forall k, (k < r)%nat -> nth k (pre ++ l) 0 < nth r (pre ++ l) 0).
Proof.
  induction l as [|x l IH]; intros pre bi best Hbi Hnth Hle Hlt.
  - cbn [argmax_from]. rewrite app_nil_r, Hnth. auto.
  - cbn [argmax_from].
    assert (Happ : pre ++ x :: l = (pre ++ [x]) ++ l)
      by (rewrite <- app_assoc; reflexivity).
    assert (Hlen : S (List.length pre) = List.length (pre ++ [x]))
      by (rewrite length_app; cbn; lia).
    rewrite Happ, Hlen.
    destruct (Qltb best x) eqn:E.
    + apply Qltb_lt in E. apply IH.
      * rewrite <- Hlen. lia.
      * rewrite app_nth2 by lia. rewrite Nat.sub_diag. reflexivity.
      * intros y Hy. apply in_app_or in Hy. destruct Hy as [Hy|[<-|[]]].
        -- apply Qlt_le_weak. eapply Qle_lt_trans; [apply Hle, Hy | exact E].
        -- apply Qle_refl.
      * intros k Hk. rewrite app_nth1 by exact Hk.
        eapply Qle_lt_trans; [|exact E]. apply Hle. now apply nth_In.
    + apply Qltb_ge in E. apply IH.
      * rewrite <- Hlen. lia.
      * rewrite app_nth1 by exact Hbi. exact Hnth.
      * intros y Hy. apply in_app_or in Hy. destruct Hy as [Hy|[<-|[]]].
        -- now apply Hle.
        -- exact E.
      * intros k Hk. rewrite app_nth1 by lia. now apply Hlt.
Qed.

Lemma argmin_from_spec (l : list Q) :
  forall (pre : list Q) (best_i : nat) (best : Q),
    (best_i < List.length pre)%nat ->
    nth best_i pre 0 = best ->
    (forall x, In x pre -> best <= x) ->
    (forall k, (k < best_i)%nat -> best < nth k pre 0) ->
    let r := argmin_from l (List.length pre) best_i best in
    (r < List.length (pre ++ l))%nat
    /\ (forall x, In x (pre ++ l) -> nth r (pre ++ l) 0 <= x)
    /\ (forall k, (k < r)%nat -> nth r (pre ++ l) 0 < nth k (pre ++ l) 0).
Proof.
  induction l as [|x l IH]; intros pre bi best Hbi Hnth Hle Hlt.
  - cbn [argmin_from]. rewrite app_nil_r, Hnth. auto.
  - cbn [argmin_from].
    assert (Happ : pre ++ x :: l = (pre ++ [x]) ++ l)
      by (rewrite <- app_assoc; reflexivity).
    assert (Hlen : S (List.length pre) = List.length (pre ++ [x]))
      by (rewrite length_app; cbn; lia).
    rewrite Happ, Hlen.
    destruct (Qltb x best) eqn:E.
    + apply Qltb_lt in E. apply IH.
      * rewrite <- Hlen. lia.
      * rewrite app_nth2 by lia. rewrite Nat.sub_diag. reflexivity.
      * intros y Hy. apply in_app_or in Hy. destruct Hy as [Hy|[<-|[]]].
        -- apply Qlt_le_weak. eapply Qlt_le_trans; [exact E | apply Hle, Hy].
        -- apply Qle_refl.
      * intros k Hk. rewrite app_nth1 by exact Hk.
        eapply Qlt_le_trans; [exact E|]. apply Hle. now apply nth_In.
    + apply Qltb_ge in E. apply IH.
      * rewrite <- Hlen. lia.
      * rewrite app_nth1 by exact Hbi. exact Hnth.
      * intros y Hy. apply in_app_or in Hy. destruct Hy as [Hy|[<-|[]]].
        -- now apply Hle.
        -- exact E.
      * intros k Hk. rewrite app_nth1 by lia. now apply Hlt.
Qed.

Lemma argmax_spec (l : list Q) :
  l <> [] ->
  (argmax l < List.length l)%nat
  /\ (forall x, In x l -> x <= nth (argmax l) l 0)
  /\ (forall k, (k < argmax l)%nat -> nth k l 0 < nth (argmax l) l 0).
Proof.
  destruct l as [|x l]; [congruence|]. intros _.
  apply (argmax_from_spec l [x] 0%nat x).
  - cbn. lia.
  - reflexivity.
  - intros y [<-|[]]. apply Qle_refl.
  - intros k Hk. lia.
Qed.

Lemma argmin_spec (l : list Q) :
  l <> [] ->
  (argmin l < List.length l)%nat
  /\ (forall x, In x l -> nth (argmin l) l 0 <= x)
  /\ (forall k, (k < argmin l)%nat -> nth (argmin l) l 0 < nth k l 0).
Proof.
  destruct l as [|x l]; [congruence|]. intros _.
  apply (argmin_from_spec l [x] 0%nat x).
  - cbn. lia.
  - reflexivity.
  - intros y [<-|[]]. apply Qle_refl.
  - intros k Hk. lia.
Qed.

(** [max(range(len(l)), key=lambda i: f(l[i]))]: the selected element is
    an element of the list, no element has a larger key, and every earlier
    element has a strictly smaller one. *)
Lemma argmax_key {X : Type} (f : X -> Q) (l : list X) (d : X) :
  l <> [] ->
  let i := argmax (map f l) in
  (i < List.length l)%nat
  /\ In (nth i l d) l
  /\ (forall c, In c l -> f c <= f (nth i l d))
  /\ (forall k, (k < i)%nat -> f (nth k l d) < f (nth i l d)).
Proof.
  intros Hne i.
  assert (Hne' : map f l <> []) by (destruct l; [congruence | discriminate]).
  destruct (argmax_spec (map f l) Hne') as (Hi & Hmax & Hfirst).
  fold i in Hi, Hmax, Hfirst. rewrite length_map in Hi.
  split; [exact Hi|]. split; [now apply nth_In|].
  rewrite (nth_map_default f l i d Hi) in Hmax, Hfirst.
  split.
  - intros c Hc. apply Hmax. now apply in_map.
  - intros k Hk. specialize (Hfirst k Hk).
    rewrite (nth_map_default f l k d) in Hfirst by lia. exact Hfirst.
Qed.

Lemma argmin_key {X : Type} (f : X -> Q) (l : list X) (d : X) :
  l <> [] ->
  let i := argmin (map f l) in
  (i < List.length l)%nat
  /\ In (nth i l d) l
  /\ (forall c, In c l -> f (nth i l d) <= f c).
Proof.
  intros Hne i.
  assert (Hne' : map f l <> []) by (destruct l; [congruence | discriminate]).
  destruct (argmin_spec (map f l) Hne') as (Hi & Hmin & _).
  fold i in Hi, Hmin. rewrite length_map in Hi.
  split; [exact Hi|]. split; [now apply nth_In|].
  rewrite (nth_map_default f l i d Hi) in Hmin.
  intros c Hc. apply Hmin. now apply in_map.
Qed.

Lemma py_max_ge_l (a b : Q) : a <= py_max a b.
Proof.
  unfold py_max. destruct (Qltb a b) eqn:E.
  - apply Qltb_lt in E. now apply Qlt_le_weak.
  - apply Qle_refl.
Qed.

(** X6.  For a nonzero span, the maximum moment that
    [analyze_single_position] reports is the bending moment
    [M(x) = R_A*x - sum of P_j*(x - x_j) over the wheels left of x] at the
    location it reports; that location is a wheel position or midspan, and
    no wheel position nor midspan has a larger moment.  The reported shear
    is at least either reaction. *)
Theorem analyze_single_position_max_moment (L first_wheel_pos : Q)
        (rel_positions wheel_loads : list Q) :
  ~ L == 0 ->
  exists r,
    analyze_single_position L first_wheel_pos rel_positions wheel_loads = Ok r
    /\ let M x := moment_at (LoadCaseResult.R_A r) x
                            (LoadCaseResult.wheel_positions r) wheel_loads in
       let stations := LoadCaseResult.wheel_positions r ++ [L / 2] in
       LoadCaseResult.M_max r = M (LoadCaseResult.M_max_location r)
       /\ In (LoadCaseResult.M_max_location r) stations
       /\ (forall x, In x stations -> M x <= LoadCaseResult.M_max r)
       /\ LoadCaseResult.moments_at_wheels r
          = map M (LoadCaseResult.wheel_positions r)
       /\ LoadCaseResult.R_A r <= LoadCaseResult.V_max r
       /\ LoadCaseResult.R_B r <= LoadCaseResult.V_max r.
Proof.
  intros HL. unfold analyze_single_position.
  rewrite (mapM_py_div (fun Px => fst Px * (L - snd Px)) L) by assumption.
  cbn [bind].
  rewrite (mapM_py_div (fun Px => fst Px * snd Px) L) by assumption.
  cbn [bind]. cbv zeta.
  set (abs_positions := map (fun rel => first_wheel_pos + rel) rel_positions).
  set (R_A := py_sum (map (fun Px => fst Px * (L - snd Px) / L)
                          (combine wheel_loads abs_positions))).
  set (R_B := py_sum (map (fun Px => fst Px * snd Px / L)
                          (combine wheel_loads abs_positions))).
  set (M := fun x => moment_at R_A x abs_positions wheel_loads).
  eexists. split; [reflexivity|].
  cbn [LoadCaseResult.R_A LoadCaseResult.R_B LoadCaseResult.wheel_positions
       LoadCaseResult.M_max LoadCaseResult.M_max_location
       LoadCaseResult.V_max LoadCaseResult.moments_at_wheels].
  assert (Hall : map M abs_positions
                  ++ [moment_at R_A (L / 2) abs_positions wheel_loads]
                 = map M (abs_positions ++ [L / 2]))
    by (rewrite map_app; reflexivity).
  rewrite Hall.
  change (fun x => moment_at R_A x abs_positions wheel_loads) with M.
  change (moment_at R_A
            (nth (argmax (map M (abs_positions ++ [L / 2])))
                 (abs_positions ++ [L / 2]) 0) abs_positions wheel_loads)
    with (M (nth (argmax (map M (abs_positions ++ [L / 2])))
                 (abs_positions ++ [L / 2]) 0)).
  assert (Hne : abs_positions ++ [L / 2] <> [])
    by (destruct abs_positions; discriminate).
  destruct (argmax_key M (abs_positions ++ [L / 2]) 0 Hne)
    as (Hi & Hin & Hmax & _).
  rewrite (nth_map_default M _ _ 0 Hi).
  split; [reflexivity|]. split; [exact Hin|]. split; [exact Hmax|].
  split; [reflexivity|]. split; [apply py_max_ge_l | apply py_max_ge_r].
Qed.

Lemma analyze_single_position_max_moment_witness :
  ~ 12 == 0
  /\ exists r,
       analyze_single_position 12 3 [0; 2.2] [50; 50] = Ok r
       /\ let M x := moment_at (LoadCaseResult.R_A r) x
                               (LoadCaseResult.wheel_positions r) [50; 50] in
          let stations := LoadCaseResult.wheel_positions r ++ [12 / 2] in
          LoadCaseResult.M_max r = M (LoadCaseResult.M_max_location r)
          /\ In (LoadCaseResult.M_max_location r) stations
          /\ (forall x, In x stations -> M x <= LoadCaseResult.M_max r)
          /\ LoadCaseResult.moments_at_wheels r
             = map M (LoadCaseResult.wheel_positions r)
          /\ LoadCaseResult.R_A r <= LoadCaseResult.V_max r
          /\ LoadCaseResult.R_B r <= LoadCaseResult.V_max r.
Proof.
  split; [discriminate|].
  apply (analyze_single_position_max_moment 12 3 [0; 2.2] [50; 50]).
  discriminate.
Defined.

(** X7.  The critical values extracted from a non-empty list of load cases
    form an envelope: the reported maximum moment and both maximum
    reactions are attained by one of the cases (whose step position, wheel
    layout and companion values are the ones reported with it) and bound
    every case from above; the minimum reactions bound every case from
    below; the reported shear is the larger of the two maximum reactions
    and bounds both reactions of every case.  Among equal maximum moments
    the first case of the sweep is the one reported. *)
Theorem extract_critical_envelope (rs : list LoadCaseResult.t) :
  rs <> [] ->
  let res := extract_critical rs in
  (exists i c, nth_error rs i = Some c
     /\ CriticalResults.M_max res = LoadCaseResult.M_max c
     /\ CriticalResults.M_max_position res = LoadCaseResult.step_position c
     /\ CriticalResults.M_max_location res = LoadCaseResult.M_max_location c
     /\ CriticalResults.M_max_R_A res = LoadCaseResult.R_A c
     /\ CriticalResults.M_max_R_B res = LoadCaseResult.R_B c
     /\ CriticalResults.M_max_wheel_positions res
        = LoadCaseResult.wheel_positions c
     /\ forall k c', (k < i)%nat -> nth_error rs k = Some c' ->
          LoadCaseResult.M_max c' < LoadCaseResult.M_max c)
  /\ (exists c, In c rs
        /\ CriticalResults.R_A_max res = LoadCaseResult.R_A c
        /\ CriticalResults.R_A_max_position res = LoadCaseResult.step_position c
        /\ CriticalResults.R_A_max_moment res = LoadCaseResult.M_max c
        /\ CriticalResults.R_A_max_R_B res = LoadCaseResult.R_B c)
  /\ (exists c, In c rs
        /\ CriticalResults.R_B_max res = LoadCaseResult.R_B c
        /\ CriticalResults.R_B_max_position res = LoadCaseResult.step_position c
        /\ CriticalResults.R_B_max_moment res = LoadCaseResult.M_max c
        /\ CriticalResults.R_B_max_R_A res = LoadCaseResult.R_A c)
  /\ (exists c, In c rs /\ CriticalResults.R_A_min res = LoadCaseResult.R_A c)
  /\ (exists c, In c rs /\ CriticalResults.R_B_min res = LoadCaseResult.R_B c)
  /\ CriticalResults.V_max res
     = py_max (CriticalResults.R_A_max res) (CriticalResults.R_B_max res)
  /\ forall c, In c rs ->
       LoadCaseResult.M_max c <= CriticalResults.M_max res
       /\ CriticalResults.R_A_min res <= LoadCaseResult.R_A c
       /\ LoadCaseResult.R_A c <= CriticalResults.R_A_max res
       /\ CriticalResults.R_B_min res <= LoadCaseResult.R_B c
       /\ LoadCaseResult.R_B c <= CriticalResults.R_B_max res
       /\ LoadCaseResult.R_A c <= CriticalResults.V_max res
       /\ LoadCaseResult.R_B c <= CriticalResults.V_max res.
Proof.
  intros Hne res. subst res.
  destruct rs as [|r0 rest] eqn:Ers; [congruence|]. rewrite <- Ers in *.
  assert (Hex : extract_critical rs
    = let at_ i := nth i rs r0 in
      let idx_M := argmax (map LoadCaseResult.M_max rs) in
      let idx_RA := argmax (map LoadCaseResult.R_A rs) in
      let idx_RB := argmax (map LoadCaseResult.R_B rs) in
      let idx_RA_min := argmin (map LoadCaseResult.R_A rs) in
      let idx_RB_min := argmin (map LoadCaseResult.R_B rs) in
      let R_A_max := LoadCaseResult.R_A (at_ idx_RA) in
      let R_B_max := LoadCaseResult.R_B (at_ idx_RB) in
      CriticalResults.mk
        (LoadCaseResult.M_max (at_ idx_M))
        (LoadCaseResult.step_position (at_ idx_M))
        (LoadCaseResult.M_max_location (at_ idx_M))
        (LoadCaseResult.R_A (at_ idx_M))
        (LoadCaseResult.R_B (at_ idx_M))
        (LoadCaseResult.wheel_positions (at_ idx_M))
        R_A_max
        (LoadCaseResult.step_position (at_ idx_RA))
        (LoadCaseResult.wheel_positions (at_ idx_RA))
        (LoadCaseResult.M_max (at_ idx_RA))
        (LoadCaseResult.R_B (at_ idx_RA))
        R_B_max
        (LoadCaseResult.step_position (at_ idx_RB))
        (LoadCaseResult.wheel_positions (at_ idx_RB))
        (LoadCaseResult.M_max (at_ idx_RB))
        (LoadCaseResult.R_A (at_ idx_RB))
        (LoadCaseResult.R_A (at_ idx_RA_min))
        (LoadCaseResult.R_B (at_ idx_RB_min))
        (py_max R_A_max R_B_max)
        rs) by (rewrite Ers; reflexivity).
  rewrite Hex. clear Hex. cbv zeta.
  cbn [CriticalResults.M_max CriticalResults.M_max_position
       CriticalResults.M_max_location CriticalResults.M_max_R_A
       CriticalResults.M_max_R_B CriticalResults.M_max_wheel_positions
       CriticalResults.R_A_max CriticalResults.R_A_max_position
       CriticalResults.R_A_max_moment CriticalResults.R_A_max_R_B
       CriticalResults.R_B_max CriticalResults.R_B_max_position
       CriticalResults.R_B_max_moment CriticalResults.R_B_max_R_A
       CriticalResults.R_A_min CriticalResults.R_B_min CriticalResults.V_max].
  destruct (argmax_key LoadCaseResult.M_max rs r0 Hne) as (HiM & HinM & HmaxM & HfirstM).
  destruct (argmax_key LoadCaseResult.R_A rs r0 Hne) as (_ & HinA & HmaxA & _).
  destruct (argmax_key LoadCaseResult.R_B rs r0 Hne) as (_ & HinB & HmaxB & _).
  destruct (argmin_key LoadCaseResult.R_A rs r0 Hne) as (_ & HinA' & HminA).
  destruct (argmin_key LoadCaseResult.R_B rs r0 Hne) as (_ & HinB' & HminB).
  set (iM := argmax (map LoadCaseResult.M_max rs)) in *.
  set (iA := argmax (map LoadCaseResult.R_A rs)) in *.
  set (iB := argmax (map LoadCaseResult.R_B rs)) in *.
  set (jA := argmin (map LoadCaseResult.R_A rs)) in *.
  set (jB := argmin (map LoadCaseResult.R_B rs)) in *.
  split.
  { exists iM, (nth iM rs r0). split; [now apply nth_error_nth'|].
    repeat (split; [reflexivity|]).
    intros k c' Hk Hc'.
    assert (Hk' : c' = nth k rs r0) by (symmetry; now apply nth_error_nth).
    subst c'. now apply HfirstM. }
  split; [exists (nth iA rs r0); repeat split; assumption|].
  split; [exists (nth iB rs r0); repeat split; assumption|].
  split; [exists (nth jA rs r0); split; [assumption | reflexivity]|].
  split; [exists (nth jB rs r0); split; [assumption | reflexivity]|].
  split; [reflexivity|].
  intros c Hc.
  split; [now apply HmaxM|]. split; [now apply HminA|].
  split; [now apply HmaxA|]. split; [now apply HminB|].
  split; [now apply HmaxB|].
  split.
  - eapply Qle_trans; [apply (HmaxA c Hc) | apply py_max_ge_l].
  - eapply Qle_trans; [apply (HmaxB c Hc) | apply py_max_ge_r].
Qed.

Lemma extract_critical_envelope_witness :
  [LoadCaseResult.mk 1 [1; 3] [50; 50] 75 25 75 3 75 [50; 75];
   LoadCaseResult.mk 2 [2; 4] [50; 50] 50 50 100 2 50 [100; 100]] <> []
  /\ forall c,
       In c [LoadCaseResult.mk 1 [1; 3] [50; 50] 75 25 75 3 75 [50; 75];
             LoadCaseResult.mk 2 [2; 4] [50; 50] 50 50 100 2 50 [100; 100]] ->
       LoadCaseResult.M_max c
       <= CriticalResults.M_max
            (extract_critical
               [LoadCaseResult.mk 1 [1; 3] [50; 50] 75 25 75 3 75 [50; 75];
                LoadCaseResult.mk 2 [2; 4] [50; 50] 50 50 100 2 50
                                  [100; 100]]).
Proof.
  assert (Hne : [LoadCaseResult.mk 1 [1; 3] [50; 50] 75 25 75 3 75 [50; 75];
                 LoadCaseResult.mk 2 [2; 4] [50; 50] 50 50 100 2 50
                                   [100; 100]] <> []) by discriminate.
  split; [exact Hne|].
  intros c Hc.
  pose proof (extract_critical_envelope _ Hne) as H.
  cbv zeta in H.
  destruct H as (_ & _ & _ & _ & _ & _ & H).
  destruct (H c Hc) as (HM & _).
  exact HM.
Defined.

(** Once the group geometry is known and has a wheel, the analysis is the
    stepping loop over the travel range followed by the extraction. *)
Lemma run_moving_load_analysis_sweep
      (fuel : nat) (L : Q) (cranes : list CraneData) (step_size : Q)
      (num_cranes_on_beam : option Z)
      (rel_positions wheel_loads : list Q) (group_length : Q) :
  let active_cranes :=
    py_slice_to cranes
      (match num_cranes_on_beam with
       | None => Z.of_nat (List.length cranes)
       | Some n => n
       end) in
  get_crane_group_geometry active_cranes
  = Ok (rel_positions, wheel_loads, group_length) ->
  rel_positions <> [] ->
  let range := travel_range L active_cranes group_length in
  run_moving_load_analysis fuel L cranes step_size num_cranes_on_beam
  = match sweep fuel L (snd range) step_size rel_positions wheel_loads
                (fst range) [] with
    | None => None
    | Some (Raise e) => Some (Raise e)
    | Some (Ok all_results) => Some (Ok (extract_critical all_results))
    end.
Proof.
  intros active_cranes Hgeo Hne range.
  unfold run_moving_load_analysis. fold active_cranes. rewrite Hgeo.
  destruct rel_positions as [|x rel]; [congruence|].
  fold range. destruct range as [start_pos end_pos]. reflexivity.
Qed.

Lemma travel_range_ordered (L : Q) (active_cranes : list CraneData)
      (group_length : Q) :
  fst (travel_range L active_cranes group_length)
  = buffer_left (hd default_crane active_cranes)
  /\ fst (travel_range L active_cranes group_length)
     <= snd (travel_range L active_cranes group_length).
Proof.
  unfold travel_range. cbv zeta.
  destruct (Qltb _ _) eqn:E; cbn [fst snd]; split; try reflexivity.
  - apply Qle_refl.
  - now apply Qltb_ge in E.
Qed.

(** The cases a returning loop appends are taken at [cur], [cur + step],
    [cur + 2 step], ..., all within the inclusive bound, and the loop stops
    at the first station beyond it. *)
Lemma sweep_stations (L end_pos step_size : Q) (rel loads : list Q) :
  forall (fuel : nat) (cur : Q) (acc rs : list LoadCaseResult.t),
    sweep fuel L end_pos step_size rel loads cur acc = Some (Ok rs) ->
    exists new,
      rs = acc ++ new
      /\ (forall k c, nth_error new k = Some c ->
            LoadCaseResult.step_position c
            == cur + inject_Z (Z.of_nat k) * step_size
            /\ LoadCaseResult.step_position c <= end_pos + 0.001
            /\ analyze_single_position L (LoadCaseResult.step_position c)
                                       rel loads = Ok c)
      /\ end_pos + 0.001
         < cur + inject_Z (Z.of_nat (List.length new)) * step_size.
Proof.
  induction fuel as [|fuel IH]; intros cur acc rs H; [discriminate|].
  rewrite sweep_S in H.
  destruct (Qle_bool cur (end_pos + 0.001)) eqn:Hc.
  - destruct (analyze_single_position L cur rel loads) as [r|e] eqn:Hr;
      [|discriminate].
    destruct (IH _ _ _ H) as (new & Hrs & Hst & Hend).
    assert (Hpos : LoadCaseResult.step_position r = cur).
    { revert Hr. unfold analyze_single_position.
      destruct (mapM _ _); [|discriminate]. cbn [bind].
      destruct (mapM _ _); [|discriminate]. cbn [bind].
      intros Hr. injection Hr as <-. reflexivity. }
    exists (r :: new). rewrite Hrs, <- app_assoc. split; [reflexivity|].
    split.
    + intros [|k] c Hk.
      * cbn in Hk. injection Hk as <-. rewrite Hpos.
        apply Qle_bool_iff in Hc.
        split; [change (inject_Z (Z.of_nat 0)) with 0; lra|].
        split; [exact Hc | exact Hr].
      * cbn [nth_error] in Hk. destruct (Hst k c Hk) as (H1 & H2 & H3).
        split; [|split; assumption].
        rewrite H1, Nat2Z.inj_succ, <- Z.add_1_r, inject_Z_plus.
        change (inject_Z 1) with 1. lra.
    + cbn [List.length]. rewrite Nat2Z.inj_succ, <- Z.add_1_r, inject_Z_plus.
      change (inject_Z 1) with 1. lra.
  - injection H as <-. exists []. rewrite app_nil_r. split; [reflexivity|].
    split; [intros [|k] c Hk; discriminate|].
    cbn [List.length]. change (inject_Z (Z.of_nat 0)) with 0.
    assert (Hn : ~ cur <= end_pos + 0.001)
      by (intros Hle; apply Qle_bool_iff in Hle; congruence).
    lra.
Qed.

(** X8.  Whenever [run_moving_load_analysis] returns for a crane group with
    a wheel, the load cases it keeps are those of
    [analyze_single_position] at the stations [start], [start + step],
    [start + 2 step], ... of the travel range, in that order; every
    station lies within the 0.001 tolerance of the end of the range, and
    the stations cover the range: the one after the last case is beyond the
    tolerance. *)
Theorem run_moving_load_analysis_stations
        (fuel : nat) (L : Q) (cranes : list CraneData) (step_size : Q)
        (num_cranes_on_beam : option Z) (res : CriticalResults.t)
        (rel_positions wheel_loads : list Q) (group_length : Q) :
  let active_cranes :=
    py_slice_to cranes
      (match num_cranes_on_beam with
       | None => Z.of_nat (List.length cranes)
       | Some n => n
       end) in
  get_crane_group_geometry active_cranes
  = Ok (rel_positions, wheel_loads, group_length) ->
  rel_positions <> [] ->
  run_moving_load_analysis fuel L cranes step_size num_cranes_on_beam
  = Some (Ok res) ->
  let start_pos := fst (travel_range L active_cranes group_length) in
  let end_pos := snd (travel_range L active_cranes group_length) in
  let cases := CriticalResults.all_results res in
  (forall k c, nth_error cases k = Some c ->
     LoadCaseResult.step_position c
     == start_pos + inject_Z (Z.of_nat k) * step_size
     /\ LoadCaseResult.step_position c <= end_pos + 0.001
     /\ analyze_single_position L (LoadCaseResult.step_position c)
                                rel_positions wheel_loads = Ok c)
  /\ end_pos + 0.001
     < start_pos + inject_Z (Z.of_nat (List.length cases)) * step_size
  /\ cases <> [].
Proof.
  intros active_cranes Hgeo Hne Hrun start_pos end_pos cases.
  pose proof (run_moving_load_analysis_sweep fuel L cranes step_size
                num_cranes_on_beam rel_positions wheel_loads group_length
                Hgeo Hne) as Hsw.
  cbv zeta in Hsw. fold active_cranes in Hsw. fold start_pos end_pos in Hsw.
  rewrite Hsw in Hrun.
  destruct (sweep fuel L end_pos step_size rel_positions wheel_loads
                  start_pos []) as [[rs|e]|] eqn:Hs; try discriminate.
  injection Hrun as <-.
  subst cases. rewrite extract_critical_all_results.
  destruct (sweep_stations _ _ _ _ _ _ _ _ _ Hs) as (new & Hrs & Hst & Hend).
  cbn [app] in Hrs. subst new.
  split; [exact Hst|]. split; [exact Hend|].
  intros ->. cbn [List.length] in Hend.
  change (inject_Z (Z.of_nat 0)) with 0 in Hend.
  destruct (travel_range_ordered L active_cranes group_length) as (_ & Hord).
  fold start_pos end_pos in Hord. lra.
Qed.

Lemma run_moving_load_analysis_stations_witness :
  exists res,
    run_moving_load_analysis 10 12 [direct_crane] 4 None = Some (Ok res)
    /\ CriticalResults.all_results res <> [].
Proof.
  destruct (get_crane_group_geometry
              (py_slice_to [direct_crane]
                           (Z.of_nat (List.length [direct_crane]))))
    as [[[rel loads] glen]|e] eqn:Hgeo; [|vm_compute in Hgeo; discriminate].
  assert (Hne : rel <> [])
    by (vm_compute in Hgeo; injection Hgeo as <- _ _; discriminate).
  destruct (run_moving_load_analysis 10 12 [direct_crane] 4 None)
    as [[res|e]|] eqn:Hrun;
    [|vm_compute in Hrun; discriminate..].
  exists res. split; [reflexivity|].
  apply (run_moving_load_analysis_stations 10 12 [direct_crane] 4 None res
           rel loads glen Hgeo Hne Hrun).
Defined.

Lemma sweep_never_returns (L end_pos step_size : Q) (rel loads : list Q) :
  ~ L == 0 -> step_size <= 0 ->
  forall (fuel : nat) (cur : Q) (acc : list LoadCaseResult.t),
    cur <= end_pos + 0.001 ->
    sweep fuel L end_pos step_size rel loads cur acc = None.
Proof.
  intros HL Hstep. induction fuel as [|fuel IH]; intros cur acc Hc;
    [reflexivity|].
  rewrite sweep_S.
  assert (Hb : Qle_bool cur (end_pos + 0.001) = true)
    by now apply Qle_bool_iff.
  rewrite Hb.
  destruct (analyze_single_position_ok L cur rel loads HL) as (r & Hr & _).
  rewrite Hr. apply IH. lra.
Qed.

(** C2, as first stated, fails: a span of zero makes the travel range of
    the default crane infeasible, the range is clamped, and the first
    position analysed divides by the span; on a 2 m span, equally
    infeasible, a step size of zero keeps the loop at the start position
    for ever. *)
Lemma infeasible_range_raises_or_never_returns :
  exists rel_positions wheel_loads group_length,
    get_crane_group_geometry [default_crane]
    = Ok (rel_positions, wheel_loads, group_length)
    /\ rel_positions <> []
    /\ 0 - buffer_right default_crane - group_length
       < buffer_left default_crane
    /\ travel_range 0 [default_crane] group_length = (0.29, 0.29)
    /\ run_moving_load_analysis 1 0 [default_crane] 0.5 None
       = Some (Raise ZeroDivisionError)
    /\ run_moving_load_analysis 100 0 [default_crane] 0.5 None
       = Some (Raise ZeroDivisionError)
    /\ 2 - buffer_right default_crane - group_length
       < buffer_left default_crane
    /\ travel_range 2 [default_crane] group_length = (0.29, 0.29)
    /\ (forall fuel,
          run_moving_load_analysis fuel 2 [default_crane] 0 None = None).
Proof.
  do 3 eexists.
  split; [vm_compute; reflexivity|].
  split; [discriminate|].
  split; [reflexivity|]. split; [reflexivity|].
  split; [vm_compute; reflexivity|].
  split; [vm_compute; reflexivity|].
  split; [reflexivity|]. split; [reflexivity|].
  intros fuel.
  match goal with
  | |- run_moving_load_analysis _ _ _ _ _ = _ =>
      erewrite (run_moving_load_analysis_sweep fuel 2 [default_crane] 0 None);
        [| vm_compute; reflexivity | discriminate]
  end.
  rewrite sweep_never_returns;
    [reflexivity | discriminate | apply Qle_refl | vm_compute; discriminate].
Qed.

(** X9.  With a step size that is zero or negative the stepping loop of
    [run_moving_load_analysis] never leaves the travel range: for a nonzero
    span and a crane group with a wheel, the analysis does not return,
    however long it runs. *)
Theorem run_moving_load_analysis_nonpositive_step
        (L : Q) (cranes : list CraneData) (step_size : Q)
        (num_cranes_on_beam : option Z)
        (rel_positions wheel_loads : list Q) (group_length : Q) :
  let active_cranes :=
    py_slice_to cranes
      (match num_cranes_on_beam with
       | None => Z.of_nat (List.length cranes)
       | Some n => n
       end) in
  get_crane_group_geometry active_cranes
  = Ok (rel_positions, wheel_loads, group_length) ->
  rel_positions <> [] ->
  ~ L == 0 -> step_size <= 0 ->
  forall fuel,
    run_moving_load_analysis fuel L cranes step_size num_cranes_on_beam = None.
Proof.
  intros active_cranes Hgeo Hne HL Hstep fuel.
  pose proof (run_moving_load_analysis_sweep fuel L cranes step_size
                num_cranes_on_beam rel_positions wheel_loads group_length
                Hgeo Hne) as Hsw.
  cbv zeta in Hsw. fold active_cranes in Hsw. rewrite Hsw.
  destruct (travel_range_ordered L active_cranes group_length) as (_ & Hord).
  rewrite sweep_never_returns; [reflexivity | assumption | assumption | lra].
Qed.

Lemma run_moving_load_analysis_nonpositive_step_witness :
  run_moving_load_analysis 1000 12 [direct_crane] 0 None = None.
Proof.
  destruct (get_crane_group_geometry
              (py_slice_to [direct_crane]
                           (Z.of_nat (List.length [direct_crane]))))
    as [[[rel loads] glen]|e] eqn:Hgeo; [|vm_compute in Hgeo; discriminate].
  assert (Hne : rel <> [])
    by (vm_compute in Hgeo; injection Hgeo as <- _ _; discriminate).
  apply (run_moving_load_analysis_nonpositive_step 12 [direct_crane] 0 None
           rel loads glen Hgeo Hne); [discriminate | apply Qle_refl].
Defined.

Lemma mapM_py_div_zero {X : Type} (f : X -> Q) (L : Q) (x : X) (l : list X) :
  L == 0 -> mapM (fun a => py_div (f a) L) (x :: l) = Raise ZeroDivisionError.
Proof.
  intros HL. cbn [mapM]. rewrite py_div_zero by assumption. reflexivity.
Qed.

(** X10.  For a span of zero and a crane group with a wheel,
    [run_moving_load_analysis] raises [ZeroDivisionError] at the first
    station (the reactions divide by the span). *)
Theorem run_moving_load_analysis_zero_span
        (fuel : nat) (L : Q) (cranes : list CraneData) (step_size : Q)
        (num_cranes_on_beam : option Z)
        (rel_positions wheel_loads : list Q) (group_length : Q) :
  let active_cranes :=
    py_slice_to cranes
      (match num_cranes_on_beam with
       | None => Z.of_nat (List.length cranes)
       | Some n => n
       end) in
  get_crane_group_geometry active_cranes
  = Ok (rel_positions, wheel_loads, group_length) ->
  rel_positions <> [] ->
  L == 0 ->
  run_moving_load_analysis (S fuel) L cranes step_size num_cranes_on_beam
  = Some (Raise ZeroDivisionError).
Proof.
  intros active_cranes Hgeo Hne HL.
  pose proof (run_moving_load_analysis_sweep (S fuel) L cranes step_size
                num_cranes_on_beam rel_positions wheel_loads group_length
                Hgeo Hne) as Hsw.
  cbv zeta in Hsw. fold active_cranes in Hsw. rewrite Hsw. clear Hsw.
  destruct (travel_range_ordered L active_cranes group_length) as (_ & Hord).
  rewrite sweep_S.
  assert (Hb : Qle_bool (fst (travel_range L active_cranes group_length))
                        (snd (travel_range L active_cranes group_length) + 0.001)
               = true) by (apply Qle_bool_iff; lra).
  rewrite Hb.
  assert (Hlen : List.length wheel_loads = List.length rel_positions).
  { revert Hgeo. unfold get_crane_group_geometry.
    destruct (crane_group_loop active_cranes 0.0 [] []) as [[r w]|e] eqn:Hloop;
      [|discriminate].
    cbn [bind fst snd]. intros Hgeo. injection Hgeo as <- <- _.
    destruct (crane_group_loop_lengths _ _ _ _ _ _ Hloop) as (H1 & H2).
    rewrite H1, H2. reflexivity. }
  destruct rel_positions as [|x rel]; [congruence|].
  destruct wheel_loads as [|P loads]; [discriminate|].
  unfold analyze_single_position. cbn [map combine].
  rewrite (mapM_py_div_zero (fun Px => fst Px * (L - snd Px)) L) by assumption.
  reflexivity.
Qed.

Lemma run_moving_load_analysis_zero_span_witness :
  run_moving_load_analysis 1 0 [direct_crane] 0.1 None
  = Some (Raise ZeroDivisionError).
Proof.
  destruct (get_crane_group_geometry
              (py_slice_to [direct_crane]
                           (Z.of_nat (List.length [direct_crane]))))
    as [[[rel loads] glen]|e] eqn:Hgeo; [|vm_compute in Hgeo; discriminate].
  assert (Hne : rel <> [])
    by (vm_compute in Hgeo; injection Hgeo as <- _ _; discriminate).
  apply (run_moving_load_analysis_zero_span 0 0 [direct_crane] 0.1 None
           rel loads glen Hgeo Hne). reflexivity.
Defined.

(** X11.  For a nonzero span and a positive step size
    [run_moving_load_analysis] returns whenever the wheel loads of the
    active cranes can be computed: the stepping loop ends after finitely
    many stations, nothing is raised, and a group with a wheel gives at
    least one load case, every case lying between the start of the travel
    range and the tolerance beyond its end. *)
Theorem run_moving_load_analysis_returns
        (L : Q) (cranes : list CraneData) (step_size : Q)
        (num_cranes_on_beam : option Z)
        (rel_positions wheel_loads : list Q) (group_length : Q) :
  let active_cranes :=
    py_slice_to cranes
      (match num_cranes_on_beam with
       | None => Z.of_nat (List.length cranes)
       | Some n => n
       end) in
  get_crane_group_geometry active_cranes
  = Ok (rel_positions, wheel_loads, group_length) ->
  ~ L == 0 -> 0 < step_size ->
  let start_pos := fst (travel_range L active_cranes group_length) in
  let end_pos := snd (travel_range L active_cranes group_length) in
  exists fuel0 : nat, forall fuel : nat, (fuel0 <= fuel)%nat ->
    exists res,
      run_moving_load_analysis fuel L cranes step_size num_cranes_on_beam
      = Some (Ok res)
      /\ (rel_positions <> [] -> CriticalResults.all_results res <> [])
      /\ Forall (fun c => start_pos <= LoadCaseResult.step_position c
                          /\ LoadCaseResult.step_position c <= end_pos + 0.001)
                (CriticalResults.all_results res).
Proof.
  intros active_cranes Hgeo HL Hstep start_pos end_pos.
  destruct rel_positions as [|x rel] eqn:Erel.
  - exists 0%nat. intros fuel _. exists CriticalResults.default.
    unfold run_moving_load_analysis. fold active_cranes. rewrite Hgeo.
    split; [reflexivity|]. split; [congruence | constructor].
  - rewrite <- Erel in *.
    assert (Hne : rel_positions <> []) by (rewrite Erel; discriminate).
    destruct (sweep_total L end_pos step_size rel_positions wheel_loads
                          start_pos HL Hstep) as (fuel0 & Hfuel0).
    exists fuel0. intros fuel Hfuel.
    destruct (Hfuel0 fuel Hfuel) as (rs & Hrs & Hall & Hrne).
    exists (extract_critical rs).
    pose proof (run_moving_load_analysis_sweep fuel L cranes step_size
                  num_cranes_on_beam rel_positions wheel_loads group_length
                  Hgeo Hne) as Hsw.
    cbv zeta in Hsw. fold active_cranes in Hsw. fold start_pos end_pos in Hsw.
    rewrite Hsw, Hrs, extract_critical_all_results.
    split; [reflexivity|]. split; [|exact Hall].
    intros _. apply Hrne.
    destruct (travel_range_ordered L active_cranes group_length) as (_ & Hord).
    fold start_pos end_pos in Hord. lra.
Qed.

Lemma run_moving_load_analysis_returns_witness :
  exists fuel0 : nat, forall fuel : nat, (fuel0 <= fuel)%nat ->
    exists res,
      run_moving_load_analysis fuel 12 [direct_crane] 0.1 None = Some (Ok res)
      /\ CriticalResults.all_results res <> [].
Proof.
  destruct (get_crane_group_geometry
              (py_slice_to [direct_crane]
                           (Z.of_nat (List.length [direct_crane]))))
    as [[[rel loads] glen]|e] eqn:Hgeo; [|vm_compute in Hgeo; discriminate].
  assert (Hne : rel <> [])
    by (vm_compute in Hgeo; injection Hgeo as <- _ _; discriminate).
  assert (HL : ~ 12 == 0) by discriminate.
  assert (Hstep : 0 < 0.1) by reflexivity.
  destruct (run_moving_load_analysis_returns 12 [direct_crane] 0.1 None
              rel loads glen Hgeo HL Hstep) as (fuel0 & H).
  exists fuel0. intros fuel Hfuel.
  destruct (H fuel Hfuel) as (res & Hres & Hcases & _).
  exists res. split; [exact Hres | exact (Hcases Hne)].
Defined.

(* ------------------------------------------------------------------ *)
(** ** Deflection *)
(* ------------------------------------------------------------------ *)

Lemma py_max_cases (a b : Q) :
  (a < b /\ py_max a b = b) \/ (b <= a /\ py_max a b = a).
Proof.
  unfold py_max. destruct (Qltb a b) eqn:E.
  - left. split; [now apply Qltb_lt | reflexivity].
  - right. split; [now apply Qltb_ge | reflexivity].
Qed.

Lemma Qle_bool_false (x y : Q) : Qle_bool x y = false -> y < x.
Proof.
  intros H. apply Qnot_le_lt. intros Hle. apply Qle_bool_iff in Hle. congruence.
Qed.

(** X12.  The two branches of [point_load_deflection] satisfy Maxwell's
    reciprocity: the deflection at [x] under a load at [a] is the deflection
    at [a] under the same load at [x]; both calls raise
    [ZeroDivisionError] together (when [6*E*I*L] is zero). *)
Theorem point_load_deflection_reciprocal (P a x L E I : Q) :
  match point_load_deflection P a x L E I,
        point_load_deflection P x a L E I with
  | Ok u, Ok v => u == v
  | Raise e1, Raise e2 => e1 = ZeroDivisionError /\ e2 = ZeroDivisionError
  | _, _ => False
  end.
Proof.
  unfold point_load_deflection, py_div. cbv zeta.
  destruct (Qeq_bool (6 * E * I * L) 0) eqn:HD.
  - destruct (Qle_bool x a), (Qle_bool a x); split; reflexivity.
  - apply Qeq_bool_false in HD.
    destruct (Qle_bool x a) eqn:H1, (Qle_bool a x) eqn:H2.
    + apply Qle_bool_iff in H1, H2.
      assert (Hxa : x == a) by lra. rewrite Hxa. reflexivity.
    + apply Qmult_comp; [ring | reflexivity].
    + apply Qmult_comp; [ring | reflexivity].
    + apply Qle_bool_false in H1, H2. lra.
Qed.

Lemma deflection_loop_spec (loads_N positions_mm : list Q) (L_mm E I : Q) :
  forall (check_points : list Q) (max_def d : Q),
    deflection_loop check_points loads_N positions_mm L_mm E I max_def = Ok d ->
    max_def <= d
    /\ (forall x terms,
          In x check_points -> 0 < x -> x < L_mm ->
          mapM (fun Pa => point_load_deflection (fst Pa) (snd Pa) x L_mm E I)
               (combine loads_N positions_mm) = Ok terms ->
          Qabs (py_sum terms) <= d)
    /\ (d = max_def
        \/ exists x terms,
             In x check_points /\ 0 < x /\ x < L_mm
             /\ mapM (fun Pa => point_load_deflection (fst Pa) (snd Pa)
                                                      x L_mm E I)
                     (combine loads_N positions_mm) = Ok terms
             /\ d = Qabs (py_sum terms)).
Proof.
  induction check_points as [|x0 rest IH]; intros max_def d H.
  - cbn [deflection_loop] in H. injection H as <-.
    split; [apply Qle_refl|]. split; [intros x terms []|]. now left.
  - cbn [deflection_loop] in H.
    destruct (Qltb 0 x0 && Qltb x0 L_mm) eqn:Hin.
    + destruct (mapM _ _) as [terms0|e] eqn:Hm; [|discriminate].
      cbn [bind] in H. cbv zeta in H.
      destruct (IH _ _ H) as (Hle & Hall & Hatt).
      apply andb_true_iff in Hin. destruct Hin as [Hx0 Hx0'].
      apply Qltb_lt in Hx0, Hx0'.
      pose proof (py_max_ge_l max_def (Qabs (py_sum terms0))) as Hl.
      pose proof (py_max_ge_r max_def (Qabs (py_sum terms0))) as Hr.
      split; [lra|]. split.
      * intros x terms [<-|Hx] H0 HL Hterms.
        -- rewrite Hm in Hterms. injection Hterms as <-. lra.
        -- now apply (Hall x terms).
      * destruct Hatt as [->|(x & terms & Hx & H0 & HL & Hterms & ->)].
        -- destruct (py_max_cases max_def (Qabs (py_sum terms0)))
             as [[_ ->]|[_ ->]].
           ++ right. exists x0, terms0. repeat split; try assumption.
              now left.
           ++ now left.
        -- right. exists x, terms. repeat split; try assumption. now right.
    + destruct (IH _ _ H) as (Hle & Hall & Hatt).
      split; [exact Hle|]. split.
      * intros x terms [<-|Hx] H0 HL Hterms.
        -- apply Qltb_lt in H0, HL. rewrite H0, HL in Hin. discriminate.
        -- now apply (Hall x terms).
      * destruct Hatt as [->|(x & terms & Hx & H0 & HL & Hterms & ->)];
          [now left|].
        right. exists x, terms. repeat split; try assumption. now right.
Qed.

(** X13.  The value [calc_deflection] returns is never negative and is the
    largest absolute deflection over the check points (midspan and the
    wheel positions, in mm) that lie strictly inside the span: it bounds
    the summed deflection at each of them, and it is either [0] or attained
    at one of them. *)
Theorem calc_deflection_is_maximum
        (wheel_loads wheel_positions : list Q) (L E I d : Q) :
  calc_deflection wheel_loads wheel_positions L E I = Ok d ->
  let L_mm := L * 1000 in
  let positions_mm := map (fun p => p * 1000) wheel_positions in
  let loads_N := map (fun P => P * 1000) wheel_loads in
  let delta x :=
    mapM (fun Pa => point_load_deflection (fst Pa) (snd Pa) x L_mm E I)
         (combine loads_N positions_mm) in
  0 <= d
  /\ (forall x terms,
        In x (L_mm / 2 :: positions_mm) -> 0 < x -> x < L_mm ->
        delta x = Ok terms -> Qabs (py_sum terms) <= d)
  /\ (d = 0
      \/ exists x terms,
           In x (L_mm / 2 :: positions_mm) /\ 0 < x /\ x < L_mm
           /\ delta x = Ok terms /\ d = Qabs (py_sum terms)).
Proof.
  unfold calc_deflection. cbv zeta. intros H.
  apply deflection_loop_spec in H. exact H.
Qed.

Lemma calc_deflection_is_maximum_witness :
  exists d, calc_deflection [50; 50] [4; 6.2] 12 200000 3.9e8 = Ok d /\ 0 <= d.
Proof.
  destruct (calc_deflection [50; 50] [4; 6.2] 12 200000 3.9e8) as [d|e] eqn:H;
    [|vm_compute in H; discriminate].
  exists d. split; [reflexivity|].
  apply (calc_deflection_is_maximum [50; 50] [4; 6.2] 12 200000 3.9e8 d H).
Defined.

Lemma deflection_loop_out_of_range (loads_N positions_mm : list Q)
      (L_mm E I : Q) :
  L_mm <= 0 ->
  forall (check_points : list Q) (max_def : Q),
    deflection_loop check_points loads_N positions_mm L_mm E I max_def
    = Ok max_def.
Proof.
  intros HL. induction check_points as [|x rest IH]; intros max_def;
    [reflexivity|].
  cbn [deflection_loop].
  assert (Hin : Qltb 0 x && Qltb x L_mm = false).
  { destruct (Qltb 0 x) eqn:H0; [|reflexivity].
    destruct (Qltb x L_mm) eqn:H1; [|reflexivity].
    apply Qltb_lt in H0, H1. lra. }
  rewrite Hin. apply IH.
Qed.

Lemma point_load_deflection_ok (P a x L E I : Q) :
  ~ 6 * E * I * L == 0 ->
  exists u, point_load_deflection P a x L E I = Ok u.
Proof.
  intros HD. unfold point_load_deflection. cbv zeta.
  destruct (Qle_bool x a); rewrite py_div_ok by assumption; eexists; reflexivity.
Qed.

Lemma point_load_deflection_zero (P a x L E I : Q) :
  6 * E * I * L == 0 ->
  point_load_deflection P a x L E I = Raise ZeroDivisionError.
Proof.
  intros HD. unfold point_load_deflection. cbv zeta.
  destruct (Qle_bool x a); now rewrite py_div_zero.
Qed.

Lemma mapM_deflection_ok (x L E I : Q) (pairs : list (Q * Q)) :
  ~ 6 * E * I * L == 0 ->
  exists terms,
    mapM (fun Pa => point_load_deflection (fst Pa) (snd Pa) x L E I) pairs
    = Ok terms.
Proof.
  intros HD. induction pairs as [|p pairs (terms & IH)].
  - exists []. reflexivity.
  - destruct (point_load_deflection_ok (fst p) (snd p) x L E I HD) as (u & Hu).
    exists (u :: terms). cbn [mapM]. rewrite Hu. cbn [bind]. rewrite IH.
    reflexivity.
Qed.

Lemma deflection_loop_ok (loads_N positions_mm : list Q) (L_mm E I : Q) :
  ~ 6 * E * I * L_mm == 0 ->
  forall (check_points : list Q) (max_def : Q),
    exists d,
      deflection_loop check_points loads_N positions_mm L_mm E I max_def = Ok d.
Proof.
  intros HD. induction check_points as [|x rest IH]; intros max_def.
  - exists max_def. reflexivity.
  - cbn [deflection_loop]. destruct (Qltb 0 x && Qltb x L_mm); [|apply IH].
    destruct (mapM_deflection_ok x L_mm E I (combine loads_N positions_mm) HD)
      as (terms & Ht).
    rewrite Ht. cbn [bind]. cbv zeta. apply IH.
Qed.

(** X14.  [calc_deflection] returns [0] without dividing when the span is
    not positive (no check point lies inside it); it returns for every
    input with a nonzero span, modulus and inertia; and for a positive span
    carrying a wheel it raises [ZeroDivisionError] when [E*I] is zero. *)
Theorem calc_deflection_raises
        (wheel_loads wheel_positions : list Q) (L E I : Q) :
  (L <= 0 -> calc_deflection wheel_loads wheel_positions L E I = Ok 0)
  /\ (~ E * I * L == 0 ->
      exists d, calc_deflection wheel_loads wheel_positions L E I = Ok d)
  /\ (0 < L -> E * I == 0 -> wheel_loads <> [] -> wheel_positions <> [] ->
      calc_deflection wheel_loads wheel_positions L E I
      = Raise ZeroDivisionError).
Proof.
  unfold calc_deflection. cbv zeta. split; [|split].
  - intros HL. apply deflection_loop_out_of_range. lra.
  - intros HD. apply deflection_loop_ok.
    intros H. apply HD.
    assert (H' : 6000 * (E * I * L) == 0) by (rewrite <- H; ring).
    apply Qmult_integral in H'. destruct H' as [H'|H']; [discriminate H'|exact H'].
  - intros HL HEI Hl Hp.
    destruct wheel_loads as [|P loads]; [congruence|].
    destruct wheel_positions as [|p pos]; [congruence|].
    cbn [app map deflection_loop].
    assert (Hin : Qltb 0 (L * 1000 / 2) && Qltb (L * 1000 / 2) (L * 1000) = true).
    { apply andb_true_iff. split; apply Qltb_lt.
      - assert (H : L * 1000 / 2 == L * 500) by field. rewrite H. lra.
      - assert (H : L * 1000 / 2 == L * 500) by field. rewrite H. lra. }
    rewrite Hin. cbn [combine mapM fst snd].
    rewrite point_load_deflection_zero; [reflexivity|].
    assert (H : 6 * E * I * (L * 1000) == 6000 * L * (E * I)) by ring.
    rewrite H, HEI. ring.
Qed.

Lemma calc_deflection_raises_witness :
  calc_deflection [50; 50] [4; 6.2] 0 200000 3.9e8 = Ok 0
  /\ calc_deflection [50; 50] [4; 6.2] 12 200000 0 = Raise ZeroDivisionError.
Proof.
  split.
  - apply (calc_deflection_raises [50; 50] [4; 6.2] 0 200000 3.9e8).
    apply Qle_refl.
  - apply (calc_deflection_raises [50; 50] [4; 6.2] 12 200000 0);
      [reflexivity | reflexivity | discriminate | discriminate].
Defined.

Lemma py_max_same (a b c : Q) : a == c -> b == c -> py_max a b == c.
Proof.
  intros Ha Hb. destruct (py_max_cases a b) as [[_ ->]|[_ ->]]; assumption.
Qed.

Lemma py_max_zero_abs (a : Q) : py_max 0 (Qabs a) == Qabs a.
Proof.
  pose proof (Qabs_nonneg a) as Hn.
  destruct (py_max_cases 0 (Qabs a)) as [[_ ->]|[Hle ->]]; [reflexivity | lra].
Qed.

(** X15.  For a single wheel standing at midspan of a positive span,
    [calc_deflection] returns the textbook midspan deflection
    [P L^3 / (48 E I)] of a simply supported beam (in absolute value, with
    the load in N and the span in mm). *)
Theorem calc_deflection_midspan_load (P L E I : Q) :
  0 < L -> ~ E * I == 0 ->
  exists d,
    calc_deflection [P] [L / 2] L E I = Ok d
    /\ d == Qabs (P * 1000 * (L * 1000) ^ 3 / (48 * E * I)).
Proof.
  intros HL HEI.
  assert (HE : ~ E == 0) by (intros H; apply HEI; rewrite H; ring).
  assert (HI : ~ I == 0) by (intros H; apply HEI; rewrite H; ring).
  assert (HL0 : ~ L == 0) by lra.
  assert (HD : ~ 6 * E * I * (L * 1000) == 0).
  { intros H. assert (H' : 6000 * L * (E * I) == 0) by (rewrite <- H; ring).
    apply Qmult_integral in H'. destruct H' as [H'|H']; [|contradiction].
    apply Qmult_integral in H'. destruct H' as [H'|H']; [discriminate H'|contradiction]. }
  assert (Hpt : forall x, x == L * 500 ->
            exists u,
              point_load_deflection (P * 1000) (L / 2 * 1000) x (L * 1000) E I
              = Ok u
              /\ u == P * 1000 * (L * 1000) ^ 3 / (48 * E * I)).
  { intros x Hx. unfold point_load_deflection. cbv zeta.
    assert (Hle : Qle_bool x (L / 2 * 1000) = true).
    { apply Qle_bool_iff. rewrite Hx.
      assert (H : L / 2 * 1000 == L * 500) by field. rewrite H. apply Qle_refl. }
    rewrite Hle, py_div_ok by assumption.
    eexists. split; [reflexivity|]. rewrite Hx. field. repeat split; assumption. }
  assert (Hrange : forall x, x == L * 500 ->
            Qltb 0 x && Qltb x (L * 1000) = true).
  { intros x Hx. apply andb_true_iff. split; apply Qltb_lt; rewrite Hx; lra. }
  unfold calc_deflection. cbv zeta. cbn [map app deflection_loop].
  assert (H1 : L * 1000 / 2 == L * 500) by field.
  assert (H2 : L / 2 * 1000 == L * 500) by field.
  rewrite (Hrange _ H1). cbn [combine mapM fst snd].
  destruct (Hpt _ H1) as (u1 & Hu1 & Eu1). rewrite Hu1. cbn [bind]. cbv zeta.
  rewrite (Hrange _ H2). cbn [mapM fst snd].
  destruct (Hpt _ H2) as (u2 & Hu2 & Eu2). rewrite Hu2. cbn [bind].
  eexists. split; [reflexivity|].
  assert (S1 : py_sum [u1] == u1) by (unfold py_sum; cbn [fold_left]; ring).
  assert (S2 : py_sum [u2] == u2) by (unfold py_sum; cbn [fold_left]; ring).
  apply py_max_same.
  - rewrite py_max_zero_abs. now rewrite S1, Eu1.
  - now rewrite S2, Eu2.
Qed.

Lemma calc_deflection_midspan_load_witness :
  exists d,
    calc_deflection [100] [12 / 2] 12 200000 3.9e8 = Ok d
    /\ d == Qabs (100 * 1000 * (12 * 1000) ^ 3 / (48 * 200000 * 3.9e8)).
Proof.
  apply (calc_deflection_midspan_load 100 12 200000 3.9e8);
    [reflexivity | discriminate].
Defined.

(* ------------------------------------------------------------------ *)
(** ** Section properties *)
(* ------------------------------------------------------------------ *)

Lemma py_max_left (a b : Q) : b <= a -> py_max a b = a.
Proof.
  intros H. unfold py_max.
  destruct (Qltb a b) eqn:E; [apply Qltb_lt in E; lra | reflexivity].
Qed.

Lemma Qhalf_nonzero (x : Q) : 0 < x -> ~ x / 2 == 0.
Proof.
  intros H. assert (Hh : x / 2 == x * (1 # 2)) by field. rewrite Hh. lra.
Qed.

(** The parallel-axis computation of [built_up_geometry] on a doubly
    symmetric I-section without cap. *)
Lemma built_up_geometry_symmetric (s s' : SteelSection) :
  bf_bot s = bf_top s -> tf_bot s = tf_top s ->
  d s == hw s + 2 * tf_top s ->
  has_cap s = false ->
  1 <= 2 * bf_top s * tf_top s + hw s * tw s ->
  0 < d s ->
  built_up_geometry s = Ok s' ->
  A s' == 2 * bf_top s * tf_top s + hw s * tw s
  /\ y_bar s' == d s / 2
  /\ Ix s' == (bf_top s * d s ^ 3 - (bf_top s - tw s) * hw s ^ 3) / 12
  /\ Sx s' == Ix s' / (d s / 2)
  /\ ho s' == d s - tf_top s.
Proof.
  intros H1 H2 H3 Hcap HA Hd.
  destruct s as [nm ty d' bf' tf' tw' r' bt tt bb tb h' hc cn cA cIx cIy cd
                   ccy A' Ix' Iy' Sx' Sy' Zx' rx' ry' rts' J' Cw' ho' yb' ms].
  sec_simpl. subst bb tb hc.
  unfold built_up_geometry. sec_simpl. cbn [andb bind].
  assert (HAI : 1 <= bt * tt + bt * tt + h' * tw') by lra.
  assert (HAI0 : ~ bt * tt + bt * tt + h' * tw' == 0) by lra.
  pose proof (Qhalf_nonzero d' Hd) as Hd2.
  rewrite (py_max_left _ 1 HAI).
  rewrite py_div_ok by lra. cbn [bind]. sec_simpl. cbn [andb].
  sec_simpl.
  match goal with
  | |- context [py_div ?n (py_max ?a ?b)] =>
      set (N := n); set (ct := a); set (cb := b)
  end.
  assert (Hcb : cb == d' / 2) by (rewrite H3; subst cb; field; exact HAI0).
  assert (Hct : ct == d' / 2) by (subst ct cb; rewrite H3; field; exact HAI0).
  assert (Hm : py_max ct cb == d' / 2) by (apply py_max_same; assumption).
  rewrite py_div_ok by (rewrite Hm; exact Hd2). cbn [bind]. sec_simpl.
  match goal with
  | |- context [py_div ?n ?m] => destruct (py_div n m) as [sy|e]; [|discriminate]
  end.
  cbn [bind]. sec_simpl. intros H. injection H as <-. sec_simpl.
  split; [ring|]. split; [exact Hcb|].
  split; [rewrite H3; subst N; field; exact HAI0|].
  split; [rewrite Hm; reflexivity|]. field.
Qed.

Lemma built_up_defaults_keeps (s : SteelSection) :
  d (built_up_defaults s) = d s /\ tw (built_up_defaults s) = tw s
  /\ has_cap (built_up_defaults s) = has_cap s.
Proof.
  unfold built_up_defaults, flange_defaults.
  destruct (Qeq_bool (bf_top s) 0); sec_simpl;
    destruct (Qeq_bool (hw s) 0); sec_simpl; repeat split; reflexivity.
Qed.

(** X16.  For a doubly symmetric built-up I-section without cap channel
    (equal flanges after defaulting, depth equal to web height plus both
    flange thicknesses, at least 1 mm^2 of steel), [calc_props] places the
    centroid at mid-depth and its parallel-axis sums give the closed forms
    [A = 2 b t + h tw] and [Ix = (b d^3 - (b - tw) h^3) / 12], with
    [Sx = Ix / (d/2)] and [ho = d - t]. *)
Theorem calc_props_symmetric_built_up
        (sqrt : Q -> Q) (s s' : SteelSection) :
  sec_type s = "built_up"%string ->
  has_cap s = false ->
  let s0 := built_up_defaults s in
  let b := bf_top s0 in
  let t := tf_top s0 in
  let h := hw s0 in
  bf_bot s0 = b -> tf_bot s0 = t ->
  d s == h + 2 * t ->
  1 <= 2 * b * t + h * tw s ->
  0 < d s ->
  calc_props sqrt s = Ok s' ->
  A s' == 2 * b * t + h * tw s
  /\ y_bar s' == d s / 2
  /\ Ix s' == (b * d s ^ 3 - (b - tw s) * h ^ 3) / 12
  /\ Sx s' == Ix s' / (d s / 2)
  /\ ho s' == d s - t.
Proof.
  intros Hty Hcap s0 b t h Hb Ht Hdh HA Hd.
  unfold calc_props. rewrite Hty. cbn [String.eqb Ascii.eqb Bool.eqb].
  unfold _calc_built_up_props. cbv zeta. fold s0.
  destruct (built_up_geometry s0) as [g|e] eqn:Hg; [|discriminate].
  cbn [bind]. intros Hc.
  destruct (built_up_defaults_keeps s) as (Kd & Ktw & Kcap).
  fold s0 in Kd, Ktw, Kcap.
  apply built_up_geometry_symmetric in Hg;
    [| assumption | assumption | rewrite Kd; exact Hdh
     | rewrite Kcap; exact Hcap | rewrite Ktw; exact HA
     | rewrite Kd; exact Hd].
  rewrite Kd, Ktw in Hg. fold b t h in Hg.
  destruct (common_props_spec sqrt g s' Hc)
    as (a' & b' & z & j & c & v & m & Hs' & _).
  subst s'. destruct g. sec_simpl. exact Hg.
Qed.

Lemma calc_props_symmetric_built_up_witness :
  exists s',
    calc_props sqrt_approx plate_girder = Ok s'
    /\ A s' == 14680 /\ y_bar s' == 350 /\ ho s' == 684.
Proof.
  destruct (calc_props sqrt_approx plate_girder) as [s'|e] eqn:H;
    [|vm_compute in H; discriminate].
  exists s'. split; [reflexivity|].
  assert (Hty : sec_type plate_girder = "built_up"%string) by reflexivity.
  assert (Hcap : has_cap plate_girder = false) by reflexivity.
  assert (Hb : bf_bot (built_up_defaults plate_girder)
               = bf_top (built_up_defaults plate_girder)) by reflexivity.
  assert (Ht : tf_bot (built_up_defaults plate_girder)
               = tf_top (built_up_defaults plate_girder)) by reflexivity.
  assert (Hd : d plate_girder
               == hw (built_up_defaults plate_girder)
                  + 2 * tf_top (built_up_defaults plate_girder))
    by reflexivity.
  assert (HA : 1 <= 2 * bf_top (built_up_defaults plate_girder)
                    * tf_top (built_up_defaults plate_girder)
                    + hw (built_up_defaults plate_girder) * tw plate_girder)
    by (vm_compute; discriminate).
  assert (Hpos : 0 < d plate_girder) by reflexivity.
  destruct (calc_props_symmetric_built_up sqrt_approx plate_girder s'
              Hty Hcap Hb Ht Hd HA Hpos H) as (KA & Ky & _ & _ & Kho).
  split; [rewrite KA; vm_compute; reflexivity|].
  split; [rewrite Ky | rewrite Kho]; vm_compute; reflexivity.
Defined.

(* ------------------------------------------------------------------ *)
(** ** Strength checks *)
(* ------------------------------------------------------------------ *)

Lemma status_of_OK (ratio : Q) :
  status_of ratio = "OK"%string <-> ratio <= 1.
Proof.
  unfold status_of. destruct (Qle_bool ratio 1.0) eqn:E.
  - apply Qle_bool_iff in E. split; [intros _; lra | reflexivity].
  - split; [discriminate|]. intros H.
    assert (H' : ratio <= 1.0) by lra.
    apply Qle_bool_iff in H'. congruence.
Qed.

Lemma Qdiv_le_one (a b : Q) : 0 < b -> (a / b <= 1 <-> a <= b).
Proof.
  intros Hb. split; intros H.
  - apply (Qmult_le_r _ _ b Hb) in H.
    assert (E : a / b * b == a) by (field; lra).
    rewrite E in H. lra.
  - apply Qle_shift_div_r; [exact Hb|]. lra.
Qed.

Lemma Qdiv_pos_neg (a b : Q) : 0 < a -> b < 0 -> a / b < 0.
Proof.
  intros Ha Hb.
  assert (E : a / b == - (a / - b)) by (field; lra).
  assert (H : 0 < a / - b) by (apply Qdiv_pos; lra).
  rewrite E. lra.
Qed.

Lemma class_of_cases (x p r : Q) :
  let cls := if Qle_bool x p then "Compact"%string
             else if Qle_bool x r then "Noncompact"%string
             else "Slender"%string in
  (cls = "Compact"%string <-> x <= p)
  /\ (cls = "Slender"%string <-> p < x /\ r < x).
Proof.
  cbv zeta. destruct (Qle_bool x p) eqn:E1.
  - apply Qle_bool_iff in E1. split; split; try discriminate; try tauto.
    intros [H _]. lra.
  - apply Qle_bool_false in E1. destruct (Qle_bool x r) eqn:E2.
    + apply Qle_bool_iff in E2. split; split; try discriminate.
      * intros H. lra.
      * intros [_ H]. lra.
    + apply Qle_bool_false in E2. split; split; try discriminate.
      * intros H. lra.
      * intros _. split; assumption.
      * reflexivity.
Qed.

(** X17.  [check_compactness] returns exactly for a positive yield stress:
    it raises [ZeroDivisionError] for [Fy == 0] and [ValueError] (square
    root of a negative number) for [Fy < 0], whatever the section; a zero
    thickness does not raise but gives the slenderness 999.  When it
    returns, each element is classified against the two limits and
    [compact] holds exactly when flange and web are both "Compact". *)
Theorem check_compactness_behaviour (sqrt : Q -> Q) (sec : SteelSection)
        (Fy : Q) :
  (Fy == 0 -> check_compactness sqrt sec Fy = Raise ZeroDivisionError)
  /\ (Fy < 0 -> check_compactness sqrt sec Fy = Raise ValueError)
  /\ (0 < Fy ->
      exists res,
        check_compactness sqrt sec Fy = Ok res
        /\ Cmp.lambda_pf res = 0.38 * sqrt (E_STEEL / Fy)
        /\ Cmp.lambda_rf res = 1.0 * sqrt (E_STEEL / Fy)
        /\ Cmp.lambda_pw res = 3.76 * sqrt (E_STEEL / Fy)
        /\ Cmp.lambda_rw res = 5.70 * sqrt (E_STEEL / Fy)
        /\ (tw sec <= 0 -> Cmp.lambda_w res = 999)
        /\ (Cmp.flange_class res = "Compact"%string
            <-> Cmp.lambda_f res <= Cmp.lambda_pf res)
        /\ (Cmp.flange_class res = "Slender"%string
            <-> Cmp.lambda_pf res < Cmp.lambda_f res
                /\ Cmp.lambda_rf res < Cmp.lambda_f res)
        /\ (Cmp.web_class res = "Compact"%string
            <-> Cmp.lambda_w res <= Cmp.lambda_pw res)
        /\ (Cmp.web_class res = "Slender"%string
            <-> Cmp.lambda_pw res < Cmp.lambda_w res
                /\ Cmp.lambda_rw res < Cmp.lambda_w res)
        /\ (Cmp.compact res = true
            <-> Cmp.flange_class res = "Compact"%string
                /\ Cmp.web_class res = "Compact"%string)).
Proof.
  set (tf' := if Qltb 0 (tf_top sec) then py_min (tf_top sec) (tf_bot sec)
              else tf sec).
  set (bf' := if Qltb 0 (bf_top sec) then py_max (bf_top sec) (bf_bot sec)
              else bf sec).
  assert (Hlf : exists lf,
             (if Qltb 0 tf' then py_div bf' (2 * tf') else Ok 999) = Ok lf).
  { destruct (Qltb 0 tf') eqn:E; [|eexists; reflexivity].
    apply Qltb_lt in E. rewrite py_div_ok by lra. eexists. reflexivity. }
  destruct Hlf as (lf & Hlf).
  assert (Hlw : exists lw,
             (if Qltb 0 (tw sec)
              then py_div (if Qltb 0 (hw sec) then hw sec
                           else d sec - 2 * tf sec) (tw sec)
              else Ok 999) = Ok lw
             /\ (tw sec <= 0 -> lw = 999)).
  { destruct (Qltb 0 (tw sec)) eqn:E.
    - apply Qltb_lt in E. rewrite py_div_ok by lra. eexists.
      split; [reflexivity|]. intros H. lra.
    - eexists. split; reflexivity. }
  destruct Hlw as (lw & Hlw & Hlw9).
  unfold check_compactness. cbv zeta. fold tf' bf'. rewrite Hlf. cbn [bind].
  split; [|split].
  - intros H. rewrite py_div_zero by assumption. reflexivity.
  - intros H. rewrite py_div_ok by lra. cbn [bind].
    pose proof (Qdiv_pos_neg E_STEEL Fy eq_refl H) as Hneg.
    unfold math_sqrt. apply Qltb_lt in Hneg. rewrite Hneg. reflexivity.
  - intros H. rewrite !py_div_ok by lra. cbn [bind].
    assert (Hpos : 0 <= E_STEEL / Fy)
      by (apply Qlt_le_weak, Qdiv_pos; [reflexivity | exact H]).
    rewrite !(math_sqrt_ok sqrt _ Hpos). cbn [bind].
    rewrite Hlw. cbn [bind].
    eexists. split; [reflexivity|].
    cbn [Cmp.lambda_f Cmp.lambda_pf Cmp.lambda_rf Cmp.flange_class
         Cmp.lambda_w Cmp.lambda_pw Cmp.lambda_rw Cmp.web_class Cmp.compact].
    do 4 (split; [reflexivity|]). split; [exact Hlw9|].
    pose proof (class_of_cases lf (0.38 * sqrt (E_STEEL / Fy))
                               (1.0 * sqrt (E_STEEL / Fy))) as [F1 F2].
    pose proof (class_of_cases lw (3.76 * sqrt (E_STEEL / Fy))
                               (5.70 * sqrt (E_STEEL / Fy))) as [W1 W2].
    cbv zeta in F1, F2, W1, W2.
    split; [exact F1|]. split; [exact F2|]. split; [exact W1|].
    split; [exact W2|].
    rewrite andb_true_iff, !String.eqb_eq. reflexivity.
Qed.

(** X18.  [check_web_local_yielding] never raises; whenever the allowable
    capacity [Rn / 1.5] is positive the reported ratio is the applied
    reaction over it, and the status is "OK" exactly when the applied
    reaction does not exceed the allowable capacity.  For a non-negative
    [Fy * tw * k] the support formula ([2.5 k]) never gives more capacity
    than the interior one ([5 k]). *)
Theorem check_web_local_yielding_status (sec : SteelSection) (Fy R lb : Q)
        (at_support : bool) :
  let res := check_web_local_yielding sec Fy R lb at_support in
  WLY.Rn_allow res = WLY.Rn res / OMEGA_WLY
  /\ (0 < WLY.Rn_allow res ->
      WLY.ratio res = R / WLY.Rn_allow res
      /\ (WLY.status res = "OK"%string <-> R <= WLY.Rn_allow res))
  /\ (0 <= Fy * tw sec * WLY.k res ->
      WLY.Rn (check_web_local_yielding sec Fy R lb true)
      <= WLY.Rn (check_web_local_yielding sec Fy R lb false)).
Proof.
  unfold check_web_local_yielding. cbv zeta.
  cbn [WLY.Rn_allow WLY.Rn WLY.ratio WLY.status WLY.k].
  split; [reflexivity|]. split.
  - intros H. pose proof H as Hb. apply Qltb_lt in Hb. rewrite Hb.
    split; [reflexivity|].
    rewrite status_of_OK. now apply Qdiv_le_one.
  - set (k := if Qltb 0 (r sec) then tf sec + r sec else tf sec * 1.5).
    intros H.
    assert (E : Fy * tw sec * (5 * k + lb) / 1000
                - Fy * tw sec * (2.5 * k + lb) / 1000
                == (Fy * tw sec * k) * (25 # 10000)) by field.
    lra.
Qed.

Lemma check_web_local_yielding_status_witness :
  0 < WLY.Rn_allow (check_web_local_yielding ipe200 235 50 100 true)
  /\ WLY.ratio (check_web_local_yielding ipe200 235 50 100 true)
     = 50 / WLY.Rn_allow (check_web_local_yielding ipe200 235 50 100 true).
Proof.
  assert (H : 0 < WLY.Rn_allow
                    (check_web_local_yielding ipe200 235 50 100 true))
    by (vm_compute; reflexivity).
  split; [exact H|].
  apply (proj1 (proj2 (check_web_local_yielding_status ipe200 235 50 100
                         true))).
  exact H.
Defined.

(** X19.  [check_fatigue] returns exactly for a positive cycle count: a
    count of zero raises [ZeroDivisionError] and a negative one
    [TypeError].  When it returns, the allowable stress range is never
    below the threshold [FTH] of the category and is positive, so the
    ratio is always the quotient of the two stress ranges (the sentinel 999
    is never produced), and the status is "OK" exactly when the stress
    range does not exceed the allowable one. *)
Theorem check_fatigue_behaviour (fpow : Q -> Q -> Q) (sec : SteelSection)
        (M_range : Q) (N_cycles : Z) (category : string) :
  (N_cycles = 0%Z ->
   check_fatigue fpow sec M_range N_cycles category = Raise ZeroDivisionError)
  /\ ((N_cycles < 0)%Z ->
      check_fatigue fpow sec M_range N_cycles category = Raise TypeError)
  /\ ((0 < N_cycles)%Z ->
      exists res,
        check_fatigue fpow sec M_range N_cycles category = Ok res
        /\ Fatigue.FTH res <= Fatigue.F_sr res
        /\ 0 < Fatigue.FTH res
        /\ Fatigue.ratio res = Fatigue.f_sr res / Fatigue.F_sr res
        /\ (Fatigue.status res = "OK"%string
            <-> Fatigue.f_sr res <= Fatigue.F_sr res)
        /\ (0 < Sx sec -> Fatigue.f_sr res = M_range * 1e6 / Sx sec)).
Proof.
  split; [|split].
  - intros ->. unfold check_fatigue. cbv zeta.
    rewrite py_div_zero by reflexivity. reflexivity.
  - intros HN. unfold check_fatigue. cbv zeta.
    assert (Hn : inject_Z N_cycles < 0)
      by (rewrite (Zlt_Qlt N_cycles 0) in HN; exact HN).
    rewrite py_div_ok by lra. cbn [bind].
    pose proof (Qdiv_pos_neg _ _ (Cf_positive category) Hn) as Hneg.
    apply Qltb_lt in Hneg. rewrite Hneg. reflexivity.
  - intros HN.
    destruct (check_fatigue_ok fpow sec M_range N_cycles category HN)
      as [HF Hres].
    cbv zeta in HF, Hres. eexists. split; [exact Hres|].
    cbn [Fatigue.FTH Fatigue.F_sr Fatigue.ratio Fatigue.status Fatigue.f_sr].
    split; [apply py_max_ge_r|]. split; [apply FTH_positive|].
    split; [reflexivity|].
    split; [rewrite status_of_OK; now apply Qdiv_le_one|].
    intros HS. apply Qltb_lt in HS. rewrite HS. reflexivity.
Qed.

Lemma check_fatigue_behaviour_witness :
  check_fatigue fpow_approx ipe200 20 0 "E" = Raise ZeroDivisionError
  /\ check_fatigue fpow_approx ipe200 20 (-5) "E" = Raise TypeError
  /\ exists res, check_fatigue fpow_approx ipe200 20 2000000 "E" = Ok res.
Proof.
  split; [|split].
  - apply (check_fatigue_behaviour fpow_approx ipe200 20 0 "E"). reflexivity.
  - apply (check_fatigue_behaviour fpow_approx ipe200 20 (-5) "E").
    reflexivity.
  - destruct (proj2 (proj2 (check_fatigue_behaviour fpow_approx ipe200 20
                              2000000 "E")) eq_refl) as (res & Hres & _).
    exists res. exact Hres.
Defined.

Lemma crippling_formula_behaviour (sqrt : Q -> Q) (fpow : Q -> Q -> Q)
      (c0 coef : Q) (sec : SteelSection) (Fy tf' : Q) :
  (tf' == 0 ->
   crippling_formula sqrt fpow c0 coef sec Fy tf' = Raise ZeroDivisionError)
  /\ (~ tf' == 0 -> tw sec == 0 ->
      crippling_formula sqrt fpow c0 coef sec Fy tf' = Raise ZeroDivisionError)
  /\ (0 < tf' -> 0 < tw sec -> Fy < 0 ->
      crippling_formula sqrt fpow c0 coef sec Fy tf' = Raise ValueError)
  /\ (0 < tf' -> 0 < tw sec -> 0 <= Fy ->
      crippling_formula sqrt fpow c0 coef sec Fy tf'
      = Ok (c0 * tw sec ^ 2 * (1 + coef * fpow (tw sec / tf') 1.5)
            * sqrt (E_STEEL * Fy * tf' / tw sec) / 1000)).
Proof.
  unfold crippling_formula. repeat split.
  - intros H. now rewrite py_div_zero.
  - intros H1 H2. rewrite py_div_ok by assumption. cbn [bind].
    now rewrite py_div_zero.
  - intros H1 H2 H3. rewrite !py_div_ok by lra. cbn [bind].
    assert (Hq : E_STEEL * Fy * tf' / tw sec < 0).
    { assert (E : E_STEEL * Fy * tf' / tw sec
                  == - ((E_STEEL * - Fy * tf') / tw sec)) by (field; lra).
      assert (Hp : 0 < E_STEEL * - Fy * tf' / tw sec).
      { apply Qdiv_pos; [|exact H2].
        apply Qmult_lt_0_compat; [|exact H1].
        apply Qmult_lt_0_compat; [reflexivity | lra]. }
      rewrite E. lra. }
    unfold math_sqrt. apply Qltb_lt in Hq. rewrite Hq. reflexivity.
  - intros H1 H2 H3. rewrite !py_div_ok by lra. cbn [bind].
    assert (Hq : 0 <= E_STEEL * Fy * tf' / tw sec).
    { apply Qle_shift_div_l; [exact H2|]. rewrite Qmult_0_l.
      apply Qmult_le_0_compat; [|lra].
      apply Qmult_le_0_compat; [discriminate | exact H3]. }
    rewrite (math_sqrt_ok sqrt _ Hq). cbn [bind].
    assert (Ht : 0 <= tw sec / tf') by (apply Qlt_le_weak, Qdiv_pos; assumption).
    apply Qltb_ge in Ht. rewrite Ht. reflexivity.
Qed.

(** X20.  [check_web_crippling] divides before it guards: it raises
    [ZeroDivisionError] for a zero depth, a zero (effective) flange
    thickness or a zero web thickness, and [ValueError] for a negative
    yield stress; for a nonzero depth, positive thicknesses and a
    non-negative yield stress it returns, with status "OK" exactly when the
    applied reaction does not exceed a positive allowable capacity
    [Rn / 2]. *)
Theorem check_web_crippling_behaviour (sqrt : Q -> Q) (fpow : Q -> Q -> Q)
        (sec : SteelSection) (Fy R lb : Q) (at_support : bool) :
  let tf' := if Qltb 0 (tf_top sec) then py_min (tf_top sec) (tf_bot sec)
             else tf sec in
  let run := check_web_crippling sqrt fpow sec Fy R lb at_support in
  (d sec == 0 -> run = Raise ZeroDivisionError)
  /\ (~ d sec == 0 -> tf' == 0 -> run = Raise ZeroDivisionError)
  /\ (~ d sec == 0 -> ~ tf' == 0 -> tw sec == 0 ->
      run = Raise ZeroDivisionError)
  /\ (~ d sec == 0 -> 0 < tf' -> 0 < tw sec -> Fy < 0 ->
      run = Raise ValueError)
  /\ (~ d sec == 0 -> 0 < tf' -> 0 < tw sec -> 0 <= Fy ->
      exists res,
        run = Ok res
        /\ WCR.Rn_allow res = WCR.Rn res / OMEGA_WCR
        /\ (WCR.Rn_allow res <= 0 -> WCR.ratio res = 999)
        /\ (0 < WCR.Rn_allow res ->
            WCR.ratio res = R / WCR.Rn_allow res
            /\ (WCR.status res = "OK"%string <-> R <= WCR.Rn_allow res))).
Proof.
  intros tf' run. subst run. unfold check_web_crippling. cbv zeta. fold tf'.
  split; [|split; [|split; [|split]]].
  - intros Hd. destruct at_support; now rewrite py_div_zero.
  - intros Hd Ht.
    rewrite !py_div_ok by assumption. cbn [bind].
    destruct at_support; [destruct (Qle_bool _ _)|];
      match goal with
      | |- context [crippling_formula sqrt fpow ?c0 ?coef sec Fy tf'] =>
          rewrite (proj1 (crippling_formula_behaviour sqrt fpow c0 coef
                            sec Fy tf') Ht)
      end; reflexivity.
  - intros Hd Ht Hw.
    rewrite !py_div_ok by assumption. cbn [bind].
    destruct at_support; [destruct (Qle_bool _ _)|];
      match goal with
      | |- context [crippling_formula sqrt fpow ?c0 ?coef sec Fy tf'] =>
          rewrite (proj1 (proj2 (crippling_formula_behaviour sqrt fpow c0 coef
                                   sec Fy tf')) Ht Hw)
      end; reflexivity.
  - intros Hd Ht Hw HF.
    rewrite !py_div_ok by assumption. cbn [bind].
    destruct at_support; [destruct (Qle_bool _ _)|];
      match goal with
      | |- context [crippling_formula sqrt fpow ?c0 ?coef sec Fy tf'] =>
          rewrite (proj1 (proj2 (proj2 (crippling_formula_behaviour
                                          sqrt fpow c0 coef sec Fy tf')))
                         Ht Hw HF)
      end; reflexivity.
  - intros Hd Ht Hw HF.
    rewrite !py_div_ok by assumption. cbn [bind].
    destruct at_support; [destruct (Qle_bool _ _)|];
      match goal with
      | |- context [crippling_formula sqrt fpow ?c0 ?coef sec Fy tf'] =>
          rewrite (proj2 (proj2 (proj2 (crippling_formula_behaviour
                                          sqrt fpow c0 coef sec Fy tf')))
                         Ht Hw HF)
      end; cbn [bind];
      (eexists; split; [reflexivity|];
       cbn [WCR.Rn_allow WCR.Rn WCR.ratio WCR.status];
       split; [reflexivity|]; split;
       [ intros H; apply Qltb_ge in H; rewrite H; reflexivity
       | intros H; pose proof H as Hb; apply Qltb_lt in Hb; rewrite Hb;
         split; [reflexivity|];
         rewrite status_of_OK; now apply Qdiv_le_one ]).
Qed.

Lemma check_web_crippling_behaviour_witness :
  check_web_crippling sqrt_approx fpow_approx ipe200_no_web 235 50 100 true
  = Raise ZeroDivisionError.
Proof.
  apply (check_web_crippling_behaviour sqrt_approx fpow_approx ipe200_no_web
           235 50 100 true); [discriminate | discriminate | reflexivity].
Defined.

Lemma py_min_le_l (a b : Q) : py_min a b <= a.
Proof.
  unfold py_min. destruct (Qltb b a) eqn:E.
  - apply Qltb_lt in E. lra.
  - apply Qle_refl.
Qed.

Lemma py_min_le_r (a b : Q) : py_min a b <= b.
Proof.
  unfold py_min. destruct (Qltb b a) eqn:E.
  - apply Qle_refl.
  - apply Qltb_ge in E. exact E.
Qed.

Lemma py_min_cases (a b : Q) : py_min a b = a \/ py_min a b = b.
Proof. unfold py_min. destruct (Qltb b a); auto. Qed.

Lemma Rpg_bounds (x : Q) :
  0.5 <= py_min 1.0 (py_max x 0.5) /\ py_min 1.0 (py_max x 0.5) <= 1.
Proof.
  pose proof (py_max_ge_r x 0.5) as H.
  pose proof (py_min_le_l 1.0 (py_max x 0.5)) as Hl.
  destruct (py_min_cases 1.0 (py_max x 0.5)) as [E|E]; rewrite E in *; lra.
Qed.

Ltac bind_inv H :=
  repeat match type of H with
         | bind ?m _ = Ok _ =>
             let E := fresh "E" in
             destruct m eqn:E; [cbn [bind] in H | discriminate H]
         end.

(** X21.  Whatever the limit state, the nominal moment that
    [calc_flexural_strength] reports never exceeds the plastic moment [Mp]
    (for a non-negative [Mp]), and the allowable moment is [Mn / 1.67].
    The limit-state label carries an [Rpg] factor exactly when the web is
    classified "Slender", and that factor lies between 0.5 and 1. *)
Theorem calc_flexural_strength_bounded (sqrt : Q -> Q) (sec : SteelSection)
        (Fy Lb : Q) (cmp : Cmp.t) (res : Flex.t) :
  calc_flexural_strength sqrt sec Fy Lb cmp = Ok res ->
  0 <= Flex.Mp res ->
  Flex.Mn res <= Flex.Mp res
  /\ Flex.Mn_allow res = Flex.Mn res / OMEGA_FLEX
  /\ (Cmp.web_class cmp = "Slender"%string ->
      exists s Rpg, Flex.limit_state res = LabelRpg s Rpg
                    /\ 0.5 <= Rpg /\ Rpg <= 1)
  /\ (Cmp.web_class cmp <> "Slender"%string ->
      exists s, Flex.limit_state res = Label s).
Proof.
  unfold calc_flexural_strength.
  destruct (calc_Lp_Lr sqrt sec Fy) as [[Lp Lr]|e]; [|discriminate].
  cbn [bind fst snd].
  set (Mp := if Qltb 0 (Zx sec) then Fy * Zx sec / 1e6
             else Fy * Sx sec * 1.12 / 1e6).
  set (My := Fy * Sx sec / 1e6).
  cbv zeta.
  match goal with
  | |- bind ?z _ = _ -> _ =>
      assert (Hz : forall p, z = Ok p ->
                             fst p <= Mp /\ exists s, snd p = Label s);
        [|destruct z as [zone|e]; [|discriminate]]
  end.
  { intros p. destruct (Qle_bool Lb Lp).
    - intros H. injection H as <-.
      split; [apply Qle_refl | eexists; reflexivity].
    - destruct (Qle_bool Lb Lr).
      + intros H. bind_inv H. injection H as <-. cbn [fst snd].
        split; [apply py_min_le_r | eexists; reflexivity].
      + intros H. bind_inv H. injection H as <-. cbn [fst snd].
        split; [apply py_min_le_r | eexists; reflexivity]. }
  destruct (Hz zone eq_refl) as (Hzone & sz & Hsz). clear Hz.
  cbn [bind].
  match goal with
  | |- bind ?f _ = _ -> _ =>
      assert (Hf : forall p, f = Ok p ->
                             fst p <= Mp /\ exists s, snd p = Label s);
        [|destruct f as [flb|e]; [|discriminate]]
  end.
  { intros p. destruct (Cmp.flange_class cmp =? "Noncompact")%string.
    - intros H. bind_inv H.
      destruct (Qltb _ _) eqn:Elt in H; injection H as <-; cbn [fst snd].
      + apply Qltb_lt in Elt. split; [lra | eexists; reflexivity].
      + split; [exact Hzone | exists sz; exact Hsz].
    - intros H. injection H as <-. cbn [fst snd].
      split; [exact Hzone | exists sz; exact Hsz]. }
  destruct (Hf flb eq_refl) as (Hflb & sf & Hsf). clear Hf.
  cbn [bind].
  destruct (Cmp.web_class cmp =? "Slender")%string eqn:Ew.
  - intros H.
    match type of H with
    | bind ?m _ = Ok _ => destruct m as [web|e] eqn:Hweb; [|discriminate H]
    end.
    cbn [bind] in H. injection H as <-.
    bind_inv Hweb. injection Hweb as <-.
    cbn [Flex.Mn Flex.Mp Flex.Mn_allow Flex.limit_state fst snd].
    intros HMp.
    match goal with
    | |- context [py_min 1.0 (py_max ?x 0.5)] =>
        destruct (Rpg_bounds x) as [R1 R2];
          set (Rpg := py_min 1.0 (py_max x 0.5)) in *
    end.
    split.
    { destruct (Qlt_le_dec (fst flb) 0) as [Hneg|Hpos].
      - assert (Hp : 0 <= - fst flb * Rpg)
          by (apply Qmult_le_0_compat; lra).
        lra.
      - assert (Hp : 0 <= fst flb * (1 - Rpg))
          by (apply Qmult_le_0_compat; lra).
        lra. }
    split; [reflexivity|]. split.
    + intros _. rewrite Hsf. cbn [label_add_Rpg].
      exists sf, Rpg. split; [reflexivity|]. split; assumption.
    + intros Hn. apply String.eqb_eq in Ew. contradiction.
  - intros H. injection H as <-.
    cbn [Flex.Mn Flex.Mp Flex.Mn_allow Flex.limit_state fst snd].
    intros HMp. split; [exact Hflb|]. split; [reflexivity|]. split.
    + intros Hs. apply String.eqb_neq in Ew. contradiction.
    + intros _. exists sf. exact Hsf.
Qed.

Lemma calc_flexural_strength_bounded_witness :
  exists res,
    calc_flexural_strength sqrt_approx ipe200 250 2000
      (Cmp.mk 5.9 10.7 28.2 "Compact" 28.4 106.3 161.2 "Compact" true) = Ok res
    /\ Flex.Mn res <= Flex.Mp res.
Proof.
  eexists. split; [vm_compute; reflexivity|].
  eapply (calc_flexural_strength_bounded sqrt_approx ipe200 250 2000
            (Cmp.mk 5.9 10.7 28.2 "Compact" 28.4 106.3 161.2 "Compact" true)).
  - vm_compute. reflexivity.
  - vm_compute. discriminate.
Defined.

(** X22.  In [calc_shear_strength] tension field action is credited only
    when it raises the nominal strength: the reported [Vn] is never below
    [0.6 Fy Aw Cv1 / 1000]; the label "Tension Field Action" appears only
    when it was requested for a stiffened web with [Cv1 < 1], and then the
    safety factor is 1.67 instead of 1.50.  Without stiffeners the
    buckling coefficient is 5.34, and shear yielding means [Cv1 = 1]. *)
Theorem calc_shear_strength_tension_field (sqrt : Q -> Q)
        (sec : SteelSection) (Fy : Q) (has_stiff : bool) (stiff_spa : Q)
        (use_tfa : bool) (res : Shear.t) :
  calc_shear_strength sqrt sec Fy has_stiff stiff_spa use_tfa = Ok res ->
  let Vn0 := 0.6 * Fy * Shear.Aw res * Shear.Cv1 res / 1000 in
  Vn0 <= Shear.Vn res
  /\ (Shear.limit_state res = "Tension Field Action"%string ->
      use_tfa = true /\ has_stiff = true /\ 0 < stiff_spa
      /\ Shear.Cv1 res < 1 /\ Vn0 < Shear.Vn res
      /\ Shear.Vn_allow res = Shear.Vn res / OMEGA_SHEAR_TFA)
  /\ (Shear.limit_state res <> "Tension Field Action"%string ->
      Shear.Vn res = Vn0
      /\ Shear.Vn_allow res = Shear.Vn res / OMEGA_SHEAR)
  /\ (has_stiff = false -> Shear.kv res = 5.34)
  /\ (Shear.limit_state res = "Shear Yielding"%string ->
      Shear.Cv1 res = 1.0)
  /\ Shear.Aw res
     = (if Qltb 0 (hw sec) then hw sec else d sec - 2 * tf sec) * tw sec.
Proof.
  unfold calc_shear_strength. cbv zeta.
  set (hw' := if Qltb 0 (hw sec) then hw sec else d sec - 2 * tf sec).
  intros H.
  match type of H with
  | bind ?m _ = Ok _ => destruct m as [h_tw|e]; [|discriminate H]
  end.
  cbn [bind] in H.
  match type of H with
  | bind ?m _ = Ok _ =>
      assert (Hkv : forall kv, m = Ok kv -> has_stiff = false -> kv = 5.34);
        [|destruct m as [kv|e]; [|discriminate H]]
  end.
  { intros kv Hk Hs. rewrite Hs in Hk. cbn [andb] in Hk.
    injection Hk as <-. reflexivity. }
  specialize (Hkv kv eq_refl).
  cbn [bind] in H.
  do 2 (match type of H with
        | bind ?m _ = Ok _ => destruct m; [|discriminate H]
        end; cbn [bind] in H).
  match type of H with
  | bind ?m _ = Ok _ =>
      assert (Hzone : forall z, m = Ok z ->
                (snd z = "Shear Yielding"%string -> fst z = 1.0)
                /\ snd z <> "Tension Field Action"%string);
        [|destruct m as [zone|e]; [|discriminate H]]
  end.
  { intros z. destruct (Qle_bool _ _).
    - intros Hz. injection Hz as <-. cbn [fst snd].
      split; [reflexivity | discriminate].
    - destruct (Qle_bool _ _); intros Hz; bind_inv Hz; injection Hz as <-;
        cbn [fst snd]; split; discriminate. }
  destruct (Hzone zone eq_refl) as (Hyield & Hnot). clear Hzone.
  cbn [bind] in H.
  set (Vn0 := 0.6 * Fy * (hw' * tw sec) * fst zone / 1000) in *.
  match type of H with
  | bind ?m _ = Ok _ =>
      assert (Htfa : forall t, m = Ok t ->
                (fst (fst t) = Vn0 /\ snd (fst t) = snd zone
                 /\ snd t = OMEGA_SHEAR)
                \/ (Vn0 < fst (fst t)
                    /\ snd (fst t) = "Tension Field Action"%string
                    /\ snd t = OMEGA_SHEAR_TFA
                    /\ use_tfa = true /\ has_stiff = true
                    /\ 0 < stiff_spa /\ fst zone < 1));
        [|destruct m as [tfa|e]; [|discriminate H]]
  end.
  { intros t.
    destruct (use_tfa && has_stiff && Qltb 0 stiff_spa && Qltb (fst zone) 1.0)
      eqn:Hc.
    - apply andb_true_iff in Hc. destruct Hc as [Hc H4].
      apply andb_true_iff in Hc. destruct Hc as [Hc H3].
      apply andb_true_iff in Hc. destruct Hc as [H1 H2].
      apply Qltb_lt in H3, H4.
      intros Ht.
      match type of Ht with
      | bind ?m _ = Ok _ => destruct m as [a_h|e]; [|discriminate Ht]
      end.
      cbn [bind] in Ht.
      destruct (Qle_bool 0.5 a_h && Qle_bool a_h 3).
      + bind_inv Ht.
        destruct (Qltb Vn0 _) eqn:Elt in Ht; injection Ht as <-;
          cbn [fst snd].
        * apply Qltb_lt in Elt. right.
          repeat split; try assumption; try reflexivity. lra.
        * left. repeat split; reflexivity.
      + injection Ht as <-. cbn [fst snd]. left. repeat split; reflexivity.
    - intros Ht. injection Ht as <-. cbn [fst snd]. left.
      repeat split; reflexivity. }
  specialize (Htfa tfa eq_refl). cbn [bind] in H. injection H as <-.
  cbn [Shear.Aw Shear.Cv1 Shear.Vn Shear.Vn_allow Shear.limit_state Shear.kv].
  fold Vn0.
  destruct Htfa as [(E1 & E2 & E3)|(E1 & E2 & E3 & E4 & E5 & E6 & E7)].
  - rewrite E1, E2, E3.
    split; [apply Qle_refl|].
    split; [intros Hl; contradiction|].
    split; [intros _; split; reflexivity|].
    split; [exact Hkv|]. split; [exact Hyield | reflexivity].
  - rewrite E2, E3.
    split; [lra|].
    split; [intros _; repeat split; assumption|].
    split; [intros Hn; contradiction Hn; reflexivity|].
    split; [exact Hkv|]. split; [discriminate | reflexivity].
Qed.

Lemma calc_shear_strength_tension_field_witness :
  exists res,
    calc_shear_strength sqrt_approx plate_girder 345 true 1800 true = Ok res
    /\ Shear.limit_state res = "Tension Field Action"%string
    /\ 0.6 * 345 * Shear.Aw res * Shear.Cv1 res / 1000 <= Shear.Vn res.
Proof.
  eexists. split; [vm_compute; reflexivity|]. split; [reflexivity|].
  eapply (calc_shear_strength_tension_field sqrt_approx plate_girder 345
            true 1800 true).
  vm_compute. reflexivity.
Defined.

(* ------------------------------------------------------------------ *)
(** ** Fillet weld size limits *)
(* ------------------------------------------------------------------ *)

Lemma sorted_items_MIN_FILLET_WELD_SIZE :
  sorted_items MIN_FILLET_WELD_SIZE = MIN_FILLET_WELD_SIZE.
Proof. reflexivity. Qed.

(** The table look-up, limit by limit. *)
Lemma get_min_fillet_weld_size_cases (t : Q) :
  (t <= 6.35 /\ get_min_fillet_weld_size t = 3)
  \/ (6.35 < t /\ t <= 12.7 /\ get_min_fillet_weld_size t = 5)
  \/ (12.7 < t /\ t <= 19.05 /\ get_min_fillet_weld_size t = 6)
  \/ (19.05 < t /\ t <= 38.1 /\ get_min_fillet_weld_size t = 8)
  \/ (38.1 < t /\ t <= 57.15 /\ get_min_fillet_weld_size t = 10)
  \/ (57.15 < t /\ get_min_fillet_weld_size t = 13).
Proof.
  unfold get_min_fillet_weld_size.
  rewrite sorted_items_MIN_FILLET_WELD_SIZE.
  unfold MIN_FILLET_WELD_SIZE. cbn [first_limit].
  destruct (Qle_bool t 6.35) eqn:E1;
    [apply Qle_bool_iff in E1; left; split; [exact E1 | reflexivity]|].
  apply Qle_bool_false in E1. right.
  destruct (Qle_bool t 12.7) eqn:E2;
    [apply Qle_bool_iff in E2; left; repeat split; assumption|].
  apply Qle_bool_false in E2. right.
  destruct (Qle_bool t 19.05) eqn:E3;
    [apply Qle_bool_iff in E3; left; repeat split; assumption|].
  apply Qle_bool_false in E3. right.
  destruct (Qle_bool t 38.1) eqn:E4;
    [apply Qle_bool_iff in E4; left; repeat split; assumption|].
  apply Qle_bool_false in E4. right.
  destruct (Qle_bool t 57.15) eqn:E5;
    [apply Qle_bool_iff in E5; left; repeat split; assumption|].
  apply Qle_bool_false in E5. right.
  split; [exact E5|].
  destruct (Qle_bool t 152.4); reflexivity.
Qed.

Ltac weld_cases t :=
  let H := fresh "H" in
  destruct (get_min_fillet_weld_size_cases t)
    as [H|[H|[H|[H|[H|H]]]]];
  decompose [and] H; clear H.

(** X23.  The minimum fillet weld size never decreases with the thickness
    of the thicker part and always lies between 3 and 13 mm; the maximum
    size never exceeds the edge thickness and is [t - 1.6] from 6.35 mm
    on.  For one and the same thickness the minimum fits under the
    maximum exactly when [3 <= t <= 6.35] or [t >= 6.6]. *)
Theorem fillet_weld_size_limits (t1 t2 : Q) :
  (t1 <= t2 -> get_min_fillet_weld_size t1 <= get_min_fillet_weld_size t2)
  /\ 3 <= get_min_fillet_weld_size t1
  /\ get_min_fillet_weld_size t1 <= 13
  /\ get_max_fillet_weld_size t1 <= t1
  /\ (6.35 <= t1 -> get_max_fillet_weld_size t1 = t1 - 1.6)
  /\ (get_min_fillet_weld_size t1 <= get_max_fillet_weld_size t1
      <-> (3 <= t1 /\ t1 <= 6.35) \/ 6.6 <= t1).
Proof.
  assert (Hmax : (t1 < 6.35 /\ get_max_fillet_weld_size t1 = t1)
                 \/ (6.35 <= t1 /\ get_max_fillet_weld_size t1 = t1 - 1.6)).
  { unfold get_max_fillet_weld_size. destruct (Qltb t1 6.35) eqn:E.
    - left. split; [now apply Qltb_lt | reflexivity].
    - right. split; [now apply Qltb_ge | reflexivity]. }
  split; [|split; [|split; [|split; [|split]]]].
  - intros Hle. weld_cases t1; weld_cases t2;
      repeat match goal with
             | H : get_min_fillet_weld_size _ = _ |- _ => rewrite H; clear H
             end;
      first [discriminate | lra].
  - weld_cases t1;
      match goal with
      | H : get_min_fillet_weld_size _ = _ |- _ => rewrite H
      end; discriminate.
  - weld_cases t1;
      match goal with
      | H : get_min_fillet_weld_size _ = _ |- _ => rewrite H
      end; discriminate.
  - destruct Hmax as [[_ ->]|[_ ->]]; lra.
  - intros H. destruct Hmax as [[H1 _]|[_ H2]]; [lra | exact H2].
  - destruct Hmax as [[M1 ->]|[M1 ->]]; weld_cases t1;
      match goal with
      | H : get_min_fillet_weld_size _ = _ |- _ => rewrite H; clear H
      end;
      (split; [intros ? | intros [[? ?]|?]]); try lra;
      first [left; split; lra | right; lra].
Qed.

Lemma fillet_weld_size_limits_witness :
  get_min_fillet_weld_size 10 <= get_min_fillet_weld_size 16
  /\ get_max_fillet_weld_size 10 = 10 - 1.6.
Proof.
  split.
  - apply (proj1 (fillet_weld_size_limits 10 16)). discriminate.
  - apply (proj1 (proj2 (proj2 (proj2 (proj2
             (fillet_weld_size_limits 10 16)))))). discriminate.
Defined.

(* ------------------------------------------------------------------ *)
(** ** Stiffener checks *)
(* ------------------------------------------------------------------ *)

(** The width-to-thickness limit [0.56 * math.sqrt(E_STEEL / Fy)] that
    opens the three stiffener checks. *)
Lemma bt_limit_behaviour (sqrt : Q -> Q) (Fy : Q) :
  (Fy == 0 -> py_div E_STEEL Fy = Raise ZeroDivisionError)
  /\ (Fy < 0 ->
      py_div E_STEEL Fy = Ok (E_STEEL / Fy)
      /\ math_sqrt sqrt (E_STEEL / Fy) = Raise ValueError)
  /\ (0 < Fy ->
      py_div E_STEEL Fy = Ok (E_STEEL / Fy)
      /\ math_sqrt sqrt (E_STEEL / Fy) = Ok (sqrt (E_STEEL / Fy))).
Proof.
  split; [|split].
  - intros H. now apply py_div_zero.
  - intros H. split; [apply py_div_ok; lra|].
    pose proof (Qdiv_pos_neg E_STEEL Fy eq_refl H) as Hneg.
    unfold math_sqrt. apply Qltb_lt in Hneg. now rewrite Hneg.
  - intros H. split; [apply py_div_ok; lra|].
    apply math_sqrt_ok, Qlt_le_weak, Qdiv_pos; [reflexivity | exact H].
Qed.

Lemma bt_ratio_ok (b_st t_st : Q) :
  exists bt,
    (if Qltb 0 t_st then py_div b_st t_st else Ok 999) = Ok bt
    /\ (0 < t_st -> bt = b_st / t_st)
    /\ (t_st <= 0 -> bt = 999).
Proof.
  destruct (Qltb 0 t_st) eqn:E.
  - apply Qltb_lt in E. rewrite py_div_ok by lra. eexists.
    split; [reflexivity|]. split; [reflexivity | intros H; lra].
  - apply Qltb_ge in E. eexists. split; [reflexivity|].
    split; [intros H; lra | reflexivity].
Qed.

Lemma andb3_forallb (a b c : bool) (f : Check.t -> bool) (x y z : Check.t) :
  f x = a -> f y = b -> f z = c ->
  a && b && c = forallb f [x; y; z].
Proof.
  intros <- <- <-. cbn [forallb]. now destruct (f x), (f y), (f z).
Qed.

(** X24.  [check_transverse_stiffener] reports "not required" (no checks,
    [ok] true) without computing anything when the stiffeners are
    switched off, the spacing is not positive or the web height is not
    positive.  Otherwise it returns exactly for a positive yield stress
    ([ZeroDivisionError] for zero, [ValueError] for a negative one), with
    three checks whose conjunction is [ok]; the provided inertia is that of
    the plate about its edge, [t b^3 / 3], and the required one is
    [b tw^3 j] with [j >= 0.5]. *)
Theorem check_transverse_stiffener_behaviour (sqrt : Q -> Q)
        (sec : SteelSection) (Fy : Q) (stiff : StiffenerData) :
  let hw' := if Qltb 0 (hw sec) then hw sec else d sec - 2 * tf sec in
  let run := check_transverse_stiffener sqrt sec Fy stiff in
  (has_transverse stiff = false \/ trans_spacing stiff <= 0 \/ hw' <= 0 ->
   run = Ok Stiff.initial)
  /\ (has_transverse stiff = true -> 0 < trans_spacing stiff -> 0 < hw' ->
      (Fy == 0 -> run = Raise ZeroDivisionError)
      /\ (Fy < 0 -> run = Raise ValueError)
      /\ (0 < Fy ->
          exists res Ist_req Ist_prov j,
            run = Ok res
            /\ Stiff.required res = true
            /\ List.length (Stiff.checks res) = 3%nat
            /\ Stiff.ok res = forallb Check.ok (Stiff.checks res)
            /\ Stiff.values res = [("Ist_req"%string, Ist_req);
                                   ("Ist_prov"%string, Ist_prov)]
            /\ Ist_prov == trans_t stiff * trans_b stiff ^ 3 / 3
            /\ Ist_req = trans_b stiff * tw sec ^ 3 * j
            /\ 0.5 <= j)).
Proof.
  intros hw' run. subst run. unfold check_transverse_stiffener. cbv zeta.
  fold hw'. split.
  - intros [H|[H|H]].
    + rewrite H. reflexivity.
    + destruct (negb (has_transverse stiff)); [reflexivity|].
      apply Qle_bool_iff in H. rewrite H. reflexivity.
    + destruct (negb (has_transverse stiff)); [reflexivity|].
      apply Qle_bool_iff in H. rewrite H, orb_true_r. reflexivity.
  - intros Hon Ha Hh. rewrite Hon. cbn [negb].
    assert (Ea : Qle_bool (trans_spacing stiff) 0 = false)
      by (apply not_true_iff_false; rewrite Qle_bool_iff; lra).
    assert (Eh : Qle_bool hw' 0 = false)
      by (apply not_true_iff_false; rewrite Qle_bool_iff; lra).
    rewrite Ea, Eh. cbn [orb].
    rewrite (py_div_ok _ hw') by lra. cbn [bind].
    destruct (bt_limit_behaviour sqrt Fy) as (B0 & Bneg & Bpos).
    split; [|split].
    + intros H. rewrite (B0 H). reflexivity.
    + intros H. destruct (Bneg H) as [E1 E2].
      rewrite E1. cbn [bind]. rewrite E2. reflexivity.
    + intros H. destruct (Bpos H) as [E1 E2].
      rewrite E1. cbn [bind]. rewrite E2. cbn [bind].
      destruct (bt_ratio_ok (trans_b stiff) (trans_t stiff))
        as (bt & -> & _). cbn [bind].
      assert (Hah : ~ (trans_spacing stiff / hw') ^ 2 == 0).
      { assert (Hp : 0 < trans_spacing stiff / hw') by now apply Qdiv_pos.
        assert (Hsq : 0 < (trans_spacing stiff / hw')
                          * (trans_spacing stiff / hw'))
          by now apply Qmult_lt_0_compat.
        assert (E : (trans_spacing stiff / hw') ^ 2
                    == (trans_spacing stiff / hw')
                       * (trans_spacing stiff / hw')) by (simpl; ring).
        rewrite E. lra. }
      rewrite py_div_ok by exact Hah. cbn [bind].
      do 4 eexists. split; [reflexivity|].
      cbn [Stiff.required Stiff.checks Stiff.ok Stiff.values List.length].
      split; [reflexivity|]. split; [reflexivity|].
      split; [apply andb3_forallb; reflexivity|].
      split; [reflexivity|].
      split; [field|]. split; [reflexivity|]. apply py_max_ge_r.
Qed.

Lemma check_transverse_stiffener_behaviour_witness :
  check_transverse_stiffener sqrt_approx plate_girder 0
    (mkStiffenerData true 1000 10 80 false 12 100 false 10 80 0.2 6)
  = Raise ZeroDivisionError.
Proof.
  apply (proj2 (check_transverse_stiffener_behaviour sqrt_approx plate_girder
                  0 (mkStiffenerData true 1000 10 80 false 12 100 false
                                     10 80 0.2 6)));
    reflexivity.
Defined.

(** X25.  [check_longitudinal_stiffener] reports "not required" when the
    stiffener is switched off; otherwise it returns exactly for a positive
    yield stress, and [ok] holds exactly when the width-to-thickness ratio
    is within [0.56 sqrt(E/Fy)], the plate inertia [t b^3 / 12] reaches
    half of [2.4 hw tw^3], and the position lies in [0.15, 0.35] of the
    web height. *)
Theorem check_longitudinal_stiffener_behaviour (sqrt : Q -> Q)
        (sec : SteelSection) (Fy : Q) (stiff : StiffenerData) :
  let hw' := if Qltb 0 (hw sec) then hw sec else d sec - 2 * tf sec in
  let run := check_longitudinal_stiffener sqrt sec Fy stiff in
  (has_longitudinal stiff = false -> run = Ok Stiff.initial)
  /\ (has_longitudinal stiff = true ->
      (Fy == 0 -> run = Raise ZeroDivisionError)
      /\ (Fy < 0 -> run = Raise ValueError)
      /\ (0 < Fy ->
          exists res bt,
            run = Ok res
            /\ Stiff.required res = true
            /\ List.length (Stiff.checks res) = 3%nat
            /\ Stiff.ok res = forallb Check.ok (Stiff.checks res)
            /\ (0 < long_t stiff -> bt = long_b stiff / long_t stiff)
            /\ (long_t stiff <= 0 -> bt = 999)
            /\ (Stiff.ok res = true
                <-> bt <= 0.56 * sqrt (E_STEEL / Fy)
                    /\ hw' * tw sec ^ 3 * 2.4 * 0.5
                       <= (1 / 12) * long_t stiff * long_b stiff ^ 3
                    /\ 0.15 <= long_position stiff
                    /\ long_position stiff <= 0.35))).
Proof.
  intros hw' run. subst run. unfold check_longitudinal_stiffener. cbv zeta.
  fold hw'. split.
  - intros ->. reflexivity.
  - intros ->. cbn [negb].
    destruct (bt_limit_behaviour sqrt Fy) as (B0 & Bneg & Bpos).
    split; [|split].
    + intros H. rewrite (B0 H). reflexivity.
    + intros H. destruct (Bneg H) as [E1 E2].
      rewrite E1. cbn [bind]. rewrite E2. reflexivity.
    + intros H. destruct (Bpos H) as [E1 E2].
      rewrite E1. cbn [bind]. rewrite E2. cbn [bind].
      destruct (bt_ratio_ok (long_b stiff) (long_t stiff))
        as (bt & -> & Hbt1 & Hbt2). cbn [bind].
      eexists. exists bt. split; [reflexivity|].
      cbn [Stiff.required Stiff.checks Stiff.ok Stiff.values List.length].
      split; [reflexivity|]. split; [reflexivity|].
      split; [apply andb3_forallb; reflexivity|].
      split; [exact Hbt1|]. split; [exact Hbt2|].
      rewrite !andb_true_iff, !Qle_bool_iff. tauto.
Qed.

Lemma check_longitudinal_stiffener_behaviour_witness :
  exists res,
    check_longitudinal_stiffener sqrt_approx plate_girder 345
      (mkStiffenerData false 0 10 80 false 12 100 true 10 80 0.2 6) = Ok res.
Proof.
  destruct (proj2 (check_longitudinal_stiffener_behaviour sqrt_approx
                     plate_girder 345
                     (mkStiffenerData false 0 10 80 false 12 100 true
                                      10 80 0.2 6)) eq_refl)
    as (_ & _ & H).
  destruct (H eq_refl) as (res & bt & Hres & _).
  exists res. exact Hres.
Defined.

Lemma Qsq_pos (x : Q) : 0 < x -> 0 < x ^ 2.
Proof.
  intros H. assert (E : x ^ 2 == x * x) by (simpl; ring).
  rewrite E. now apply Qmult_lt_0_compat.
Qed.

Lemma Qcube_nonneg (x : Q) : 0 <= x -> 0 <= x ^ 3.
Proof.
  intros H. assert (E : x ^ 3 == x * (x * x)) by (simpl; ring).
  rewrite E. apply Qmult_le_0_compat; [exact H|].
  now apply Qmult_le_0_compat.
Qed.

Lemma bearing_inertia_nonneg (t b w we : Q) :
  0 <= t -> 0 <= b -> 0 <= w -> 0 <= we ->
  0 <= 2 * (1 / 12 * t * b ^ 3 + t * b * (b / 2 + w / 2) ^ 2)
       + 1 / 12 * we * w ^ 3.
Proof.
  intros Ht Hb Hw Hwe.
  pose proof (Qcube_nonneg _ Hb) as Hb3.
  pose proof (Qcube_nonneg _ Hw) as Hw3.
  assert (H1 : 0 <= t * b ^ 3) by now apply Qmult_le_0_compat.
  assert (H2 : 0 <= t * b) by now apply Qmult_le_0_compat.
  assert (H3 : 0 <= (b / 2 + w / 2) ^ 2).
  { assert (E : (b / 2 + w / 2) ^ 2 == (b / 2 + w / 2) * (b / 2 + w / 2))
      by (simpl; ring).
    rewrite E. apply Qsquare_nonneg. }
  assert (H4 : 0 <= t * b * (b / 2 + w / 2) ^ 2)
    by now apply Qmult_le_0_compat.
  assert (H5 : 0 <= we * w ^ 3) by now apply Qmult_le_0_compat.
  set (u := t * b ^ 3) in *. set (v := t * b * (b / 2 + w / 2) ^ 2) in *.
  set (x := we * w ^ 3) in *.
  assert (E : 2 * (1 / 12 * u + v) + 1 / 12 * x
              == (1 # 6) * u + 2 * v + (1 # 12) * x) by field.
  assert (E' : 2 * (1 / 12 * t * b ^ 3 + v) + 1 / 12 * we * w ^ 3
               == 2 * (1 / 12 * u + v) + 1 / 12 * x)
    by (subst u x; field).
  rewrite E', E. clearbody u v x. lra.
Qed.

(** X26.  [check_bearing_stiffener] reports "not required" when the
    stiffener is switched off.  Otherwise it raises for a yield stress
    that is zero ([ZeroDivisionError]) or negative ([ValueError]) and, for
    a positive one and non-negative plate and web thicknesses, returns
    three checks whose conjunction is [ok]: a passing result means the
    load exceeds neither the allowable column capacity [Pa = Pn / 1.67]
    nor the bearing capacity [1.8 Fy * 2 (b - 25) t / 1000 / 2], and the
    stored ratio is [Pu / Pa] (999 when [Pa] is not positive). *)
Theorem check_bearing_stiffener_behaviour (sqrt : Q -> Q)
        (fpow : Q -> Q -> Q) (sec : SteelSection) (Fy Pu : Q)
        (stiff : StiffenerData) (at_support : bool) :
  let run := check_bearing_stiffener sqrt fpow sec Fy Pu stiff at_support in
  let Pb := 1.8 * Fy * (2 * (bearing_b stiff - 25) * bearing_t stiff)
            / 1000 / OMEGA_BEARING in
  (has_bearing stiff = false -> run = Ok Stiff.initial)
  /\ (has_bearing stiff = true ->
      (Fy == 0 -> run = Raise ZeroDivisionError)
      /\ (Fy < 0 -> run = Raise ValueError)
      /\ (0 < Fy -> 0 <= bearing_t stiff -> 0 <= bearing_b stiff ->
          0 <= tw sec ->
          exists res Pn Pa ratio,
            run = Ok res
            /\ Stiff.required res = true
            /\ List.length (Stiff.checks res) = 3%nat
            /\ Stiff.ok res = forallb Check.ok (Stiff.checks res)
            /\ Stiff.values res = [("Pn"%string, Pn); ("Pa"%string, Pa);
                                   ("ratio"%string, ratio)]
            /\ Pa = Pn / OMEGA_COMP
            /\ (0 < Pa -> ratio = Pu / Pa)
            /\ (Pa <= 0 -> ratio = 999)
            /\ (Stiff.ok res = true -> Pu <= Pa /\ Pu <= Pb))).
Proof.
  intros run Pb. subst run. unfold check_bearing_stiffener. cbv zeta.
  split.
  - intros ->. reflexivity.
  - intros ->. cbn [negb].
    destruct (bt_limit_behaviour sqrt Fy) as (B0 & Bneg & Bpos).
    split; [|split].
    + intros H. rewrite (B0 H). reflexivity.
    + intros H. destruct (Bneg H) as [E1 E2].
      rewrite E1. cbn [bind]. rewrite E2. reflexivity.
    + intros H Ht Hb Hw. destruct (Bpos H) as [E1 E2].
      rewrite E1. cbn [bind]. rewrite E2. cbn [bind].
      destruct (bt_ratio_ok (bearing_b stiff) (bearing_t stiff))
        as (bt & -> & _). cbn [bind].
      set (web_eff := if at_support then 25 * tw sec else 24 * tw sec).
      set (A_eff := 2 * bearing_b stiff * bearing_t stiff + web_eff * tw sec).
      set (I_eff := 2 * (1 / 12 * bearing_t stiff * bearing_b stiff ^ 3
                         + bearing_t stiff * bearing_b stiff
                           * (bearing_b stiff / 2 + tw sec / 2) ^ 2)
                    + 1 / 12 * web_eff * tw sec ^ 3).
      assert (Hweb : 0 <= web_eff) by (subst web_eff; destruct at_support; lra).
      assert (HI : 0 <= I_eff)
        by (apply bearing_inertia_nonneg; assumption).
      assert (Hr : exists r',
                 (if Qltb 0 A_eff
                  then let* q := py_div I_eff A_eff in math_sqrt sqrt q
                  else Ok 1) = Ok r').
      { destruct (Qltb 0 A_eff) eqn:EA; [|eexists; reflexivity].
        apply Qltb_lt in EA. rewrite py_div_ok by lra. cbn [bind].
        rewrite math_sqrt_ok; [eexists; reflexivity|].
        apply Qle_shift_div_l; [exact EA | lra]. }
      destruct Hr as (r' & ->). cbn [bind].
      assert (Hk : exists KL_r,
                 (if Qltb 0 r'
                  then py_div (0.75 * (if Qltb 0 (hw sec) then hw sec
                                       else d sec - 2 * tf sec)) r'
                  else Ok 999) = Ok KL_r).
      { destruct (Qltb 0 r') eqn:Er; [|eexists; reflexivity].
        apply Qltb_lt in Er. rewrite py_div_ok by lra. eexists. reflexivity. }
      destruct Hk as (KL_r & ->). cbn [bind].
      assert (Hfe : exists Fe,
                 (if Qltb 0 KL_r
                  then py_div (math_pi ^ 2 * E_STEEL) (KL_r ^ 2)
                  else Ok Fy) = Ok Fe /\ 0 < Fe).
      { destruct (Qltb 0 KL_r) eqn:Ek.
        - apply Qltb_lt in Ek. pose proof (Qsq_pos _ Ek) as Hsq.
          rewrite py_div_ok by lra. eexists. split; [reflexivity|].
          apply Qdiv_pos; [reflexivity | exact Hsq].
        - eexists. split; [reflexivity | exact H]. }
      destruct Hfe as (Fe & -> & HFe). cbn [bind].
      assert (Hfcr : exists Fcr,
                 (if Qle_bool KL_r (4.71 * sqrt (E_STEEL / Fy))
                  then let* e := py_div Fy Fe in Ok (Fy * fpow 0.658 e)
                  else Ok (0.877 * Fe)) = Ok Fcr).
      { destruct (Qle_bool _ _); [|eexists; reflexivity].
        rewrite py_div_ok by lra. eexists. reflexivity. }
      destruct Hfcr as (Fcr & ->). cbn [bind].
      do 4 eexists. split; [reflexivity|].
      cbn [Stiff.required Stiff.checks Stiff.ok Stiff.values List.length].
      fold A_eff.
      split; [reflexivity|]. split; [reflexivity|].
      split; [apply andb3_forallb; reflexivity|].
      split; [reflexivity|]. split; [reflexivity|].
      split; [intros HP; apply Qltb_lt in HP; rewrite HP; reflexivity|].
      split; [intros HP; apply Qltb_ge in HP; rewrite HP; reflexivity|].
      rewrite !andb_true_iff, !Qle_bool_iff. subst Pb. tauto.
Qed.

Lemma check_bearing_stiffener_behaviour_witness :
  exists res,
    check_bearing_stiffener sqrt_approx fpow_approx plate_girder 345 200
      (mkStiffenerData false 0 10 80 true 12 100 false 10 80 0.2 6) true
    = Ok res.
Proof.
  destruct (proj2 (check_bearing_stiffener_behaviour sqrt_approx fpow_approx
                     plate_girder 345 200
                     (mkStiffenerData false 0 10 80 true 12 100 false
                                      10 80 0.2 6) true) eq_refl)
    as (_ & _ & H).
  destruct H as (res & Pn & Pa & ratio & Hres & _);
    [reflexivity | discriminate | discriminate | discriminate |].
  exists res. exact Hres.
Defined.

Lemma hot_rolled_defaults_keeps (s : SteelSection) :
  d (hot_rolled_defaults s) = d s
  /\ A (hot_rolled_defaults s) = A s
  /\ Ix (hot_rolled_defaults s) = Ix s
  /\ has_cap (hot_rolled_defaults s) = has_cap s
  /\ cap_A (hot_rolled_defaults s) = cap_A s
  /\ cap_Ix (hot_rolled_defaults s) = cap_Ix s
  /\ cap_cy (hot_rolled_defaults s) = cap_cy s.
Proof.
  unfold hot_rolled_defaults, flange_defaults.
  destruct (Qeq_bool (hw s) 0); sec_simpl;
    destruct (Qeq_bool (ho s) 0); sec_simpl;
    destruct (Qeq_bool (bf_top s) 0); sec_simpl; repeat split; reflexivity.
Qed.

(** The composite of a rolled section and a cap channel, by the
    parallel-axis theorem for two bodies. *)
Lemma hot_rolled_add_cap_composite (s s1 : SteelSection) :
  0 < A s -> 0 < Ix s -> 0 < cap_A s ->
  hot_rolled_add_cap s = Ok s1 ->
  A s1 == A s + cap_A s
  /\ y_bar s1 == (A s * (d s / 2) + cap_A s * (d s + cap_cy s))
                 / (A s + cap_A s)
  /\ Ix s1 == Ix s + cap_Ix s
              + A s * cap_A s / (A s + cap_A s) * (d s / 2 + cap_cy s) ^ 2.
Proof.
  intros HA HI HC.
  destruct s as [nm ty d' bf' tf' tw' r' bt tt bb tb h' hc cn cA cIx cIy cd
                   ccy A' Ix' Iy' Sx' Sy' Zx' rx' ry' rts' J' Cw' ho' yb' ms].
  sec_simpl. unfold hot_rolled_add_cap. sec_simpl.
  pose proof HA as HAb. apply Qltb_lt in HAb. rewrite HAb.
  assert (Hsum : ~ A' + cA == 0) by lra.
  rewrite py_div_ok by exact Hsum. cbn [bind]. sec_simpl.
  pose proof HI as HIb. apply Qltb_lt in HIb. rewrite HIb.
  match goal with
  | |- bind ?m _ = _ -> _ => destruct m as [sx|e]; [|discriminate]
  end.
  cbn [bind]. intros H. injection H as <-.
  destruct (Qltb 0 Iy'); sec_simpl;
    (split; [reflexivity|]; split; [reflexivity|]; field; exact Hsum).
Qed.

(** X27.  For a hot-rolled section with an effective cap channel (given
    with positive area and inertia), one call of [calc_props] combines the
    two by the parallel-axis theorem: the areas add, the centroid is the
    area-weighted mean of mid-depth and the cap centroid, and
    [Ix = Ix_I + Ix_cap + A_I A_cap / (A_I + A_cap) * e^2] with
    [e = d/2 + cap_cy] the distance between the two centroids. *)
Theorem calc_props_hot_rolled_cap (sqrt : Q -> Q) (s s' : SteelSection) :
  sec_type s <> "built_up"%string ->
  has_cap s = true -> 0 < cap_A s -> 0 < A s -> 0 < Ix s ->
  calc_props sqrt s = Ok s' ->
  A s' == A s + cap_A s
  /\ y_bar s' == (A s * (d s / 2) + cap_A s * (d s + cap_cy s))
                 / (A s + cap_A s)
  /\ Ix s' == Ix s + cap_Ix s
              + A s * cap_A s / (A s + cap_A s) * (d s / 2 + cap_cy s) ^ 2
  /\ Ix s + cap_Ix s <= Ix s'.
Proof.
  intros Hty Hcap HC HA HI.
  unfold calc_props. apply String.eqb_neq in Hty. rewrite Hty.
  unfold _calc_hot_rolled_props. cbv zeta.
  destruct (hot_rolled_defaults_keeps s)
    as (Kd & KA & KIx & Kcap & KcA & KcIx & Kcy).
  rewrite Kcap, KcA, Hcap.
  pose proof HC as HCb. apply Qltb_lt in HCb. rewrite HCb. cbn [andb].
  destruct (hot_rolled_add_cap (hot_rolled_defaults s)) as [s1|e] eqn:Hadd;
    [|discriminate].
  cbn [bind]. intros Hc.
  apply hot_rolled_add_cap_composite in Hadd;
    [| rewrite KA; exact HA | rewrite KIx; exact HI | rewrite KcA; exact HC].
  rewrite Kd, KA, KIx, KcA, KcIx, Kcy in Hadd.
  destruct (common_props_spec sqrt s1 s' Hc)
    as (a & b & z & j & c & v & m & Hs' & _).
  assert (HA' : A s' = A s1) by (subst s'; destruct s1; reflexivity).
  assert (Hy' : y_bar s' = y_bar s1) by (subst s'; destruct s1; reflexivity).
  assert (HI' : Ix s' = Ix s1) by (subst s'; destruct s1; reflexivity).
  rewrite HA', Hy', HI'.
  destruct Hadd as (E1 & E2 & E3).
  split; [exact E1|]. split; [exact E2|]. split; [exact E3|].
  rewrite E3.
  assert (Hpos : 0 <= A s * cap_A s / (A s + cap_A s)
                      * (d s / 2 + cap_cy s) ^ 2).
  { apply Qmult_le_0_compat; [|apply Qsquare_nonneg].
    apply Qlt_le_weak, Qdiv_pos; [now apply Qmult_lt_0_compat | lra]. }
  lra.
Qed.

Lemma calc_props_hot_rolled_cap_witness :
  exists s',
    calc_props sqrt_approx ipe200_cap = Ok s'
    /\ A s' == A ipe200_cap + cap_A ipe200_cap
    /\ Ix ipe200_cap + cap_Ix ipe200_cap <= Ix s'.
Proof.
  destruct (calc_props sqrt_approx ipe200_cap) as [s'|e] eqn:H;
    [|vm_compute in H; discriminate].
  exists s'. split; [reflexivity|].
  assert (Hty : sec_type ipe200_cap <> "built_up"%string) by discriminate.
  destruct (calc_props_hot_rolled_cap sqrt_approx ipe200_cap s' Hty
              eq_refl eq_refl eq_refl eq_refl H) as (E1 & _ & _ & E4).
  split; assumption.
Defined.

(* ------------------------------------------------------------------ *)
(** ** Weld design *)
(* ------------------------------------------------------------------ *)

Lemma py_min_spec (a b : Q) :
  (b < a /\ py_min a b = b) \/ (a <= b /\ py_min a b = a).
Proof.
  unfold py_min. destruct (Qltb b a) eqn:E.
  - left. split; [now apply Qltb_lt | reflexivity].
  - right. split; [now apply Qltb_ge | reflexivity].
Qed.

(** X28.  [calc_fillet_weld_strength] raises [TypeError] when the sine of
    the load angle is negative and returns otherwise.  The nominal strength
    is the smaller of weld metal ([0.60 FEXX * 0.707 w]) and base metal
    ([0.60 * 1.3 Fy * t]), [governs] names the one that is attained (the
    weld on a tie), the allowable strength is half of it, and the
    directional strength is never below the plain one when the
    directional increase is non-negative. *)
Theorem calc_fillet_weld_strength_governs (sin : Q -> Q) (fpow : Q -> Q -> Q)
        (weld_size FEXX Fy_base t_base weld_angle : Q) :
  let s := sin (math_radians weld_angle) in
  let run := calc_fillet_weld_strength sin fpow weld_size FEXX Fy_base t_base
                                       weld_angle in
  (s < 0 -> run = Raise TypeError)
  /\ (0 <= s ->
      exists res,
        run = Ok res
        /\ Fillet.Rn_weld res == 0.60 * 0.707 * FEXX * weld_size
        /\ Fillet.Rn_base res == 0.60 * 1.3 * Fy_base * t_base
        /\ Fillet.Rn res <= Fillet.Rn_weld res
        /\ Fillet.Rn res <= Fillet.Rn_base res
        /\ (Fillet.governs res = "Weld"%string
            <-> Fillet.Rn_weld res <= Fillet.Rn_base res)
        /\ (Fillet.governs res = "Weld"%string ->
            Fillet.Rn res = Fillet.Rn_weld res)
        /\ (Fillet.governs res <> "Weld"%string ->
            Fillet.governs res = "Base Metal"%string
            /\ Fillet.Rn res = Fillet.Rn_base res)
        /\ Fillet.Rn_allow res = Fillet.Rn res / 2.00
        /\ (0 <= fpow s 1.5 -> 0 <= FEXX * weld_size ->
            Fillet.Rn res <= Fillet.Rn_dir res)).
Proof.
  intros s run. subst run. unfold calc_fillet_weld_strength. cbv zeta.
  fold s. split.
  - intros H. apply Qltb_lt in H. rewrite H. reflexivity.
  - intros H. apply Qltb_ge in H. rewrite H.
    eexists. split; [reflexivity|].
    cbn [Fillet.Rn_weld Fillet.Rn_base Fillet.Rn Fillet.governs
         Fillet.Rn_allow Fillet.Rn_dir].
    set (Rw := 0.60 * FEXX * (0.707 * weld_size)).
    set (Rb := 0.60 * (Fy_base * 1.3) * t_base).
    split; [subst Rw; ring|]. split; [subst Rb; ring|].
    split; [apply py_min_le_l|]. split; [apply py_min_le_r|].
    destruct (Qle_bool Rw Rb) eqn:E.
    + apply Qle_bool_iff in E.
      assert (Hm : py_min Rw Rb = Rw).
      { destruct (py_min_spec Rw Rb) as [[H1 _]|[_ H2]]; [lra | exact H2]. }
      split; [split; [intros _; exact E | reflexivity]|].
      split; [intros _; exact Hm|].
      split; [intros Hn; contradiction Hn; reflexivity|].
      split; [reflexivity|].
      intros Hf Hw. rewrite Hm.
      set (Rwd := 0.60 * FEXX * (1.0 + 0.50 * fpow s 1.5)
                  * (0.707 * weld_size)).
      assert (Hd : Rw <= Rwd).
      { assert (Ed : Rwd - Rw
                     == (0.60 * 0.707 * 0.50) * (fpow s 1.5 * (FEXX * weld_size)))
          by (subst Rwd Rw; ring).
        assert (Hp : 0 <= fpow s 1.5 * (FEXX * weld_size))
          by now apply Qmult_le_0_compat.
        clearbody Rw Rwd. lra. }
      destruct (py_min_spec Rwd Rb) as [[_ ->]|[_ ->]]; assumption.
    + apply Qle_bool_false in E.
      assert (Hm : py_min Rw Rb = Rb).
      { destruct (py_min_spec Rw Rb) as [[_ H1]|[H2 _]]; [exact H1 | lra]. }
      split; [split; [discriminate | intros Hle; lra]|].
      split; [discriminate|].
      split; [intros _; split; [reflexivity | exact Hm]|].
      split; [reflexivity|].
      intros Hf Hw. rewrite Hm.
      set (Rwd := 0.60 * FEXX * (1.0 + 0.50 * fpow s 1.5)
                  * (0.707 * weld_size)).
      assert (Hd : Rw <= Rwd).
      { assert (Ed : Rwd - Rw
                     == (0.60 * 0.707 * 0.50) * (fpow s 1.5 * (FEXX * weld_size)))
          by (subst Rwd Rw; ring).
        assert (Hp : 0 <= fpow s 1.5 * (FEXX * weld_size))
          by now apply Qmult_le_0_compat.
        clearbody Rw Rwd. lra. }
      destruct (py_min_spec Rwd Rb) as [[_ ->]|[H1 ->]]; [apply Qle_refl | lra].
Qed.

Lemma calc_fillet_weld_strength_governs_witness :
  exists res,
    calc_fillet_weld_strength sin_approx fpow_approx 6 480 345 10 0 = Ok res
    /\ Fillet.Rn res <= Fillet.Rn_weld res.
Proof.
  destruct (proj2 (calc_fillet_weld_strength_governs sin_approx fpow_approx
                     6 480 345 10 0)) as (res & Hres & _ & _ & Hle & _).
  - vm_compute. discriminate.
  - exists res. split; assumption.
Defined.

(** X29.  [calc_groove_weld_strength] treats every weld type other than
    "CJP" as a partial-penetration weld.  A CJP weld has the base
    thickness as throat, is marked full strength, and its shear strength
    is the smaller of weld metal and base metal; a PJP weld takes half the
    base thickness as throat when none is given, is never full strength,
    and its tension strength is the smaller of weld metal and base metal
    over the effective throat.  Allowable values divide by 1.67 / 1.50
    (CJP) or 2.00 (PJP). *)
Theorem calc_groove_weld_strength_cases (weld_type : string)
        (FEXX Fy_base t_base throat : Q) :
  let res := calc_groove_weld_strength weld_type FEXX Fy_base t_base throat in
  (Groove.full_strength res = true <-> weld_type = "CJP"%string)
  /\ (weld_type = "CJP"%string ->
      Groove.throat res = t_base
      /\ Groove.Rn_tension res = Fy_base * t_base
      /\ Groove.Rn_shear res <= 0.60 * FEXX * t_base
      /\ Groove.Rn_shear res <= 0.60 * Fy_base * t_base
      /\ (Groove.Rn_shear res = 0.60 * FEXX * t_base
          \/ Groove.Rn_shear res = 0.60 * Fy_base * t_base)
      /\ Groove.Rn_allow_tension res = Groove.Rn_tension res / 1.67
      /\ Groove.Rn_allow_shear res = Groove.Rn_shear res / 1.50)
  /\ (weld_type <> "CJP"%string ->
      (0 < throat -> Groove.throat res = throat)
      /\ (throat <= 0 -> Groove.throat res = t_base * 0.5)
      /\ Groove.Rn_shear res = 0.60 * FEXX * Groove.throat res
      /\ Groove.Rn_tension res <= 0.60 * FEXX * Groove.throat res
      /\ Groove.Rn_tension res <= Fy_base * Groove.throat res
      /\ Groove.Rn_allow_tension res = Groove.Rn_tension res / 2.00
      /\ Groove.Rn_allow_shear res = Groove.Rn_shear res / 2.00).
Proof.
  intros res. subst res. unfold calc_groove_weld_strength. cbv zeta.
  destruct (String.eqb weld_type "CJP") eqn:E.
  - apply String.eqb_eq in E.
    cbn [Groove.full_strength Groove.throat Groove.Rn_tension Groove.Rn_shear
         Groove.Rn_allow_tension Groove.Rn_allow_shear].
    split; [split; [intros _; exact E | reflexivity]|].
    split; [|intros Hn; contradiction].
    intros _. split; [reflexivity|]. split; [reflexivity|].
    split; [apply py_min_le_l|]. split; [apply py_min_le_r|].
    split; [|split; reflexivity].
    destruct (py_min_cases (0.60 * FEXX * t_base) (0.60 * Fy_base * t_base));
      [left | right]; assumption.
  - apply String.eqb_neq in E.
    cbn [Groove.full_strength Groove.throat Groove.Rn_tension Groove.Rn_shear
         Groove.Rn_allow_tension Groove.Rn_allow_shear].
    split; [split; [discriminate | intros Hc; contradiction]|].
    split; [intros Hc; contradiction|].
    intros _.
    split; [intros H; apply Qltb_lt in H; rewrite H; reflexivity|].
    split; [intros H; apply Qltb_ge in H; rewrite H; reflexivity|].
    split; [reflexivity|].
    split; [apply py_min_le_l|]. split; [apply py_min_le_r|].
    split; reflexivity.
Qed.

Lemma calc_groove_weld_strength_cases_witness :
  Groove.throat (calc_groove_weld_strength "PJP" 480 345 10 0) = 10 * 0.5
  /\ Groove.throat (calc_groove_weld_strength "CJP" 480 345 10 0) = 10.
Proof.
  split.
  - apply (proj2 (proj2 (calc_groove_weld_strength_cases "PJP" 480 345 10 0)));
      [discriminate | apply Qle_refl].
  - apply (proj1 (proj2 (calc_groove_weld_strength_cases "CJP" 480 345 10 0))).
    reflexivity.
Defined.

Lemma FEXX_positive (electrode : string) :
  0 < FEXX_of (dict_get WELD_ELECTRODES electrode WELD_ELECTRODES_E70).
Proof.
  unfold dict_get, WELD_ELECTRODES. cbn [dict_lookup].
  repeat (match goal with
          | |- context [String.eqb ?a ?b] => destruct (String.eqb a b)
          end; [reflexivity|]).
  reflexivity.
Qed.

Lemma inject_Z_nonzero' (n : Z) : n <> 0%Z -> ~ inject_Z n == 0.
Proof.
  intros Hn H. apply Hn. unfold Qeq in H. cbn in H. lia.
Qed.

Lemma strength_ratio_ok (q Rn_allow : Q) :
  Qle_bool (if Qltb 0 Rn_allow then q / Rn_allow else 999) 1.0 = true
  <-> 0 < Rn_allow /\ q <= Rn_allow.
Proof.
  rewrite Qle_bool_iff. destruct (Qltb 0 Rn_allow) eqn:E.
  - apply Qltb_lt in E. split.
    + intros H. split; [exact E|]. apply (Qdiv_le_one q Rn_allow E). lra.
    + intros [_ H]. apply (Qdiv_le_one q Rn_allow E) in H. lra.
  - apply Qltb_ge in E. split; [intros H; lra | intros [H _]; lra].
Qed.

Lemma required_size_implied (qw FEXX w w_min Rb : Q) :
  0 < FEXX -> w_min <= w ->
  qw <= py_min (0.60 * FEXX * (0.707 * w)) Rb / 2.00 ->
  py_max (qw * 2.00 / (0.6 * FEXX * 0.707)) w_min <= w.
Proof.
  intros HF Hmin Hq.
  pose proof (py_min_le_l (0.60 * FEXX * (0.707 * w)) Rb) as Hl.
  set (m := py_min (0.60 * FEXX * (0.707 * w)) Rb) in *.
  assert (Hm : m / 2.00 == m * (1 # 2)) by field.
  rewrite Hm in Hq.
  assert (Hden : 0 < 0.6 * FEXX * 0.707) by lra.
  assert (Hraw : qw * 2.00 / (0.6 * FEXX * 0.707) <= w).
  { apply Qle_shift_div_r; [exact Hden|].
    assert (E : w * (0.6 * FEXX * 0.707) == 0.60 * FEXX * (0.707 * w)) by ring.
    rewrite E. clearbody m. lra. }
  destruct (py_max_cases (qw * 2.00 / (0.6 * FEXX * 0.707)) w_min)
    as [[_ ->]|[_ ->]]; assumption.
Qed.

(** X30.  [check_weld_for_built_up_section] raises [ZeroDivisionError]
    for a section without moment of inertia ([Ix == 0], as before
    [calc_props]) or for zero weld lines, and returns otherwise (the sine
    of a zero angle not being negative).  The result holds between three
    and six checks, [ok] is their conjunction and decides the status, and
    the reported ratio is the shear flow per weld over the allowable weld
    strength.  For a fillet weld the last check compares the provided size
    with the required one, which is never below the table minimum, and it
    passes whenever the minimum-size and the strength checks pass. *)
Theorem check_weld_for_built_up_section_behaviour
        (sin : Q -> Q) (fpow : Q -> Q -> Q) (sec : SteelSection)
        (V_design M_design : Q) (weld_data : WeldDesignData) (Fy : Q) :
  let run := check_weld_for_built_up_section sin fpow sec V_design M_design
                                             weld_data Fy in
  (Ix sec == 0 -> run = Raise ZeroDivisionError)
  /\ (~ Ix sec == 0 -> num_welds weld_data = 0%Z ->
      run = Raise ZeroDivisionError)
  /\ (~ Ix sec == 0 -> num_welds weld_data <> 0%Z ->
      0 <= sin (math_radians 0) ->
      exists res,
        run = Ok res
        /\ Weld.ok res = forallb WeldCheck.ok (Weld.checks res)
        /\ (Weld.status res = "✓ OK"%string <-> Weld.ok res = true)
        /\ Weld.ratio res
           = (if Qltb 0 (Weld.Rn_allow res)
              then Weld.q_per_weld res / Weld.Rn_allow res else 999)
        /\ (3 <= List.length (Weld.checks res) <= 6)%nat
        /\ (Weld.ok res = true ->
            Weld.w_min res <= weld_size_of weld_data
            /\ weld_size_of weld_data <= Weld.w_max res
            /\ 0 < Weld.Rn_allow res
            /\ Weld.q_per_weld res <= Weld.Rn_allow res)
        /\ (weld_type weld_data <> "fillet"%string ->
            Weld.w_required res = None)
        /\ (weld_type weld_data = "fillet"%string ->
            exists c1 c2 c3 mid c5 wr,
              Weld.checks res = [c1; c2; c3] ++ mid ++ [c5]
              /\ Weld.w_required res = Some wr
              /\ Weld.w_min res <= wr
              /\ (WeldCheck.ok c5 = true <-> wr <= weld_size_of weld_data)
              /\ (WeldCheck.ok c1 = true -> WeldCheck.ok c3 = true ->
                  WeldCheck.ok c5 = true))).
Proof.
  intros run. subst run. unfold check_weld_for_built_up_section. cbv zeta.
  set (FEXX := FEXX_of (dict_get WELD_ELECTRODES (electrode weld_data)
                                 WELD_ELECTRODES_E70)).
  pose proof (FEXX_positive (electrode weld_data)) as HFEXX. fold FEXX in HFEXX.
  set (tf' := if Qltb 0 (tf_top sec) then tf_top sec else tf sec).
  set (bf' := if Qltb 0 (bf_top sec) then bf_top sec else bf sec).
  split; [|split].
  - intros H. now rewrite py_div_zero.
  - intros H Hn. rewrite py_div_ok by exact H. cbn [bind].
    rewrite Hn. now rewrite py_div_zero.
  - intros H Hn Hsin.
    rewrite py_div_ok by exact H. cbn [bind].
    rewrite py_div_ok by (apply inject_Z_nonzero'; exact Hn). cbn [bind].
    set (q := V_design * 1000 * (bf' * tf' * ((d sec - tf') / 2)) / Ix sec).
    set (qw := q / inject_Z (num_welds weld_data)).
    set (w := weld_size_of weld_data).
    set (w_min := get_min_fillet_weld_size (py_max tf' (tw sec))).
    set (w_max := get_max_fillet_weld_size (py_min tf' (tw sec))).
    assert (Hden : ~ 0.6 * FEXX * 0.707 == 0).
    { intros E. assert (E' : FEXX * (0.6 * 0.707) == 0) by (rewrite <- E; ring).
      clearbody FEXX. lra. }
    set (c1 := WeldCheck.mk "Minimum Weld Size (Table J2.4)" (Num w)
                            (Num w_min) None (Qle_bool w_min w)
                            "AISC 360-16 Table J2.4").
    set (c2 := WeldCheck.mk "Maximum Weld Size (J2.2b)" (Num w)
                            (Num w_max) None (Qle_bool w w_max)
                            "AISC 360-16 J2.2b").
    set (c4a := WeldCheck.mk "Intermittent Weld Spacing"
                  (Num (intermittent_spacing weld_data))
                  (Num (py_min (24 * tw sec) 305)) None
                  (Qle_bool (intermittent_spacing weld_data)
                            (py_min (24 * tw sec) 305))
                  "AISC 360-16 J2.2b").
    set (c4b := WeldCheck.mk "Minimum Intermittent Weld Length"
                  (Num (intermittent_length weld_data))
                  (Num (py_max (4 * w) 38)) None
                  (Qle_bool (py_max (4 * w) 38)
                            (intermittent_length weld_data))
                  "AISC 360-16 J2.2b").
    destruct (String.eqb (weld_type weld_data) "fillet") eqn:Efil.
    + (* fillet weld *)
      apply String.eqb_eq in Efil.
      unfold calc_fillet_weld_strength. cbv zeta.
      pose proof Hsin as Hsb. apply Qltb_ge in Hsb. rewrite Hsb.
      cbn [bind fst snd Fillet.Rn_allow Fillet.throat].
      rewrite py_div_ok by exact Hden. cbn [bind fst snd].
      set (Rb := 0.60 * (Fy * 1.3) * tw sec).
      set (Ra := py_min (0.60 * FEXX * (0.707 * w)) Rb / 2.00).
      set (rs := if Qltb 0 Ra then qw / Ra else 999).
      set (wr := py_max (qw * 2.00 / (0.6 * FEXX * 0.707)) w_min).
      set (c3 := WeldCheck.mk "Weld Shear Strength (J2.4)" (Num qw) (Num Ra)
                              (Some rs) (Qle_bool rs 1.0)
                              "AISC 360-16 Eq. J2-4").
      set (c5 := WeldCheck.mk "Required vs Provided Weld Size" (Num wr)
                              (Num w) None (Qle_bool wr w)
                              "Design calculation").
      assert (Hred : WeldCheck.ok c1 = true -> WeldCheck.ok c3 = true ->
                     WeldCheck.ok c5 = true).
      { cbn [WeldCheck.ok c1 c3 c5]. intros H1 H3.
        apply Qle_bool_iff in H1. apply strength_ratio_ok in H3.
        apply Qle_bool_iff. apply (required_size_implied qw FEXX w w_min Rb);
          [exact HFEXX | exact H1 | exact (proj2 H3)]. }
      assert (Hwr : w_min <= wr) by apply py_max_ge_r.
      eexists. split; [reflexivity|].
      cbn [Weld.ok Weld.checks Weld.status Weld.ratio Weld.Rn_allow
           Weld.q_per_weld Weld.w_min Weld.w_max Weld.w_required].
      destruct (negb (is_continuous weld_data)
                && Qltb 0 (intermittent_spacing weld_data));
        cbn [app forallb check_ratios max_ratio fold_left List.length
             WeldCheck.ok WeldCheck.ratio c1 c2 c3 c4a c4b c5];
        (split; [reflexivity|];
         split; [match goal with
                 | |- context [if ?b then _ else _] =>
                     destruct b; split; first [reflexivity | discriminate]
                 end|];
         split; [reflexivity|];
         split; [lia|];
         split; [rewrite !andb_true_iff; unfold rs;
                 rewrite (strength_ratio_ok qw Ra), !Qle_bool_iff; tauto|];
         split; [intros Hnf; contradiction|];
         intros _).
      * exists c1, c2, c3, [c4a; c4b], c5, wr.
        split; [reflexivity|]. split; [reflexivity|]. split; [exact Hwr|].
        split; [apply Qle_bool_iff | exact Hred].
      * exists c1, c2, c3, [], c5, wr.
        split; [reflexivity|]. split; [reflexivity|]. split; [exact Hwr|].
        split; [apply Qle_bool_iff | exact Hred].
    + (* groove weld *)
      apply String.eqb_neq in Efil.
      cbn [bind fst snd].
      set (g := calc_groove_weld_strength (weld_type weld_data) FEXX Fy
                  (tw sec)
                  (if String.eqb (weld_type weld_data) "PJP" then w
                   else tw sec)).
      set (Ra := Groove.Rn_allow_shear g).
      set (rs := if Qltb 0 Ra then qw / Ra else 999).
      eexists. split; [reflexivity|].
      cbn [Weld.ok Weld.checks Weld.status Weld.ratio Weld.Rn_allow
           Weld.q_per_weld Weld.w_min Weld.w_max Weld.w_required].
      destruct (negb (is_continuous weld_data)
                && Qltb 0 (intermittent_spacing weld_data));
        cbn [app forallb check_ratios max_ratio fold_left List.length
             WeldCheck.ok WeldCheck.ratio c1 c2 c4a c4b];
        (split; [reflexivity|];
         split; [match goal with
                 | |- context [if ?b then _ else _] =>
                     destruct b; split; first [reflexivity | discriminate]
                 end|];
         split; [reflexivity|];
         split; [lia|];
         split; [rewrite !andb_true_iff; unfold rs;
                 rewrite (strength_ratio_ok qw Ra), !Qle_bool_iff; tauto|];
         split; [intros _; reflexivity|];
         intros Hf; contradiction).
Qed.

Lemma check_weld_for_built_up_section_behaviour_witness :
  check_weld_for_built_up_section sin_approx fpow_approx plate_girder
    300 500 default_weld_data 345 = Raise ZeroDivisionError
  /\ exists res,
       check_weld_for_built_up_section sin_approx fpow_approx ipe200
         300 500 default_weld_data 345 = Ok res
       /\ Weld.ok res = forallb WeldCheck.ok (Weld.checks res).
Proof.
  split.
  - apply (proj1 (check_weld_for_built_up_section_behaviour
                    sin_approx fpow_approx plate_girder 300 500
                    default_weld_data 345)).
    reflexivity.
  - destruct (proj2 (proj2 (check_weld_for_built_up_section_behaviour
                              sin_approx fpow_approx ipe200 300 500
                              default_weld_data 345)))
      as (res & Hres & Hok & _).
    + discriminate.
    + discriminate.
    + vm_compute. discriminate.
    + exists res. split; assumption.
Defined.
